(** * TrackerVisualizer: the audio core of [src/components/TrackerVisualizer.jsx]

    A shallow embedding of the pure functions of the tracker's audio core
    and the properties its specification states about them:

    - [PitchMapper]: [freqToNoteName], frequency to note name;
    - [Analyzer]: the band energies of [HexConsoleVisualizer];
    - [Render]: [renderToBuffer], the offline pattern renderer;
    - [Wav]: [audioBufferToWav], the RIFF/WAVE PCM16 encoder;
    - [Mp3]: [wavBlobToMp3Blob], the framing around the lamejs codec.

    Numbers.  A JavaScript number is a double: a rational ([Q]) that is
    representable, or one of the non-finite values ([jsnum] in [Render]).
    [Render], [DoublePitchMapper], [Spectrum] and [formatTime] compute as
    the engine does: every operation rounds its exact result to the
    nearest double ([binary64]), and overflows to an infinity.
    [PitchMapper] takes [Math.log2] exactly, and the level computations of
    [AsciiCircleVisualizer] and [HexConsoleVisualizer] are exact; the
    other modules compute on integers and bytes.

    Host.  What the browser does is taken from the Web Audio, Web IDL and
    ECMAScript specifications.  The [OfflineAudioContext] constructor is
    a parameter ([Host]): which arguments it refuses, and with which
    error, is the host's choice. *)

From Stdlib Require Import ZArith QArith Qround Qminmax Qabs Qpower Lia Lqa String Ascii List
  DecimalString.
From stdpp Require Import list strings.
Import ListNotations.

#[local] Open Scope Z_scope.

(** ** JavaScript primitives shared by the modules *)

Module JS.

(** [Math.trunc]-style conversion of a finite number to an integer
    (the first step of [ToInt16], [ToUint32], ...): round toward zero. *)
Definition trunc (x : Q) : Z := Z.quot (Qnum x) (Zpos (Qden x)).

(** [Number.prototype.toString] / template-literal rendering of an integer. *)
Definition string_of_Z (z : Z) : string := NilZero.string_of_int (Z.to_int z).

(** [a % b] on integers: the remainder has the sign of the dividend. *)
Definition rem (a b : Z) : Z := Z.rem a b.

(** [arr[i]] on a JavaScript array with an integer-valued index: a
    negative or too large index yields [undefined] ([None]). *)
Definition index {A} (arr : list A) (i : Z) : option A :=
  if i <? 0 then None else arr !! Z.to_nat i.

(** [a < b] on finite numbers. *)
Definition Qltb (a b : Q) : bool := negb (Qle_bool b a).

(** [`${v}`] for a value that is a string or [undefined]. *)
Definition template (v : option string) : string :=
  match v with
  | Some s => s
  | None => "undefined"
  end.

End JS.

(** ** PitchMapper: [freqToNoteName] *)

Module PitchMapper.

(** The argument of [freqToNoteName] as JavaScript sees it: a finite
    number, [NaN], or [undefined] (a missing argument). *)
Inductive jsval : Type :=
| JUndefined
| JNaN
| JNum (q : Q).

Definition NOTE_NAMES : list string :=
  ["C"; "C#"; "D"; "D#"; "E"; "F"; "F#"; "G"; "G#"; "A"; "A#"; "B"]%string.

Definition A4 : Q := 440%Q.

(** [pow2_le m a b]: [2^m <= a / b], for positive [a] and [b], decided
    on integers (the exponent may be negative). *)
Definition pow2_le (m a b : Z) : bool :=
  if 0 <=? m then b * 2 ^ m <=? a else b <=? a * 2 ^ (- m).

(** [floor (log2 (a / b))] for positive integers [a] and [b]. *)
Definition floor_log2_frac (a b : Z) : Z :=
  let m0 := Z.log2 a - Z.log2 b in
  if pow2_le m0 a b then m0 else m0 - 1.

(** [Math.round(12 * Math.log2(q))] for a positive rational [q], computed
    exactly: [Math.round x] is [floor (x + 1/2)], and
    [floor (12 * log2 q + 1/2) = floor ((floor (log2 (q^24)) + 1) / 2)].
    [round_12log2_spec] below characterises the result without
    logarithms.  An engine rounds the quotient, the logarithm and the
    product, and can land on the neighbouring integer where
    [12 * log2 q] is within that error of a half-integer;
    [DoublePitchMapper] below has the engine's arithmetic. *)
Definition round_12log2 (q : Q) : Z :=
  (floor_log2_frac (Qnum q ^ 24) (Zpos (Qden q) ^ 24) + 1) / 2.

(** [`!freq || freq <= 0`] *)
Definition no_freq (freq : jsval) : bool :=
  match freq with
  | JUndefined | JNaN => true
  | JNum f => Qle_bool f 0
  end.

Definition semitones (f : Q) : Z := round_12log2 (f / A4).
Definition midi (f : Q) : Z := 69 + semitones f.
Definition note (f : Q) : option string := JS.index NOTE_NAMES (JS.rem (midi f) 12).
Definition octave (f : Q) : Z := midi f / 12 - 1.

Definition freqToNoteName (freq : jsval) : string :=
  match freq with
  | JNum f =>
      if no_freq freq then "--"
      else JS.template (note f) +:+ JS.string_of_Z (octave f)
  | _ => "--"
  end.




End PitchMapper.

(** ** SpectralAnalyzer: the band energies of [HexConsoleVisualizer] *)

Module Analyzer.

Record band : Type := { name : string; range : nat * nat }.

Definition bands : list band :=
  [ {| name := "BASS"; range := (0, 64)%nat |};
    {| name := "MID"; range := (65, 256)%nat |};
    {| name := "HIGH"; range := (257, 1024)%nat |} ].

(** [for (let i = start; i < end && i < arr.length; i++) sum += arr[i];]
    The loop runs at most [end - start] times, which is the fuel given
    by [energy]. *)
Fixpoint energy_loop (fuel : nat) (arr : list Z) (i end_ : nat) (sum : Z) : Z :=
  match fuel with
  | O => sum
  | S fuel' =>
      if (i <? end_)%nat && (i <? length arr)%nat
      then energy_loop fuel' arr (S i) end_ (sum + default 0 (arr !! i))
      else sum
  end.

(** [energy(arr, [start, end])]; [arr] is the analyser's [Uint8Array] of
    byte magnitudes.  Only called on [bands], where [start < end]. *)
Definition energy (arr : list Z) (r : nat * nat) : Q :=
  let '(start, end_) := r in
  let sum := energy_loop (end_ - start) arr start end_ 0 in
  (inject_Z sum / inject_Z (Z.of_nat end_ - Z.of_nat start))%Q.

(** [Math.floor((val / 255) * 15)] *)
Definition level (val : Q) : Z := Qfloor (val / 255 * 15)%Q.

(** The energies computed by [bands.map(b => energy(dataArray, b.range))]. *)
Definition bandEnergies (dataArray : list Z) : list (string * Q) :=
  map (fun b => (name b, energy dataArray (range b))) bands.


(** The sum of the bins [start .. end - 1] that exist in [arr]. *)
Definition sum_bins (arr : list Z) (start end_ : nat) : Z :=
  foldr Z.add 0 (take (end_ - start) (drop start arr)).

(** "Near the input peak", read generously: at least half of the peak. *)
Definition near_peak (e peak : Q) : Prop := (peak / 2 <= e)%Q.

(** A spectrum with all its energy, at full scale, in bins 0 to 10. *)
Definition concentrated : list Z := replicate 11 255 ++ replicate 1013 0.

End Analyzer.

(** ** The Web Audio objects the renderer and the encoder exchange *)

Module WebAudio.

(** Exceptions raised by the language and by the host audio API. *)
Inductive error : Type := TypeError | RangeError | NotSupportedError.

Inductive result (A : Type) : Type :=
| Ok (a : A)
| Throw (e : error).
Arguments Ok {A} a.
Arguments Throw {A} e.

#[global] Instance result_ret : MRet result := fun A a => Ok a.
#[global] Instance result_bind : MBind result := fun A B f r =>
  match r with
  | Ok a => f a
  | Throw e => Throw e
  end.

(** An [AudioBuffer]: [channelData] holds one sample array per channel. *)
Record AudioBuffer : Type := {
  numberOfChannels : nat;
  buffer_length : nat;
  sampleRate : Z;
  channelData : list (list Q)
}.

(** The invariant of every [AudioBuffer] the host hands out. *)
Definition wf_buffer (b : AudioBuffer) : Prop :=
  length (channelData b) = numberOfChannels b /\
  Forall (fun ch => length ch = buffer_length b) (channelData b).

End WebAudio.

Export WebAudio.


(** ** PatternRenderer: [renderToBuffer] *)

Module Render.

(** A pattern cell, [{ note, instr, vol }]; ["--"] in [note] is silence. *)
Record cell : Type := { note : string; instr : string; vol : string }.

(** [pattern[ci][ri]]: channels of rows; [None] is a missing ([undefined]) cell. *)
Definition pattern : Type := list (list (option cell)).

(** The values of a number expression: a finite number, or one of the
    non-finite doubles, reached by a division by zero, an overflow, or an
    operation on such a value.  Zero is taken as [+0]. *)
Inductive jsnum : Type :=
| Fin (q : Q)
| PInf
| NInf
| NaN.

Definition sign (a : jsnum) : comparison :=
  match a with
  | Fin q => (q ?= 0)%Q
  | PInf => Gt
  | NInf => Lt
  | NaN => Eq
  end.

Definition sign_mul (a b : comparison) : comparison :=
  match a, b with
  | Eq, _ | _, Eq => Eq
  | Gt, c => c
  | Lt, c => CompOpp c
  end.

(** The infinity of a given sign; [NaN] for a zero sign ([0 * Infinity], [0 / 0]). *)
Definition inf_of_sign (c : comparison) : jsnum :=
  match c with
  | Gt => PInf
  | Lt => NInf
  | Eq => NaN
  end.

(** Multiplication, division and addition without rounding: the
    non-finite cases of the operations on doubles below, which round the
    finite ones, and the level computations of the visualizers. *)
Definition jmul (a b : jsnum) : jsnum :=
  match a, b with
  | NaN, _ | _, NaN => NaN
  | Fin x, Fin y => Fin (x * y)
  | _, _ => inf_of_sign (sign_mul (sign a) (sign b))
  end.

Definition jdiv (a b : jsnum) : jsnum :=
  match a, b with
  | NaN, _ | _, NaN => NaN
  | Fin x, Fin y => if Qeq_bool y 0 then inf_of_sign (sign a) else Fin (x / y)
  | Fin _, _ => Fin 0
  | _, Fin y => inf_of_sign (sign_mul (sign a) (if Qeq_bool y 0 then Gt else sign b))
  | _, _ => NaN
  end.

Definition jadd (a b : jsnum) : jsnum :=
  match a, b with
  | NaN, _ | _, NaN => NaN
  | Fin x, Fin y => Fin (x + y)
  | PInf, NInf | NInf, PInf => NaN
  | PInf, _ | _, PInf => PInf
  | NInf, _ | _, NInf => NInf
  end.

(** [Math.min] *)
Definition jmin (a b : jsnum) : jsnum :=
  match a, b with
  | NaN, _ | _, NaN => NaN
  | NInf, _ | _, NInf => NInf
  | PInf, c | c, PInf => c
  | Fin x, Fin y => Fin (Qmin x y)
  end.

(** [Math.ceil] *)
Definition jceil (a : jsnum) : jsnum :=
  match a with
  | Fin x => Fin (inject_Z (Qceiling x))
  | _ => a
  end.

(** *** Double arithmetic

    The arithmetic of [renderToBuffer] is that of IEEE 754 binary64: the
    exact result of an operation on two doubles is rounded to the nearest
    double, ties to the even significand; a result of magnitude
    [2^1024] or more after rounding is an infinity, and results below
    [2^-1022] in magnitude are rounded on the subnormal grid of spacing
    [2^-1074]. *)

(** The nearest integer, ties to even. *)
Definition round_half_even (q : Q) : Z :=
  let f := Qfloor q in
  match (q - inject_Z f ?= 1 # 2)%Q with
  | Lt => f
  | Gt => f + 1
  | Eq => if Z.even f then f else f + 1
  end.

(** The exponent of the unit in the last place for a number of magnitude
    [a > 0]: 52 below the exponent of [a], and at least [-1074]. *)
Definition ulp_exponent (a : Q) : Z :=
  Z.max (PitchMapper.floor_log2_frac (Qnum a) (Zpos (Qden a)) - 52) (-1074).

(** The magnitude [a > 0] rounded to 53 significant bits. *)
Definition round_magnitude (a : Q) : Q :=
  (inject_Z (round_half_even (a / 2 ^ ulp_exponent a)) * 2 ^ ulp_exponent a)%Q.

(** The double nearest to the rational [q], as a reduced fraction. *)
Definition binary64 (q : Q) : jsnum :=
  if Qeq_bool q 0 then Fin 0
  else
    let v := round_magnitude (Qabs q) in
    if Qle_bool (2 ^ 1024) v then (if Qle_bool 0 q then PInf else NInf)
    else Fin (Qred (if Qle_bool 0 q then v else - v)).

(** A decimal literal of the source denotes the double nearest to it. *)
Definition lit (q : Q) : jsnum := binary64 q.

(** [a * b], [a / b] and [a + b] on doubles. *)
Definition dmul (a b : jsnum) : jsnum :=
  match a, b with
  | Fin x, Fin y => binary64 (x * y)
  | _, _ => jmul a b
  end.

Definition ddiv (a b : jsnum) : jsnum :=
  match a, b with
  | Fin x, Fin y => if Qeq_bool y 0 then jdiv a b else binary64 (x / y)
  | _, _ => jdiv a b
  end.

Definition dadd (a b : jsnum) : jsnum :=
  match a, b with
  | Fin x, Fin y => binary64 (x + y)
  | _, _ => jadd a b
  end.

(** *** The host's offline audio graph

    What [renderToBuffer] builds through the Web Audio API, with the
    behaviour that API specifies for the calls the function makes. *)

(** The automation of a gain parameter: [setValueAtTime (v0, t0)] followed
    by [linearRampToValueAtTime] events [(time, value)]. *)
Record envelope : Type := {
  set_time : Q;
  set_value : Q;
  ramps : list (Q * Q)
}.

(** One oscillator with its envelope gain, connected to the master gain. *)
Record voice : Type := {
  frequency : Q;
  env : envelope;
  start_time : Q;
  stop_time : Q
}.

(** An [OfflineAudioContext (channels, length, sampleRate)]. *)
Record context : Type := {
  ctx_channels : nat;
  ctx_length : nat;
  ctx_sampleRate : Z
}.

(** The conversion of the [length] argument to a Web IDL [unsigned long]:
    a non-finite number becomes 0, a finite one is truncated and reduced
    modulo [2^32]. *)
Definition to_frames (len : jsnum) : Z :=
  match len with
  | Fin q => JS.trunc q mod 2 ^ 32
  | _ => 0
  end.

(** The host's [OfflineAudioContext] constructor.  Which arguments a host
    refuses, and with which error, is left to the host; a context it
    returns has the channel count and sample rate asked for and the
    converted [length]. *)
Class Host : Type := {
  OfflineAudioContext : nat -> jsnum -> Z -> result context;
  OfflineAudioContext_ok :
    forall (channels : nat) (len : jsnum) (rate : Z) (ctx : context),
      OfflineAudioContext channels len rate = Ok ctx ->
      ctx_channels ctx = channels /\
      Z.of_nat (ctx_length ctx) = to_frames len /\
      ctx_sampleRate ctx = rate
}.

(** The constructor as the Web Audio specification words it: a
    [NotSupportedError] when [length] is zero, and no other refusal. *)
Definition reference_constructor (channels : nat) (len : jsnum) (rate : Z)
  : result context :=
  if 0 <? to_frames len
  then Ok {| ctx_channels := channels;
             ctx_length := Z.to_nat (to_frames len);
             ctx_sampleRate := rate |}
  else Throw NotSupportedError.

#[global, refine] Instance reference_host : Host :=
  {| OfflineAudioContext := reference_constructor |}.
Proof.
  intros channels len rate ctx. unfold reference_constructor.
  destruct (Z.ltb_spec 0 (to_frames len)) as [H | H]; [| discriminate].
  intros E. injection E as <-. cbn. split; [reflexivity |]. split; [lia | reflexivity].
Defined.

(** A time argument of [setValueAtTime], [linearRampToValueAtTime],
    [start] or [stop]: a non-finite number is a [TypeError], a negative
    one a [RangeError]. *)
Definition audio_time (t : jsnum) : result Q :=
  match t with
  | Fin q => if JS.Qltb q 0 then Throw RangeError else Ok q
  | _ => Throw TypeError
  end.

Definition noteDur : jsnum := lit 0.12.
Definition master_gain : Q := 0.9%Q.

(** The body of the inner loop for a cell with a note: the oscillator and
    envelope of channel [ci] scheduled at time [t]. *)
Definition schedule_note (ci : nat) (t : jsnum) : result voice :=
  let freq := (110 + inject_Z (Z.of_nat ci) * 30)%Q in
  t0 ← audio_time t;
  t1 ← audio_time (dadd t (lit 0.005));
  t2 ← audio_time (dadd t (dmul noteDur (lit 0.5)));
  t3 ← audio_time (dadd t noteDur);
  t_start ← audio_time t;
  t_stop ← audio_time (dadd (dadd t noteDur) (lit 0.02));
  Ok {| frequency := freq;
        env := {| set_time := t0; set_value := 0%Q;
                  ramps := [(t1, 0.12%Q); (t2, 0.03%Q); (t3, 0%Q)] |};
        start_time := t_start;
        stop_time := t_stop |}.

(** [!cell || cell.note === '--'] *)
Definition silent (c : option cell) : bool :=
  match c with
  | None => true
  | Some c => String.eqb (note c) "--"
  end.

(** [for (let ri = 0; ri < chan.length; ri++)], from row [ri] on; [acc]
    holds the voices scheduled so far. *)
Fixpoint schedule_rows (ci : nat) (rowDur : jsnum) (chan : list (option cell))
    (ri : nat) (acc : list voice) : result (list voice) :=
  match chan with
  | [] => Ok acc
  | c :: rest =>
      if silent c then schedule_rows ci rowDur rest (S ri) acc
      else
        v ← schedule_note ci (dmul (Fin (inject_Z (Z.of_nat ri))) rowDur);
        schedule_rows ci rowDur rest (S ri) (acc ++ [v])
  end.

(** [for (let ci = 0; ci < pattern.length; ci++)], from channel [ci] on. *)
Fixpoint schedule_channels (rowDur : jsnum) (p : pattern) (ci : nat)
    (acc : list voice) : result (list voice) :=
  match p with
  | [] => Ok acc
  | chan :: rest =>
      acc' ← schedule_rows ci rowDur chan 0 acc;
      schedule_channels rowDur rest (S ci) acc'
  end.

(** [rowDur] and [estimatedSeconds] as [renderToBuffer] derives them from
    [bpm], the row count and [secondsLimit]. *)
Definition rowDur_of (bpm : Q) : jsnum := ddiv (ddiv (Fin 60) (Fin bpm)) (Fin 4).

Definition estimatedSeconds_of (rows : nat) (bpm secondsLimit : Q) : jsnum :=
  jmin (Fin secondsLimit)
       (dadd (dmul (Fin (inject_Z (Z.of_nat rows))) (rowDur_of bpm)) (Fin 1)).

(** [Math.ceil(sampleRate * estimatedSeconds)], the [length] passed to the
    [OfflineAudioContext] constructor. *)
Definition bufferLength_of (rows : nat) (bpm secondsLimit : Q) : jsnum :=
  jceil (dmul (Fin 44100) (estimatedSeconds_of rows bpm secondsLimit)).

Section Graph.

Context {host : Host}.

(** The host's sawtooth oscillator: its output as a function of the phase,
    in cycles since the oscillator started. *)
Variable wave : Q -> Q.

(** The value of a linear ramp from [prev] through [events] at time [T],
    for [T] not before [prev]; after the last event the value is held. *)
Fixpoint ramp_value (prev : Q * Q) (events : list (Q * Q)) (T : Q) : Q :=
  match events with
  | [] => snd prev
  | (t1, v1) :: rest =>
      if JS.Qltb T t1
      then (snd prev + (v1 - snd prev) * ((T - fst prev) / (t1 - fst prev)))%Q
      else ramp_value (t1, v1) rest T
  end.

(** The gain of an envelope at time [T]; the parameter's own value, set by
    [env.gain.value = 0], applies before the first event. *)
Definition gain_at (e : envelope) (T : Q) : Q :=
  if JS.Qltb T (set_time e) then 0%Q
  else ramp_value (set_time e, set_value e) (ramps e) T.

(** The oscillator sounds from [start] (inclusive) to [stop] (exclusive). *)
Definition oscillator_at (v : voice) (T : Q) : Q :=
  if Qle_bool (start_time v) T && JS.Qltb T (stop_time v)
  then wave (frequency v * (T - start_time v))%Q
  else 0%Q.

Definition voice_at (v : voice) (T : Q) : Q :=
  (gain_at (env v) T * oscillator_at v T)%Q.

(** The inputs of a node are summed. *)
Definition mix (voices : list voice) (T : Q) : Q :=
  foldr (fun v acc => (voice_at v T + acc)%Q) 0%Q voices.

(** Frame [n] at the destination: the master gain applied to the mix. *)
Definition sample (ctx : context) (voices : list voice) (n : nat) : Q :=
  (master_gain * mix voices (inject_Z (Z.of_nat n) / inject_Z (ctx_sampleRate ctx)))%Q.

(** [offlineCtx.startRendering()]: the mono mix is copied to every channel
    of the destination. *)
Definition startRendering (ctx : context) (voices : list voice) : AudioBuffer :=
  {| numberOfChannels := ctx_channels ctx;
     buffer_length := ctx_length ctx;
     sampleRate := ctx_sampleRate ctx;
     channelData :=
       replicate (ctx_channels ctx)
         (map (sample ctx voices) (seq 0 (ctx_length ctx))) |}.

Definition renderToBuffer (p : pattern) (bpm secondsLimit : Q)
  : result AudioBuffer :=
  match p !! 0%nat with
  | None => Throw TypeError
  | Some chan0 =>
      let rows := length chan0 in
      let rowDur := rowDur_of bpm in
      let sampleRate := 44100 in
      let channels := 2%nat in
      offlineCtx ← OfflineAudioContext channels
                     (bufferLength_of rows bpm secondsLimit) sampleRate;
      voices ← schedule_channels rowDur p 0 [];
      Ok (startRendering offlineCtx voices)
  end.

End Graph.

(** The ideal sawtooth of the Web Audio specification, [x(t) = t / pi] on
    [(-pi, pi]], as a function of the phase in cycles; hosts play a
    band-limited approximation of it. *)
Definition sawtooth (phase : Q) : Q :=
  (2 * (phase - inject_Z (Qceiling (phase - 0.5))))%Q.

(** [makePattern()]: the editor's pattern, [CHANNELS] x [ROWS] silent cells. *)
Definition CHANNELS : nat := 8.
Definition ROWS : nat := 64.
Definition empty_cell : cell := {| note := "--"; instr := "--"; vol := "--" |}.
Definition makePattern : pattern := replicate CHANNELS (replicate ROWS (Some empty_cell)).


(** Patterns with notes: one note in channel 0 at row 1, and channel 0
    filled with notes. *)
Definition note_cell : cell := {| note := "C-4"; instr := "01"; vol := "64" |}.

Definition one_note_pattern : pattern :=
  <[0%nat := <[1%nat := Some note_cell]> (replicate ROWS (Some empty_cell))]> makePattern.

Definition lead_pattern : pattern :=
  <[0%nat := replicate ROWS (Some note_cell)]> makePattern.

End Render.


(** ** [DataView] and typed arrays over an [ArrayBuffer]

    An [ArrayBuffer] is its list of bytes (each in [0, 255]); multi-byte
    accesses are little-endian, as every call of the source asks. *)

Module DataView.

(** [new ArrayBuffer(n)]: zero-filled. *)
Definition ArrayBuffer (n : nat) : list Z := replicate n 0.

(** The [n] low-order bytes of [v], least significant first; for a negative
    [v] these are the bytes of its two's complement. *)
Fixpoint le_bytes (n : nat) (v : Z) : list Z :=
  match n with
  | O => []
  | S n' => v mod 256 :: le_bytes n' (v / 256)
  end.

(** The unsigned number whose little-endian bytes are [bs]. *)
Definition from_le (bs : list Z) : Z := foldr (fun b acc => b + 256 * acc) 0 bs.

(** The signed reading of a [bits]-bit unsigned number. *)
Definition to_signed (bits : Z) (u : Z) : Z :=
  if u <? 2 ^ (bits - 1) then u else u - 2 ^ bits.

(** Writing the bytes [bs] at [offset]: a [RangeError] when they do not fit. *)
Definition store (view : list Z) (offset : nat) (bs : list Z) : result (list Z) :=
  if (offset + length bs <=? length view)%nat
  then Ok (take offset view ++ bs ++ drop (offset + length bs) view)
  else Throw RangeError.

(** Reading [n] bytes at [offset]: a [RangeError] when they are not there. *)
Definition load (view : list Z) (offset n : nat) : result (list Z) :=
  if (offset + n <=? length view)%nat
  then Ok (take n (drop offset view))
  else Throw RangeError.

Definition setUint8 (view : list Z) (offset : nat) (v : Z) : result (list Z) :=
  store view offset (le_bytes 1 v).
Definition setUint16 (view : list Z) (offset : nat) (v : Z) : result (list Z) :=
  store view offset (le_bytes 2 v).
Definition setUint32 (view : list Z) (offset : nat) (v : Z) : result (list Z) :=
  store view offset (le_bytes 4 v).
(** [setInt16] converts its number with [ToInt16]: truncation, then
    wrap-around to 16 bits. *)
Definition setInt16 (view : list Z) (offset : nat) (x : Q) : result (list Z) :=
  store view offset (le_bytes 2 (JS.trunc x)).

Definition getUint16 (view : list Z) (offset : nat) : result Z :=
  bs ← load view offset 2; Ok (from_le bs).
Definition getUint32 (view : list Z) (offset : nat) : result Z :=
  bs ← load view offset 4; Ok (from_le bs).
Definition getInt16 (view : list Z) (offset : nat) : result Z :=
  bs ← load view offset 2; Ok (to_signed 16 (from_le bs)).

(** The elements of an [Int16Array] laid over the bytes [bs]. *)
Fixpoint int16s (bs : list Z) : list Z :=
  match bs with
  | b0 :: b1 :: rest => to_signed 16 (from_le [b0; b1]) :: int16s rest
  | _ => []
  end.

(** [new Int16Array(buffer, byteOffset)]: a [RangeError] when the offset is
    past the end or the remaining byte count is odd. *)
Definition Int16Array (buffer : list Z) (byteOffset : nat) : result (list Z) :=
  if (byteOffset <=? length buffer)%nat && Nat.even (length buffer - byteOffset)
  then Ok (int16s (drop byteOffset buffer))
  else Throw RangeError.

(** [arr.subarray(begin, end)], for [begin <= end]. *)
Definition subarray {A} (arr : list A) (begin end_ : nat) : list A :=
  take (end_ - begin) (drop begin arr).

End DataView.

(** ** WavEncoder: [audioBufferToWav] *)

Module Wav.
Import DataView.

(** [buffer.getChannelData(ch)[i]]; in an [AudioBuffer] (see [wf_buffer])
    every [ch < numberOfChannels] and [i < length] is in range. *)
Definition getChannelData (buffer : AudioBuffer) (ch : nat) : list Q :=
  default [] (channelData buffer !! ch).

Definition sample_at (buffer : AudioBuffer) (ch i : nat) : Q :=
  default 0%Q (getChannelData buffer ch !! i).

(** The inner loop over [ch] for frame [i]. *)
Definition frame (buffer : AudioBuffer) (i : nat) : list Q :=
  map (fun ch => sample_at buffer ch i) (seq 0 (numberOfChannels buffer)).

(** [interleaved]: frame after frame, channel after channel. *)
Definition interleaved (buffer : AudioBuffer) : list Q :=
  flat_map (frame buffer) (seq 0 (buffer_length buffer)).

(** [function writeString(view, offset, string)] *)
Fixpoint writeString (view : list Z) (offset : nat) (s : string) : result (list Z) :=
  match s with
  | EmptyString => Ok view
  | String c s' =>
      view ← setUint8 view offset (Z.of_nat (nat_of_ascii c));
      writeString view (S offset) s'
  end.

(** [Math.max(-1, Math.min(1, x))] *)
Definition clamp (x : Q) : Q := Qmax (-1) (Qmin 1 x).

(** [s < 0 ? s * 0x8000 : s * 0x7fff] *)
Definition scale (s : Q) : Q :=
  if JS.Qltb s 0 then (s * 32768)%Q else (s * 32767)%Q.

(** The PCM loop: [for (i = 0; i < interleaved.length; i++, offset += 2)],
    over the samples not yet written. *)
Fixpoint write_samples (view : list Z) (offset : nat) (samples : list Q)
  : result (list Z) :=
  match samples with
  | [] => Ok view
  | x :: rest =>
      let s := clamp x in
      view ← setInt16 view offset (scale s);
      write_samples view (offset + 2) rest
  end.

(** The bytes of the [Blob] that [audioBufferToWav] returns. *)
Definition audioBufferToWav (buffer : AudioBuffer) : result (list Z) :=
  let numOfChan := Z.of_nat (numberOfChannels buffer) in
  let sampleRate := sampleRate buffer in
  let format := 1 in
  let bitDepth := 16 in
  let interleaved := interleaved buffer in
  let bytesPerSample := bitDepth / 8 in
  let blockAlign := numOfChan * bytesPerSample in
  let dataBytes := Z.of_nat (length interleaved) * bytesPerSample in
  let bufferLength := 44 + dataBytes in
  let view := ArrayBuffer (Z.to_nat bufferLength) in
  view ← writeString view 0 "RIFF";
  view ← setUint32 view 4 (36 + dataBytes);
  view ← writeString view 8 "WAVE";
  view ← writeString view 12 "fmt ";
  view ← setUint32 view 16 16;
  view ← setUint16 view 20 format;
  view ← setUint16 view 22 numOfChan;
  view ← setUint32 view 24 sampleRate;
  view ← setUint32 view 28 (sampleRate * blockAlign);
  view ← setUint16 view 32 blockAlign;
  view ← setUint16 view 34 bitDepth;
  view ← writeString view 36 "data";
  view ← setUint32 view 40 dataBytes;
  write_samples view 44 interleaved.


(** The character codes of a string, as [writeString] stores them. *)
Definition codes (s : string) : list Z :=
  map (fun c => Z.of_nat (nat_of_ascii c)) (list_ascii_of_string s).

(** The 16-bit sample [audioBufferToWav] stores for the float [x]. *)
Definition pcm16 (x : Q) : Z := JS.trunc (scale (clamp x)).

(** The 44-byte header, field after field. *)
Definition header (numOfChan sampleRate dataBytes : Z) : list Z :=
  codes "RIFF" ++ le_bytes 4 (36 + dataBytes) ++ codes "WAVE" ++
  codes "fmt " ++ le_bytes 4 16 ++ le_bytes 2 1 ++ le_bytes 2 numOfChan ++
  le_bytes 4 sampleRate ++ le_bytes 4 (sampleRate * (numOfChan * 2)) ++
  le_bytes 2 (numOfChan * 2) ++ le_bytes 2 16 ++
  codes "data" ++ le_bytes 4 dataBytes.

(** A buffer the encoder can describe in a RIFF header: an [AudioBuffer]
    whose channel count, sample rate and encoded size fit the 16- and
    32-bit header fields. *)
Definition valid_buffer (b : AudioBuffer) : Prop :=
  wf_buffer b /\
  Z.of_nat (numberOfChannels b) < 2 ^ 16 /\
  0 <= sampleRate b < 2 ^ 32 /\
  36 + Z.of_nat (buffer_length b) * Z.of_nat (numberOfChannels b) * 2 < 2 ^ 32.

(** A two-frame stereo buffer with samples inside and outside [-1, 1]. *)
Definition example_buffer : AudioBuffer :=
  {| numberOfChannels := 2; buffer_length := 2; sampleRate := 44100;
     channelData := [[0.5%Q; (-2)%Q]; [(-0.25)%Q; 1%Q]] |}.

End Wav.


(** ** Mp3Encoder: [wavBlobToMp3Blob] *)

Module Mp3.
Import DataView.

Definition chunkSize : nat := 1152.

(** The stereo branch: [left] and [right] start as zero-filled arrays of
    [samples.length / 2] elements (the length is truncated), and
    [for (i = 0, j = 0; i < samples.length; i += 2, j++)] stores
    [samples[i]] and [samples[i + 1]] at [j].  A store past the end of a
    typed array is ignored and a read past the end stores 0; [i] grows by
    2, so [samples.length] iterations are fuel enough. *)
Fixpoint split_loop (fuel : nat) (samples : list Z) (i j : nat)
    (left right : list Z) : list Z * list Z :=
  match fuel with
  | O => (left, right)
  | S fuel' =>
      if (i <? length samples)%nat
      then split_loop fuel' samples (i + 2) (j + 1)
             (<[j := default 0 (samples !! i)]> left)
             (<[j := default 0 (samples !! (i + 1)%nat)]> right)
      else (left, right)
  end.

Definition split_channels (numChannels : Z) (samples : list Z) : list Z * list Z :=
  if numChannels =? 2
  then split_loop (length samples) samples 0 0
         (replicate (length samples / 2) 0) (replicate (length samples / 2) 0)
  else (samples, samples).

Section Codec.

(** The lamejs encoder object: its state, its constructor
    [new lamejs.Mp3Encoder(channels, sampleRate, kbps)], and its two
    methods, each returning the new state and the bytes it emits.
    [encodeBuffer] takes the right channel only in the stereo call. *)
Variable encoder : Type.
Variable Mp3Encoder : Z -> Z -> Z -> encoder.
Variable encodeBuffer : encoder -> list Z -> option (list Z) -> encoder * list Z.
Variable flush : encoder -> encoder * list Z.

(** [if (buf.length > 0) mp3Data.push(buf)] *)
Definition push_nonempty (mp3Data : list (list Z)) (buf : list Z) : list (list Z) :=
  if (0 <? length buf)%nat then mp3Data ++ [buf] else mp3Data.

(** [for (let i = 0; i < left.length; i += chunkSize)], from [i] on;
    [left.length] iterations are fuel enough. *)
Fixpoint encode_loop (fuel : nat) (numChannels : Z) (left right : list Z)
    (i : nat) (mp3enc : encoder) (mp3Data : list (list Z))
  : encoder * list (list Z) :=
  match fuel with
  | O => (mp3enc, mp3Data)
  | S fuel' =>
      if (i <? length left)%nat
      then
        let leftChunk := subarray left i (i + chunkSize) in
        let rightChunk := subarray right i (i + chunkSize) in
        let '(mp3enc, mp3buf) :=
          if numChannels =? 2
          then encodeBuffer mp3enc leftChunk (Some rightChunk)
          else encodeBuffer mp3enc leftChunk None in
        encode_loop fuel' numChannels left right (i + chunkSize) mp3enc
          (push_nonempty mp3Data mp3buf)
      else (mp3enc, mp3Data)
  end.

(** The encoder object as the function leaves it, and the bytes of the
    [Blob] it returns, from the bytes of the WAV blob. *)
Definition wavBlobToMp3Blob (arrayBuffer : list Z) : result (encoder * list Z) :=
  numChannels ← getUint16 arrayBuffer 22;
  sampleRate ← getUint32 arrayBuffer 24;
  bitsPerSample ← getUint16 arrayBuffer 34;
  let dataOffset := 44%nat in
  samples ← Int16Array arrayBuffer dataOffset;
  let channels := split_channels numChannels samples in
  let left := fst channels in
  let right := snd channels in
  let mp3enc := Mp3Encoder numChannels sampleRate 128 in
  let '(mp3enc, mp3Data) :=
    encode_loop (length left) numChannels left right 0 mp3enc [] in
  let '(mp3enc, end_) := flush mp3enc in
  let mp3Data := push_nonempty mp3Data end_ in
  Ok (mp3enc, concat mp3Data).

(** *** The calls an encoder object receives *)

Inductive call : Type :=
| EncodeBuffer (left : list Z) (right : option (list Z))
| Flush.

Definition perform (enc : encoder) (c : call) : encoder * list Z :=
  match c with
  | EncodeBuffer l r => encodeBuffer enc l r
  | Flush => flush enc
  end.

(** Performing calls in order: the final state and the fragments emitted,
    one per call. *)
Fixpoint run (enc : encoder) (calls : list call) : encoder * list (list Z) :=
  match calls with
  | [] => (enc, [])
  | c :: rest =>
      let '(enc, frag) := perform enc c in
      let '(enc, frags) := run enc rest in
      (enc, frag :: frags)
  end.

End Codec.

(** The [k]-th chunk of [chunkSize] elements of an array, and the number
    of chunks that cover it. *)
Definition chunk_at (arr : list Z) (k : nat) : list Z :=
  take chunkSize (drop (k * chunkSize) arr).

Definition num_chunks (arr : list Z) : nat := (length arr + (chunkSize - 1)) / chunkSize.

(** Every other element of [samples], from index [from] on, [n] of them. *)
Definition every_other (samples : list Z) (from n : nat) : list Z :=
  map (fun j => default 0 (samples !! (2 * j + from)%nat)) (seq 0 n).

(** The calls the specification asks for: one [EncodeBuffer] per chunk, in
    order (with the right channel in the stereo call only), then one
    [Flush]. *)
Definition chunk_calls (numChannels : Z) (left right : list Z) : list call :=
  map (fun k => EncodeBuffer (chunk_at left k)
                  (if numChannels =? 2 then Some (chunk_at right k) else None))
      (seq 0 (num_chunks left)).

Definition expected_calls (numChannels : Z) (left right : list Z) : list call :=
  chunk_calls numChannels left right ++ [Flush].

(** An encoder that only records the calls it receives. *)
Definition recorder : Type := list call.
Definition recorder_new (channels sampleRate kbps : Z) : recorder := [].
Definition recorder_encodeBuffer (log : recorder) (l : list Z) (r : option (list Z))
  : recorder * list Z := (log ++ [EncodeBuffer l r], []).
Definition recorder_flush (log : recorder) : recorder * list Z := (log ++ [Flush], []).


(** The fragments that end up in the blob: the non-empty ones. *)
Definition nonempty_fragments (frags : list (list Z)) : list (list Z) :=
  List.filter (fun f => (0 <? length f)%nat) frags.

(** The WAV blobs [wavBlobToMp3Blob] can read: a 44-byte header followed
    by whole 16-bit samples. *)
Definition readable_wav (arrayBuffer : list Z) : Prop :=
  (44 <= length arrayBuffer)%nat /\ Nat.even (length arrayBuffer - 44) = true.

(** A stereo WAV blob of two frames: (1, 2) and (3, -1). *)
Definition example_wav : list Z :=
  replicate 22 0 ++ [2; 0] ++ replicate 20 0 ++ [1; 0; 2; 0; 3; 0; 255; 255].

End Mp3.

(** ** The pattern editor of [TrackerVisualizer]: editing and cursor *)

Module Editor.
Import Render.



(** *** [editCell]

    The pattern in the editor's state.  A cell is an object whose
    properties may be missing: [{ ...undefined }] is [{}]. *)
Record jcell : Type := {
  jnote : option string;
  jinstr : option string;
  jvol : option string
}.

(** Channels of rows; [None] is an [undefined] element or a hole. *)
Definition jpattern : Type := list (list (option jcell)).

Definition of_cell (c : cell) : jcell :=
  {| jnote := Some (note c); jinstr := Some (instr c); jvol := Some (vol c) |}.

(** A pattern of complete cells, as [makePattern] builds it, in the
    editor's state. *)
Definition of_pattern (p : pattern) : jpattern := map (map (option_map of_cell)) p.

(** [const options = ['C-4', 'D-4', 'E-4', 'F-4', 'G-4', '--']] *)
Definition options : list string := ["C-4"; "D-4"; "E-4"; "F-4"; "G-4"; "--"].

(** [xs.indexOf(x)], counting from [i]: the first position of [x], or -1.
    [x] is a string or [undefined], which equals no string. *)
Fixpoint indexOf_from (xs : list string) (x : option string) (i : Z) : Z :=
  match xs with
  | [] => -1
  | y :: ys =>
      match x with
      | Some s => if String.eqb y s then i else indexOf_from ys x (i + 1)
      | None => indexOf_from ys x (i + 1)
      end
  end.

Definition indexOf (xs : list string) (x : option string) : Z := indexOf_from xs x 0.

(** [options.indexOf(cell.note) >= 0
      ? (options.indexOf(cell.note) + 1) % options.length : 0] *)
Definition idx (n : option string) : Z :=
  if 0 <=? indexOf options n
  then JS.rem (indexOf options n + 1) (Z.of_nat (length options))
  else 0.

(** [arr[i] = v]: inside the array the element is replaced; beyond its end
    the array grows, the elements in between being holes. *)
Definition array_set {A : Type} (arr : list (option A)) (i : nat) (v : A)
  : list (option A) :=
  if (i <? length arr)%nat then <[i := Some v]> arr
  else arr ++ replicate (i - length arr) None ++ [Some v].

(** [editCell(chan, row)] on the current [pattern]; the result is the
    argument of [setPattern].  [newPattern] is a copy, so the old pattern
    is untouched.  [newPattern[chan][row]] throws a [TypeError] when
    [newPattern[chan]] is [undefined]. *)
Definition editCell (pattern : jpattern) (chan row : nat) : result jpattern :=
  match pattern !! chan with
  | None => Throw TypeError
  | Some c =>
      let cell :=
        match c !! row with
        | Some (Some old) => old
        | _ => {| jnote := None; jinstr := None; jvol := None |}
        end in
      let cell' := {| jnote := JS.index options (idx (jnote cell));
                      jinstr := jinstr cell;
                      jvol := jvol cell |} in
      Ok (<[chan := array_set c row cell']> pattern)
  end.

(** The note [editCell] writes into a cell whose note was [n]. *)
Definition next_note (n : string) : string :=
  default "C-4"%string (JS.index options (idx (Some n))).

(** A complete cell with its note replaced. *)
Definition with_note (n : string) (c : cell) : cell :=
  {| note := n; instr := instr c; vol := vol c |}.

(** *** Cursor *)

Record cursor : Type := {
  cursorRow : Z;
  selectedChan : Z;
  playing : bool
}.

(** [useState(0)], [useState(0)], [useState(false)] *)
Definition initial : cursor :=
  {| cursorRow := 0; selectedChan := 0; playing := false |}.

(** [e.key], as far as [onKey] distinguishes it. *)
Inductive key : Type :=
| Space | ArrowDown | ArrowUp | ArrowRight | ArrowLeft | OtherKey.

Definition onKey (k : key) (s : cursor) : cursor :=
  match k with
  | Space =>
      {| cursorRow := cursorRow s; selectedChan := selectedChan s;
         playing := negb (playing s) |}
  | ArrowDown =>
      {| cursorRow := Z.min (Z.of_nat ROWS - 1) (cursorRow s + 1);
         selectedChan := selectedChan s; playing := playing s |}
  | ArrowUp =>
      {| cursorRow := Z.max 0 (cursorRow s - 1);
         selectedChan := selectedChan s; playing := playing s |}
  | ArrowRight =>
      {| cursorRow := cursorRow s;
         selectedChan := Z.min (Z.of_nat CHANNELS - 1) (selectedChan s + 1);
         playing := playing s |}
  | ArrowLeft =>
      {| cursorRow := cursorRow s;
         selectedChan := Z.max 0 (selectedChan s - 1);
         playing := playing s |}
  | OtherKey => s
  end.

(** A frame of [tick] on which [elapsed >= tempoMs]:
    [setCursorRow(r => (r + 1) % ROWS)].  Frames are requested only while
    [playing]. *)
Definition tick (s : cursor) : cursor :=
  if playing s
  then {| cursorRow := JS.rem (cursorRow s + 1) (Z.of_nat ROWS);
          selectedChan := selectedChan s; playing := playing s |}
  else s.

(** What changes the cursor state: a key, a due frame, a click on the
    PLAY/STOP button, and a click on one of the four instrument boxes
    ([setSelectedChan(i)] for the [i] of [Array.from({ length: 4 })]). *)
Inductive event : Type :=
| KeyDown (k : key)
| Tick
| ClickPlay
| ClickInst (i : nat).

Definition handle (s : cursor) (e : event) : cursor :=
  match e with
  | KeyDown k => onKey k s
  | Tick => tick s
  | ClickPlay => onKey Space s
  | ClickInst i =>
      if (i <? 4)%nat
      then {| cursorRow := cursorRow s; selectedChan := Z.of_nat i;
              playing := playing s |}
      else s
  end.

(** The state after a sequence of events, oldest first. *)
Definition after (events : list event) : cursor := fold_left handle events initial.

(** [Math.round] *)
Definition jround (a : jsnum) : jsnum :=
  match a with
  | Fin x => Fin (inject_Z (Qfloor (x + (1 # 2))))
  | _ => a
  end.

End Editor.

(** ** [AsciiCircleVisualizer] *)

Module AsciiCircleVisualizer.
Import Render.

(** The table of faces, as UTF-8 byte strings. *)
Definition asciiFaces : list string :=
  [
   "(·‿·)"; "(・‿・)"; "(-‿-)"; "(￣‿￣)"; "(^‿^)";
   "(^‿-)"; "(o‿o)"; "(◕‿◕)"; "(＾‿＾)"; "(＾▽＾)";
   "(•‿•)"; "(¬‿¬)"; "(^▽^)"; "(・▽・)"; "(>‿<)";
   "(⊙‿⊙)"; "(°‿°)"; "(ʘ‿ʘ)"; "(⊙ᴗ⊙)"; "(☆‿☆)";
   "(°o°)"; "(⊙o⊙)"; "(☉_☉)"; "(⊙_☉)"; "(◎_◎;)";
   "(°□°)"; "(ᵔoᵔ)"; "(◉_◉;)"; "(⊙﹏⊙)"; "(ʘoʘ)";
   "(╯°□°）╯"; "(╮°-°)╭"; "(งಠ_ಠ)ง"; "(ง •̀_•́)ง"; "(ಠ‿ಠ)";
   "(ಠ⌣ಠ)"; "(ಥ‿ಥ)"; "(ಥ﹏ಥ)"; "(ಥ_ʖಥ)"; "(☠‿☠)";
   "(ノಠ益ಠ)ノ"; "(ノಠ益ಠ)ノ彡┻━┻"; "(>_<)"; "(≧▽≦)"; "(≧︿≦)";
   "(>﹏<)"; "(⌐■_■)"; "(ಠ益ಠ)"; "(ಠ╭╮ಠ)"; "(ノ｀Д´)ノ";
   "(⊂◉‿◉⊃)"; "(☯‿☯)"; "(☉‿☉✿)"; "(ノ◕ヮ◕)ノ*:･ﾟ✧"; "(ノ◕‿◕)ノ";
   "(✧◡✧)"; "(☆▽☆)"; "(⌒‿⌒)"; "(◕‿◕✿)"; "¯\(°_o)/¯"
  ]%string.

(** [data.reduce((a, b) => a + b, 0)] *)
Definition sum (data : list Z) : Z := fold_left Z.add data 0.

(** [data.reduce((a, b) => a + b, 0) / data.length] *)
Definition avg (data : list Z) : jsnum :=
  jdiv (Fin (inject_Z (sum data))) (Fin (inject_Z (Z.of_nat (length data)))).

(** [Math.floor] *)
Definition jfloor (a : jsnum) : jsnum :=
  match a with
  | Fin x => Fin (inject_Z (Qfloor x))
  | _ => a
  end.

(** [smooth = smooth * 0.8 + avg * 0.2] *)
Definition smooth_next (smooth : jsnum) (data : list Z) : jsnum :=
  jadd (jmul smooth (Fin 0.8)) (jmul (avg data) (Fin 0.2)).

(** [Math.min(asciiFaces.length - 1,
              Math.floor((smooth / 255) * asciiFaces.length))] *)
Definition level (smooth : jsnum) : jsnum :=
  let n := inject_Z (Z.of_nat (length asciiFaces)) in
  jmin (Fin (n - 1)) (jfloor (jmul (jdiv smooth (Fin 255)) (Fin n))).

(** [asciiFaces[level]]: [undefined] unless [level] is an index of the table. *)
Definition face (level : jsnum) : option string :=
  match level with
  | Fin q => if Qeq_bool (inject_Z (Qfloor q)) q then JS.index asciiFaces (Qfloor q) else None
  | _ => None
  end.

(** The faces [loop] sets over successive frames, [data] being the
    analyser's byte spectrum on each and [smooth] the running average. *)
Fixpoint loop (smooth : jsnum) (frames : list (list Z)) : list (option string) :=
  match frames with
  | [] => []
  | data :: rest =>
      let smooth' := smooth_next smooth data in
      face (level smooth') :: loop smooth' rest
  end.

End AsciiCircleVisualizer.


(** ** [PatternGridVisualizer] *)

Module PatternGridVisualizer.
Import PitchMapper.

Definition CHANNELS : nat := 8.
Definition ROWS : nat := 64.

(** [data.slice(start, end)] for [0 <= start <= end]. *)
Definition slice (data : list Z) (start end_ : nat) : list Z :=
  take (end_ - start) (drop start data).

(** [slice.forEach((v, i) => { if (v > peakVal) { peakVal = v; peakIdx = i; } })]
    from index [i] on, [peak] being [(peakIdx, peakVal)]. *)
Fixpoint forEach_peak (slice : list Z) (i : nat) (peak : nat * Z) : nat * Z :=
  match slice with
  | [] => peak
  | v :: rest => forEach_peak rest (S i) (if snd peak <? v then (i, v) else peak)
  end.

(** [let peakIdx = 0; let peakVal = 0;] and the loop. *)
Definition peak (slice : list Z) : nat * Z := forEach_peak slice 0 (0%nat, 0).

(** [Math.floor(data.length / CHANNELS)] *)
Definition bandsPerChan (data : list Z) : nat := (length data / CHANNELS)%nat.

(** [peakIdx * (audioCtx.sampleRate / analyser.fftSize)]; the host keeps
    [fftSize] a power of two from 32 to 32768. *)
Definition binFreq (peakIdx : nat) (sampleRate fftSize : Q) : Q :=
  (inject_Z (Z.of_nat peakIdx) * (sampleRate / fftSize))%Q.

(** The note pushed for channel [c]:
    [peakVal < 10 ? "--" : freqToNoteName(binFreq)].  ([smoothFreqs] is
    updated by the loop but never read.) *)
Definition note (data : list Z) (sampleRate fftSize : Q) (c : nat) : string :=
  let s := slice data (c * bandsPerChan data) ((c + 1) * bandsPerChan data) in
  if snd (peak s) <? 10 then "--"%string
  else freqToNoteName (JNum (binFreq (fst (peak s)) sampleRate fftSize)).

Definition newRow (data : list Z) (sampleRate fftSize : Q) : list string :=
  map (note data sampleRate fftSize) (seq 0 CHANNELS).

(** One frame of [loop] on the grid: [newGrid[cursor] = newRow;
    cursor = (cursor + 1) % ROWS].  The grid has [ROWS] rows, so the
    assignment stays inside it. *)
Definition loop {row : Type} (state : list row * nat) (newRow : row) : list row * nat :=
  (<[snd state := newRow]> (fst state), (snd state + 1) mod ROWS)%nat.

(** The grid and cursor after the rows of successive frames, starting
    from a grid of [ROWS] placeholder rows and [cursor = 0]. *)
Definition frames {row : Type} (placeholder : row) (rows : list row) : list row * nat :=
  fold_left loop rows (replicate ROWS placeholder, 0%nat).

End PatternGridVisualizer.


(** ** [HexConsoleVisualizer] *)

From Stdlib Require HexadecimalString.

Module HexConsoleVisualizer.
Import Render Analyzer.

(** A string with characters outside ASCII, as its UTF-16 code units. *)
Definition ustring : Type := list Z.

Definition units (s : string) : ustring :=
  map (fun c => Z.of_N (N_of_ascii c)) (list_ascii_of_string s).

(** [s.repeat(count)]: the count is converted to an integer ([NaN] to 0);
    a negative or infinite count is a [RangeError]. *)
Definition repeat_ (s : ustring) (count : jsnum) : result ustring :=
  match count with
  | NaN => Ok []
  | Fin q =>
      if JS.trunc q <? 0 then Throw RangeError
      else Ok (concat (replicate (Z.to_nat (JS.trunc q)) s))
  | _ => Throw RangeError
  end.

(** [s.toUpperCase()] on an ASCII string. *)
Definition toUpperCase (s : string) : string :=
  string_of_list_ascii
    (map (fun c => let n := N_of_ascii c in
                   if ((97 <=? n) && (n <=? 122))%N then ascii_of_N (n - 32) else c)
         (list_ascii_of_string s)).

(** [n.toString(16)] for an integer [n]. *)
Definition toString16 (n : Z) : string :=
  HexadecimalString.NilZero.string_of_int (Z.to_hex_int n).

(** [s.padStart(2, "0")] *)
Definition padStart2 (s : string) : string :=
  (string_of_list_ascii (replicate (2 - String.length s) "0"%char) ++ s)%string.

(** [level.toString(16).toUpperCase().padStart(2, "0")] *)
Definition hex (level : Z) : string := padStart2 (toUpperCase (toString16 level)).

(** ["█".repeat(Math.floor(level / 3)) + " ".repeat(5 - Math.floor(level / 3))] *)
Definition bar (level : Z) : result ustring :=
  blocks ← repeat_ [9608] (Fin (inject_Z (level / 3)));
  spaces ← repeat_ [32] (Fin (inject_Z (5 - level / 3)));
  Ok (blocks ++ spaces).

(** [`[${b.name}] ${hex} ${bar}`] for one band. *)
Definition bandLine (dataArray : list Z) (b : band) : result ustring :=
  let val := energy dataArray (range b) in
  let level := level val in
  bar ← bar level;
  Ok (units ("[" ++ name b ++ "] " ++ hex level ++ " ")%string ++ bar).

(** [bands.map(b => ...)]; the first band that throws ends the frame. *)
Definition bandData (dataArray : list Z) : result (list ustring) :=
  mapM (bandLine dataArray) bands.

(** [Math.round(dataArray.reduce((a, b) => a + b, 0) / dataArray.length)] *)
Definition avgVolume (dataArray : list Z) : jsnum :=
  Editor.jround (AsciiCircleVisualizer.avg dataArray).

(** [s.padEnd(8, "·")] *)
Definition padEnd8 (s : ustring) : ustring := s ++ replicate (8 - length s) 183.

(** ["■".repeat(Math.floor((avgVolume / 255) * 8)).padEnd(8, "·")] *)
Definition volumeMeter (dataArray : list Z) : result ustring :=
  squares ← repeat_ [9632]
    (AsciiCircleVisualizer.jfloor (jmul (jdiv (avgVolume dataArray) (Fin 255)) (Fin 8)));
  Ok (padEnd8 squares).

(** [setLines(prev => { const next = [...prev, newLine]; return next.slice(-80); })] *)
Definition setLines {line : Type} (prev : list line) (newLine : line) : list line :=
  let next := prev ++ [newLine] in
  drop (length next - 80) next.

End HexConsoleVisualizer.


(** ** [freqToNoteName] in double arithmetic

    [freqToNoteName] as an engine runs it: every operation is the one on
    doubles, and [Math.log2] is the engine's own, which ECMAScript leaves
    implementation-approximated.  ([PitchMapper] above takes the
    logarithm exactly.) *)

Module DoublePitchMapper.
Import PitchMapper Render.

(** [a % b]: the remainder of the division truncated toward zero, exact
    on doubles; [NaN] for a zero divisor or a non-finite dividend. *)
Definition jrem (a b : jsnum) : jsnum :=
  match a, b with
  | Fin x, Fin y =>
      if Qeq_bool y 0 then NaN else Fin (x - y * inject_Z (JS.trunc (x / y)))
  | Fin x, (PInf | NInf) => Fin x
  | _, _ => NaN
  end.

(** [arr[i]] for a number [i]: only a non-negative integer below the
    length names an element; any other number yields [undefined]. *)
Definition jindex {A} (arr : list A) (i : jsnum) : option A :=
  match i with
  | Fin q => if Qeq_bool q (inject_Z (Qfloor q)) then JS.index arr (Qfloor q) else None
  | _ => None
  end.

(** [a - b] *)
Definition dsub (a b : jsnum) : jsnum :=
  match a, b with
  | Fin x, Fin y => binary64 (x - y)
  | _, Fin _ => a
  | Fin _, PInf => NInf
  | Fin _, NInf => PInf
  | PInf, NInf => PInf
  | NInf, PInf => NInf
  | _, _ => NaN
  end.

(** [`${n}`] for a number that is an integer or not finite; an integer
    is printed with all its digits (as the engine does below [10^21]). *)
Definition number_to_string (n : jsnum) : string :=
  match n with
  | Fin q => JS.string_of_Z (Qfloor q)
  | PInf => "Infinity"
  | NInf => "-Infinity"
  | NaN => "NaN"
  end.

Section Engine.

(** The engine's [Math.log2]. *)
Variable log2 : jsnum -> jsnum.

Definition semitones (f : Q) : jsnum :=
  Editor.jround (dmul (Fin 12) (log2 (ddiv (Fin f) (Fin A4)))).
Definition midi (f : Q) : jsnum := dadd (Fin 69) (semitones f).
Definition note (f : Q) : option string := jindex NOTE_NAMES (jrem (midi f) (Fin 12)).
Definition octave (f : Q) : jsnum :=
  dsub (AsciiCircleVisualizer.jfloor (ddiv (midi f) (Fin 12))) (Fin 1).

Definition freqToNoteName (freq : jsval) : string :=
  match freq with
  | JNum f =>
      if no_freq freq then "--"
      else JS.template (note f) +:+ number_to_string (octave f)
  | _ => "--"
  end.

End Engine.

(** A [Math.log2] that is exact where the logarithm is an integer, and
    rounds down elsewhere: an engine function to run the definitions on
    powers of two. *)
Definition log2_floor (x : jsnum) : jsnum :=
  match x with
  | Fin q =>
      if Qeq_bool q 0 then NInf
      else if Qle_bool q 0 then NaN
      else Fin (inject_Z (floor_log2_frac (Qnum q) (Zpos (Qden q))))
  | PInf => PInf
  | _ => NaN
  end.

End DoublePitchMapper.


(** ** The spectrum canvas: [startVisualizer] *)

Module Spectrum.
Import Render.

(** [Math.floor((value / 255) * rows)]; [None] is the [NaN] an
    [undefined] value gives.  ([rows] is a count of text rows, far below
    the range of the doubles, where the product is finite.) *)
Definition barHeight (value : option Z) (rows : Z) : option Z :=
  v ← value;
  match dmul (ddiv (Fin (inject_Z v)) (Fin 255)) (Fin (inject_Z rows)) with
  | Fin h => Some (Qfloor h)
  | _ => None
  end.

(** [y > rows - barHeight ? (y === rows - barHeight + 1 ? "@" : "#") : " "];
    a comparison with [NaN] is false. *)
Definition char (rows : Z) (barHeight : option Z) (y : Z) : ascii :=
  match barHeight with
  | None => " "%char
  | Some h =>
      if rows - h <? y then (if y =? rows - h + 1 then "@"%char else "#"%char)
      else " "%char
  end.

(** The characters of one column, from the top row [y = 0] down. *)
Definition column (rows : Z) (value : option Z) : list ascii :=
  map (fun y => char rows (barHeight value rows) (Z.of_nat y)) (seq 0 (Z.to_nat rows)).

(** [Math.floor(bufferLength / cols)], for the [cols > 0] with which the
    column loop runs at all. *)
Definition step (bufferLength cols : Z) : Z := bufferLength / cols.

(** [dataArray[x * step]] *)
Definition value (dataArray : list Z) (cols : Z) (x : nat) : option Z :=
  JS.index dataArray (Z.of_nat x * step (Z.of_nat (length dataArray)) cols).

(** One call of [draw]: the columns [x = 0 .. cols - 1]. *)
Definition draw (dataArray : list Z) (cols rows : Z) : list (list ascii) :=
  map (fun x => column rows (value dataArray cols x)) (seq 0 (Z.to_nat cols)).

End Spectrum.


(** ** [AudioLengthVisualizer] *)

Module AudioLengthVisualizer.

(** [a % b] on finite numbers, [b] not zero: the remainder of the
    division truncated toward zero. *)
Definition fmod (a b : Q) : Q := (a - b * inject_Z (JS.trunc (a / b)))%Q.

(** [formatTime(s)] for a finite [s]:
    [`${Math.floor(s / 60)}:${Math.floor(s % 60).toString().padStart(2, "0")}`];
    the quotient is rounded as a double, the remainder is exact. *)
Definition formatTime (s : Q) : string :=
  (DoublePitchMapper.number_to_string
     (AsciiCircleVisualizer.jfloor (Render.ddiv (Render.Fin s) (Render.Fin 60))) ++ ":" ++
   HexConsoleVisualizer.padStart2 (JS.string_of_Z (Qfloor (fmod s 60))))%string.

End AudioLengthVisualizer.


(** ** Example buffers *)

Module Examples.

(** A mono buffer of three frames at 8 kHz, with both full-scale samples. *)
Definition mono_example : AudioBuffer :=
  {| numberOfChannels := 1; buffer_length := 3; sampleRate := 8000;
     channelData := [[1%Q; (-1)%Q; 0.5%Q]] |}.

End Examples.


(** * Properties *)

(** ** Facts: PitchMapperFacts *)

Module PitchMapperFacts.
Import PitchMapper.

Lemma Qpow2_pos (m : Z) : (0 < 2 ^ m)%Q.
Proof. apply Qpower_0_lt. reflexivity. Qed.

Lemma Qpow2_mono (m n : Z) : m <= n -> (2 ^ m <= 2 ^ n)%Q.
Proof. intros H. apply Qpower_le_compat_l; [exact H | discriminate]. Qed.

Lemma Qpow2_plus (m n : Z) : (2 ^ (m + n) == 2 ^ m * 2 ^ n)%Q.
Proof. apply Qpower_plus. discriminate. Qed.

Lemma Qpow2_inject (n : Z) : 0 <= n -> (inject_Z (2 ^ n) == 2 ^ n)%Q.
Proof. intros H. rewrite Zpower_Qpower by exact H. reflexivity. Qed.

(** [pow2_le] decides [2^m * b <= a] over the rationals. *)
Lemma pow2_le_Q (m a b : Z) :
  pow2_le m a b = true <-> (2 ^ m * inject_Z b <= inject_Z a)%Q.
Proof.
  unfold pow2_le. destruct (Z.leb_spec 0 m) as [Hm | Hm].
  - rewrite Z.leb_le, (Zle_Qle (b * 2 ^ m) a), inject_Z_mult, Qpow2_inject by exact Hm.
    rewrite (Qmult_comm (inject_Z b)). reflexivity.
  - rewrite Z.leb_le, (Zle_Qle b (a * 2 ^ (- m))), inject_Z_mult, Qpow2_inject by lia.
    assert (E : (2 ^ m * 2 ^ (- m) == 1)%Q).
    { rewrite <- Qpow2_plus. replace (m + - m) with 0 by lia. reflexivity. }
    pose proof (Qpow2_pos m) as Hp. pose proof (Qpow2_pos (- m)) as Hn.
    split; intros H.
    + apply (Qmult_le_l _ _ (2 ^ m)%Q Hp) in H.
      setoid_replace (2 ^ m * (inject_Z a * 2 ^ (- m)))%Q
        with (inject_Z a * (2 ^ m * 2 ^ (- m)))%Q using relation Qeq in H by ring.
      rewrite E, Qmult_1_r in H. exact H.
    + apply (Qmult_le_l _ _ (2 ^ (- m))%Q Hn) in H.
      setoid_replace (2 ^ (- m) * (2 ^ m * inject_Z b))%Q
        with ((2 ^ m * 2 ^ (- m)) * inject_Z b)%Q using relation Qeq in H by ring.
      rewrite E, Qmult_1_l, Qmult_comm in H. exact H.
Qed.

Lemma floor_log2_frac_spec (a b : Z) :
  0 < a -> 0 < b ->
  pow2_le (floor_log2_frac a b) a b = true /\
  pow2_le (floor_log2_frac a b + 1) a b = false.
Proof.
  intros Ha Hb. unfold floor_log2_frac.
  pose proof (Z.log2_spec a Ha) as [La Ua].
  pose proof (Z.log2_spec b Hb) as [Lb Ub].
  pose proof (Z.log2_nonneg a) as Na. pose proof (Z.log2_nonneg b) as Nb.
  set (la := Z.log2 a) in *. set (lb := Z.log2 b) in *.
  rewrite Zle_Qle in La, Lb. rewrite Zlt_Qlt in Ua, Ub.
  rewrite Qpow2_inject in La, Lb, Ua, Ub by lia.
  assert (Hlow : pow2_le (la - lb - 1) a b = true).
  { apply pow2_le_Q.
    apply Qle_trans with (2 ^ la)%Q; [| exact La].
    replace la with ((la - lb - 1) + Z.succ lb) at 2 by lia.
    rewrite Qpow2_plus. apply Qmult_le_l; [apply Qpow2_pos |].
    apply Qlt_le_weak. exact Ub. }
  assert (Hhigh : pow2_le (la - lb + 1) a b = false).
  { apply not_true_is_false. intros H. apply pow2_le_Q in H.
    apply (Qlt_irrefl (inject_Z a)).
    apply Qlt_le_trans with (2 ^ Z.succ la)%Q; [exact Ua |].
    apply Qle_trans with (2 ^ (la - lb + 1) * inject_Z b)%Q; [| exact H].
    replace (Z.succ la) with ((la - lb + 1) + lb) by lia.
    rewrite Qpow2_plus. apply Qmult_le_l; [apply Qpow2_pos | exact Lb]. }
  destruct (pow2_le (la - lb) a b) eqn:E.
  - split; [exact E | exact Hhigh].
  - split; [exact Hlow |]. replace (la - lb - 1 + 1) with (la - lb) by lia. exact E.
Qed.

Lemma pow2_le_anti (m n a b : Z) :
  0 < b -> m <= n -> pow2_le n a b = true -> pow2_le m a b = true.
Proof.
  intros Hb Hmn H. apply pow2_le_Q in H. apply pow2_le_Q.
  apply Qle_trans with (2 ^ n * inject_Z b)%Q; [| exact H].
  apply Qmult_le_compat_r; [apply Qpow2_mono; exact Hmn |].
  change 0%Q with (inject_Z 0). rewrite <- Zle_Qle. lia.
Qed.

(** The 24th power of a positive rational, as numerator over denominator. *)
Lemma pow2_le_power24 (m : Z) (q : Q) :
  pow2_le m (Qnum q ^ 24) (Zpos (Qden q) ^ 24) = true <-> (2 ^ m <= q ^ 24)%Q.
Proof.
  rewrite pow2_le_Q. destruct q as [a b]. cbn [Qnum Qden].
  rewrite (Qpower_decomp_pos 24 a b).
  assert (Hb : (0 < inject_Z (Z.pos b ^ 24))%Q).
  { change 0%Q with (inject_Z 0). rewrite <- Zlt_Qlt. apply Z.pow_pos_nonneg; lia. }
  assert (E : (a ^ 24 # b ^ 24 == inject_Z (a ^ 24) / inject_Z (Z.pos b ^ 24))%Q).
  { rewrite (Qmake_Qdiv (a ^ 24) (b ^ 24)). rewrite Pos2Z.inj_pow. reflexivity. }
  rewrite E. split; intros H.
  - apply Qle_shift_div_l; [exact Hb | exact H].
  - apply (Qmult_le_r _ _ _ Hb) in H.
    apply Qle_trans with (1 := H). 
    apply Qle_lteq. right. field. intros C. rewrite C in Hb. discriminate.
Qed.

(** [round_12log2 q] is the integer [s] with
    [s - 1/2 <= 12 * log2 q < s + 1/2], that is
    [2^(2s-1) <= q^24 < 2^(2s+1)]: the value of
    [Math.round(12 * Math.log2(q))] in exact arithmetic. *)
Lemma round_12log2_spec (q : Q) :
  (0 < q)%Q ->
  (2 ^ (2 * round_12log2 q - 1) <= q ^ 24)%Q /\
  (q ^ 24 < 2 ^ (2 * round_12log2 q + 1))%Q.
Proof.
  intros Hq. unfold round_12log2.
  set (A := Qnum q ^ 24). set (B := Z.pos (Qden q) ^ 24).
  assert (HA : 0 < A).
  { apply Z.pow_pos_nonneg; [| lia]. destruct q as [a b]. unfold Qlt in Hq. cbn in *. lia. }
  assert (HB : 0 < B) by (apply Z.pow_pos_nonneg; lia).
  destruct (floor_log2_frac_spec A B HA HB) as [Hlo Hhi].
  set (m := floor_log2_frac A B) in *.
  pose proof (Z.div_mod (m + 1) 2 ltac:(lia)) as Hdm.
  pose proof (Z.mod_pos_bound (m + 1) 2 ltac:(lia)) as Hmod.
  set (s := (m + 1) / 2) in *.
  split.
  - apply pow2_le_power24. fold A B.
    apply (pow2_le_anti (2 * s - 1) m A B HB); [lia | exact Hlo].
  - apply Qnot_le_lt. intros H. apply pow2_le_power24 in H. fold A B in H.
    apply (pow2_le_anti (m + 1) (2 * s + 1) A B HB) in H; [| lia].
    rewrite H in Hhi. discriminate.
Qed.

Lemma round_12log2_unique (q : Q) (s : Z) :
  (0 < q)%Q ->
  (2 ^ (2 * s - 1) <= q ^ 24)%Q -> (q ^ 24 < 2 ^ (2 * s + 1))%Q ->
  s = round_12log2 q.
Proof.
  intros Hq Hlo Hhi. destruct (round_12log2_spec q Hq) as [Hlo' Hhi'].
  assert (H1 : 2 * s - 1 < 2 * round_12log2 q + 1).
  { apply (Qpower_lt_compat_l_inv 2); [| reflexivity].
    apply Qle_lt_trans with (q ^ 24)%Q; assumption. }
  assert (H2 : 2 * round_12log2 q - 1 < 2 * s + 1).
  { apply (Qpower_lt_compat_l_inv 2); [| reflexivity].
    apply Qle_lt_trans with (q ^ 24)%Q; assumption. }
  lia.
Qed.

Lemma A4_ratio_pos (f : Q) : (0 < f)%Q -> (0 < f / A4)%Q.
Proof.
  intros H. unfold Qdiv. apply Qmult_lt_0_compat; [exact H | reflexivity].
Qed.

Lemma no_freq_positive (f : Q) : (0 < f)%Q -> no_freq (JNum f) = false.
Proof.
  intros H. cbn. apply not_true_is_false. intros C.
  apply Qle_bool_iff in C. apply (Qlt_irrefl 0). eapply Qlt_le_trans; eassumption.
Qed.


Lemma index_negative {A} (arr : list A) (i : Z) : i < 0 -> JS.index arr i = None.
Proof. intros H. unfold JS.index. destruct (Z.ltb_spec i 0); [reflexivity | lia]. Qed.



(** Claim C7.  [freqToNoteName 440 = "A4"], [freqToNoteName 880 = "A5"],
    and every undefined, [NaN] or non-positive frequency (0 included)
    yields the sentinel ["--"]. *)
Theorem freqToNoteName_reference_notes :
  freqToNoteName (JNum 440) = "A4"%string /\
  freqToNoteName (JNum 880) = "A5"%string /\
  freqToNoteName (JNum 0) = "--"%string /\
  forall freq : jsval,
    (freq = JUndefined \/ freq = JNaN \/ exists q, freq = JNum q /\ (q <= 0)%Q) ->
    freqToNoteName freq = "--"%string.
Proof.
  split; [vm_compute; reflexivity |].
  split; [vm_compute; reflexivity |].
  split; [vm_compute; reflexivity |].
  intros freq [-> | [-> | (q & -> & Hq)]]; try reflexivity.
  unfold freqToNoteName, no_freq.
  apply Qle_bool_iff in Hq. rewrite Hq. reflexivity.
Qed.

Lemma note_name_first_char (n : string) (z : Z) :
  n ∈ NOTE_NAMES -> exists c s, (n +:+ JS.string_of_Z z)%string = String c s /\ c <> "u"%char.
Proof.
  intros H. unfold NOTE_NAMES in H.
  repeat (apply elem_of_cons in H as [-> | H];
          [eexists _, _; split; [reflexivity | discriminate] |]).
  inversion H.
Qed.

Lemma rem_negative (m : Z) : m < 0 -> JS.rem m 12 <> 0 -> JS.rem m 12 < 0.
Proof.
  unfold JS.rem. intros Hneg Hrem.
  pose proof (Z.rem_nonpos m 12 ltac:(lia) ltac:(lia)). lia.
Qed.

Lemma freqToNoteName_unfold (f : Q) :
  no_freq (JNum f) = false ->
  freqToNoteName (JNum f) = (JS.template (note f) +:+ JS.string_of_Z (octave f))%string.
Proof. intros H. unfold freqToNoteName. rewrite H. reflexivity. Qed.

Lemma note_undefined (f : Q) :
  JS.rem (midi f) 12 < 0 -> note f = None.
Proof. intros H. unfold note. apply index_negative. exact H. Qed.

(** Claim C9.  Whenever the MIDI number of a positive frequency is
    negative and not a multiple of 12, the table index [midi % 12] is
    negative, the lookup yields [undefined], and the result is
    "undefined" followed by the octave; 5 Hz is such a frequency, with
    result "undefined-2", which is neither the sentinel nor a note name
    followed by an octave. *)
Theorem freqToNoteName_low_frequency :
  (forall f : Q,
     (0 < f)%Q -> midi f < 0 -> JS.rem (midi f) 12 <> 0 ->
     JS.rem (midi f) 12 < 0 /\
     JS.index NOTE_NAMES (JS.rem (midi f) 12) = None /\
     freqToNoteName (JNum f) = ("undefined" +:+ JS.string_of_Z (octave f))%string) /\
  exists f : Q,
    (0 < f)%Q /\ (f < 8)%Q /\
    JS.rem (midi f) 12 < 0 /\
    JS.index NOTE_NAMES (JS.rem (midi f) 12) = None /\
    freqToNoteName (JNum f) = "undefined-2"%string /\
    freqToNoteName (JNum f) <> "--"%string /\
    forall (n : string) (z : Z),
      n ∈ NOTE_NAMES -> freqToNoteName (JNum f) <> (n +:+ JS.string_of_Z z)%string.
Proof.
  split.
  - intros f Hf Hneg Hrem.
    pose proof (rem_negative (midi f) Hneg Hrem) as Hr.
    split; [exact Hr |]. split; [apply index_negative; exact Hr |].
    rewrite (freqToNoteName_unfold f (no_freq_positive f Hf)).
    rewrite (note_undefined f Hr). reflexivity.
  - exists 5%Q.
    do 5 (split; [vm_compute; reflexivity |]).
    split; [vm_compute; discriminate |].
    intros n z Hn. destruct (note_name_first_char n z Hn) as (c & s & -> & Hc).
    replace (freqToNoteName (JNum 5)) with "undefined-2"%string by (vm_compute; reflexivity).
    intros E. injection E as E _. apply Hc. symmetry. exact E.
Qed.

End PitchMapperFacts.

(** ** Facts: DoubleFacts *)

Module DoubleFacts.
Import PitchMapper Render PitchMapperFacts.

(** [floor (log2 a)] of a positive rational. *)
Lemma floor_log2_spec (a : Q) :
  (0 < a)%Q ->
  let m := floor_log2_frac (Qnum a) (Zpos (Qden a)) in
  (2 ^ m <= a)%Q /\ (a < 2 ^ (m + 1))%Q.
Proof.
  intros Ha. destruct a as [n d]. cbn [Qnum Qden].
  assert (Hn : 0 < n) by (unfold Qlt in Ha; cbn in Ha; lia).
  destruct (floor_log2_frac_spec n (Zpos d) Hn eq_refl) as [Hlo Hhi].
  set (m := floor_log2_frac n (Z.pos d)) in *. cbv zeta.
  assert (Hd : (0 < inject_Z (Zpos d))%Q) by reflexivity.
  rewrite (Qmake_Qdiv n d). split.
  - apply pow2_le_Q in Hlo. apply Qle_shift_div_l; [exact Hd | exact Hlo].
  - apply Qnot_le_lt. intros H. apply (Qmult_le_r _ _ _ Hd) in H.
    assert (E : (inject_Z n / inject_Z (Z.pos d) * inject_Z (Z.pos d) == inject_Z n)%Q).
    { field. intros C. rewrite C in Hd. discriminate. }
    rewrite E in H. apply pow2_le_Q in H. rewrite H in Hhi. discriminate.
Qed.

Lemma Qpow2_lt (m n : Z) : m < n -> (2 ^ m < 2 ^ n)%Q.
Proof.
  intros H. replace n with (m + (n - m)) by lia. rewrite Qpow2_plus.
  pose proof (Qpow2_pos m) as Hm.
  assert (H1 : (2 <= 2 ^ (n - m))%Q).
  { change 2%Q with (2 ^ 1)%Q at 1. apply Qpow2_mono. lia. }
  nra.
Qed.

Lemma floor_log2_unique (a : Q) (m : Z) :
  (0 < a)%Q -> (2 ^ m <= a)%Q -> (a < 2 ^ (m + 1))%Q ->
  floor_log2_frac (Qnum a) (Zpos (Qden a)) = m.
Proof.
  intros Ha Hlo Hhi. destruct (floor_log2_spec a Ha) as [Hlo' Hhi'].
  set (k := floor_log2_frac (Qnum a) (Zpos (Qden a))) in *.
  destruct (Z.lt_trichotomy k m) as [H | [H | H]]; [| exact H |]; exfalso.
  - pose proof (Qpow2_mono (k + 1) m ltac:(lia)). lra.
  - pose proof (Qpow2_mono (m + 1) k ltac:(lia)). lra.
Qed.

Lemma floor_log2_comp (a b : Q) :
  (0 < a)%Q -> (a == b)%Q ->
  floor_log2_frac (Qnum a) (Zpos (Qden a)) = floor_log2_frac (Qnum b) (Zpos (Qden b)).
Proof.
  intros Ha E. destruct (floor_log2_spec a Ha) as [Hlo Hhi].
  symmetry. apply floor_log2_unique; rewrite <- ?E; assumption.
Qed.

Lemma floor_log2_mono (a b : Q) :
  (0 < a)%Q -> (a <= b)%Q ->
  floor_log2_frac (Qnum a) (Zpos (Qden a)) <= floor_log2_frac (Qnum b) (Zpos (Qden b)).
Proof.
  intros Ha Hab. assert (Hb : (0 < b)%Q) by lra.
  destruct (floor_log2_spec a Ha) as [Hlo _]. destruct (floor_log2_spec b Hb) as [_ Hhi].
  set (k := floor_log2_frac (Qnum a) (Zpos (Qden a))) in *.
  set (l := floor_log2_frac (Qnum b) (Zpos (Qden b))) in *.
  destruct (Z.le_gt_cases k l) as [H | H]; [exact H | exfalso].
  pose proof (Qpow2_mono (l + 1) k ltac:(lia)). lra.
Qed.

Lemma Qfloor_eq (x : Q) (n : Z) :
  (inject_Z n <= x < inject_Z (n + 1))%Q -> Qfloor x = n.
Proof.
  intros [Hlo Hhi]. pose proof (Qfloor_le x) as H1. pose proof (Qlt_floor x) as H2.
  assert (A : (inject_Z (Qfloor x) < inject_Z (n + 1))%Q) by (eapply Qle_lt_trans; eassumption).
  assert (B : (inject_Z n < inject_Z (Qfloor x + 1))%Q) by (eapply Qle_lt_trans; eassumption).
  rewrite <- Zlt_Qlt in A, B. lia.
Qed.

(** *** Rounding to the nearest integer, ties to even *)

Ltac Qcompare_facts :=
  repeat match goal with
         | H : (_ ?= _)%Q = Eq |- _ => apply Qeq_alt in H
         | H : (_ ?= _)%Q = Lt |- _ => apply Qlt_alt in H
         | H : (_ ?= _)%Q = Gt |- _ => apply Qgt_alt in H
         end.

Lemma round_half_even_bounds (q : Q) :
  Qfloor q <= round_half_even q <= Qfloor q + 1.
Proof.
  unfold round_half_even.
  destruct (q - inject_Z (Qfloor q) ?= 1 # 2)%Q; [destruct (Z.even (Qfloor q)) | |]; lia.
Qed.

Lemma round_half_even_inject (n : Z) : round_half_even (inject_Z n) = n.
Proof.
  unfold round_half_even. rewrite Qfloor_Z.
  replace (inject_Z n - inject_Z n ?= 1 # 2)%Q with Lt; [reflexivity |].
  symmetry. apply (proj1 (Qlt_alt _ _)). unfold Qminus. rewrite Qplus_opp_r. reflexivity.
Qed.

Lemma round_half_even_comp (x y : Q) : (x == y)%Q -> round_half_even x = round_half_even y.
Proof.
  intros E. unfold round_half_even. rewrite (Qfloor_comp x y E).
  assert (E' : (x - inject_Z (Qfloor y) == y - inject_Z (Qfloor y))%Q) by (rewrite E; reflexivity).
  rewrite (Qcompare_comp _ _ E' _ _ (Qeq_refl (1 # 2))). reflexivity.
Qed.

Lemma round_half_even_mono (x y : Q) : (x <= y)%Q -> round_half_even x <= round_half_even y.
Proof.
  intros H. pose proof (Qfloor_resp_le x y H) as Hf.
  destruct (Z.eq_dec (Qfloor x) (Qfloor y)) as [E | NE].
  - unfold round_half_even. rewrite E.
    destruct (x - inject_Z (Qfloor y) ?= 1 # 2)%Q eqn:Cx;
      destruct (y - inject_Z (Qfloor y) ?= 1 # 2)%Q eqn:Cy;
      try (destruct (Z.even (Qfloor y))); try lia; exfalso;
      Qcompare_facts; generalize dependent (inject_Z (Qfloor y)); intros; lra.
  - pose proof (round_half_even_bounds x). pose proof (round_half_even_bounds y). lia.
Qed.

Lemma round_half_even_nonneg (x : Q) : (0 <= x)%Q -> 0 <= round_half_even x.
Proof.
  intros H. rewrite <- (round_half_even_inject 0). apply round_half_even_mono. exact H.
Qed.

(** *** Rounding a magnitude *)

Lemma ulp_exponent_comp (a b : Q) :
  (0 < a)%Q -> (a == b)%Q -> ulp_exponent a = ulp_exponent b.
Proof. intros Ha E. unfold ulp_exponent. rewrite (floor_log2_comp a b Ha E). reflexivity. Qed.

Lemma round_magnitude_comp (a b : Q) :
  (0 < a)%Q -> (a == b)%Q -> (round_magnitude a == round_magnitude b)%Q.
Proof.
  intros Ha E. unfold round_magnitude. rewrite (ulp_exponent_comp a b Ha E).
  rewrite (round_half_even_comp (a / 2 ^ ulp_exponent b) (b / 2 ^ ulp_exponent b)).
  - reflexivity.
  - rewrite E. reflexivity.
Qed.

Lemma round_magnitude_nonneg (a : Q) : (0 <= a)%Q -> (0 <= round_magnitude a)%Q.
Proof.
  intros Ha. unfold round_magnitude. pose proof (Qpow2_pos (ulp_exponent a)) as Hp.
  apply Qmult_le_0_compat; [| lra].
  change 0%Q with (inject_Z 0). rewrite <- Zle_Qle. apply round_half_even_nonneg.
  apply Qle_shift_div_l; [exact Hp | lra].
Qed.

Lemma Qpow2_cancel (e : Z) (x : Q) : (x * 2 ^ e / 2 ^ e == x)%Q.
Proof. pose proof (Qpow2_pos e). field. lra. Qed.

Lemma Qpow2_split (m n : Z) : (2 ^ m == 2 ^ (m - n) * 2 ^ n)%Q.
Proof. rewrite <- Qpow2_plus. replace (m - n + n) with m by lia. reflexivity. Qed.

(** The result is a multiple of [2^ulp_exponent], between the multiples
    around the magnitude. *)
Lemma round_magnitude_le (a : Q) (n : Z) :
  (0 < a)%Q -> (a <= inject_Z n * 2 ^ ulp_exponent a)%Q ->
  (round_magnitude a <= inject_Z n * 2 ^ ulp_exponent a)%Q.
Proof.
  intros Ha H. unfold round_magnitude. pose proof (Qpow2_pos (ulp_exponent a)) as Hp.
  apply Qmult_le_compat_r; [| lra]. rewrite <- Zle_Qle.
  rewrite <- (round_half_even_inject n). apply round_half_even_mono.
  apply Qle_shift_div_r; [exact Hp | exact H].
Qed.

Lemma round_magnitude_ge (a : Q) (n : Z) :
  (0 < a)%Q -> (inject_Z n * 2 ^ ulp_exponent a <= a)%Q ->
  (inject_Z n * 2 ^ ulp_exponent a <= round_magnitude a)%Q.
Proof.
  intros Ha H. unfold round_magnitude. pose proof (Qpow2_pos (ulp_exponent a)) as Hp.
  apply Qmult_le_compat_r; [| lra]. rewrite <- Zle_Qle.
  rewrite <- (round_half_even_inject n). apply round_half_even_mono.
  apply Qle_shift_div_l; [exact Hp | exact H].
Qed.

(** Powers of two from the exponent of the unit on are multiples of it. *)
Lemma Qpow2_multiple (m e : Z) : e <= m -> (2 ^ m == inject_Z (2 ^ (m - e)) * 2 ^ e)%Q.
Proof.
  intros H. rewrite Qpow2_inject by lia. apply Qpow2_split.
Qed.

Lemma round_magnitude_upper (a : Q) :
  (0 < a)%Q ->
  (round_magnitude a <=
   2 ^ (floor_log2_frac (Qnum a) (Zpos (Qden a)) + 1))%Q \/
  (round_magnitude a == 0)%Q.
Proof.
  intros Ha. destruct (floor_log2_spec a Ha) as [_ Hhi]. cbv zeta in Hhi.
  set (f := floor_log2_frac (Qnum a) (Zpos (Qden a))) in *.
  destruct (Z.le_gt_cases (ulp_exponent a) (f + 1)) as [H | H].
  - left. rewrite (Qpow2_multiple (f + 1) (ulp_exponent a) H).
    apply round_magnitude_le; [exact Ha |].
    rewrite <- (Qpow2_multiple (f + 1) (ulp_exponent a) H). lra.
  - right. unfold round_magnitude.
    pose proof (Qpow2_pos (ulp_exponent a)) as Hp.
    assert (Hsmall : (a / 2 ^ ulp_exponent a < 1 # 2)%Q).
    { apply Qlt_shift_div_r; [exact Hp |].
      pose proof (Qpow2_mono (f + 2) (ulp_exponent a) ltac:(lia)) as Hm.
      rewrite (Qpow2_plus (f + 1) 1) in Hm || (replace (f + 2) with (f + 1 + 1) in Hm by lia; rewrite (Qpow2_plus (f + 1) 1) in Hm).
      change (2 ^ 1)%Q with 2%Q in Hm. lra. }
    assert (Hpos : (0 <= a / 2 ^ ulp_exponent a)%Q).
    { apply Qle_shift_div_l; [exact Hp | lra]. }
    assert (E : round_half_even (a / 2 ^ ulp_exponent a) = 0).
    { unfold round_half_even.
      assert (Hfl : Qfloor (a / 2 ^ ulp_exponent a) = 0).
      { apply Qfloor_eq. change (inject_Z 0) with 0%Q. change (inject_Z (0 + 1)) with 1%Q. lra. }
      rewrite Hfl.
      replace (a / 2 ^ ulp_exponent a - inject_Z 0 ?= 1 # 2)%Q with Lt; [reflexivity |].
      symmetry. apply (proj1 (Qlt_alt _ _)). change (inject_Z 0) with 0%Q. lra. }
    rewrite E. change (inject_Z 0) with 0%Q. lra.
Qed.

Lemma Qpow2_lt_inv (m n : Z) : (2 ^ m < 2 ^ n)%Q -> m < n.
Proof.
  intros H. destruct (Z.lt_ge_cases m n) as [L | L]; [exact L | exfalso].
  pose proof (Qpow2_mono n m L). lra.
Qed.

Lemma ulp_exponent_mono (a b : Q) :
  (0 < a)%Q -> (a <= b)%Q -> ulp_exponent a <= ulp_exponent b.
Proof.
  intros Ha Hab. unfold ulp_exponent. pose proof (floor_log2_mono a b Ha Hab). lia.
Qed.

(** Rounding a magnitude is monotone. *)
Lemma round_magnitude_mono (a b : Q) :
  (0 < a)%Q -> (a <= b)%Q -> (round_magnitude a <= round_magnitude b)%Q.
Proof.
  intros Ha Hab. assert (Hb : (0 < b)%Q) by lra.
  pose proof (ulp_exponent_mono a b Ha Hab) as He.
  destruct (Z.eq_dec (ulp_exponent a) (ulp_exponent b)) as [E | NE].
  - unfold round_magnitude. rewrite E. pose proof (Qpow2_pos (ulp_exponent b)) as Hp.
    apply Qmult_le_compat_r; [| lra]. rewrite <- Zle_Qle. apply round_half_even_mono.
    unfold Qdiv. apply Qmult_le_compat_r; [exact Hab |].
    apply Qlt_le_weak, Qinv_lt_0_compat, Hp.
  - pose proof (floor_log2_mono a b Ha Hab) as Hf.
    destruct (floor_log2_spec b Hb) as [Hlo _]. cbv zeta in Hlo.
    set (fa := floor_log2_frac (Qnum a) (Zpos (Qden a))) in *.
    set (fb := floor_log2_frac (Qnum b) (Zpos (Qden b))) in *.
    assert (Eb : ulp_exponent b = fb - 52) by (unfold ulp_exponent in *; fold fa fb in He, NE |- *; lia).
    assert (Hlt : fa + 1 <= fb) by (unfold ulp_exponent in *; fold fa fb in He, NE, Eb; lia).
    assert (Hge : (2 ^ fb <= round_magnitude b)%Q).
    { assert (Em : (2 ^ fb == inject_Z (2 ^ 52) * 2 ^ ulp_exponent b)%Q).
      { rewrite Eb. rewrite (Qpow2_multiple fb (fb - 52)) by lia.
        replace (fb - (fb - 52)) with 52 by lia. reflexivity. }
      rewrite Em. apply round_magnitude_ge; [exact Hb |]. rewrite <- Em. exact Hlo. }
    destruct (round_magnitude_upper a Ha) as [Hup | Hz].
    + fold fa in Hup. pose proof (Qpow2_mono (fa + 1) fb Hlt). lra.
    + pose proof (Qpow2_pos fb). lra.
Qed.

(** A multiple of the unit in the last place is left as it is. *)
Lemma round_magnitude_multiple (a : Q) (n : Z) :
  (0 < a)%Q -> (a == inject_Z n * 2 ^ ulp_exponent a)%Q -> (round_magnitude a == a)%Q.
Proof.
  intros Ha E. apply Qle_antisym.
  - rewrite E at 2. apply round_magnitude_le; [exact Ha |]. rewrite <- E. apply Qle_refl.
  - rewrite E at 1. apply round_magnitude_ge; [exact Ha |]. rewrite <- E. apply Qle_refl.
Qed.

(** A number [n * 2^e] with [n < 2^53] and [e >= -1074] is such a
    multiple. *)
Lemma round_magnitude_exact (a : Q) (n e : Z) :
  (0 < a)%Q -> (a == inject_Z n * 2 ^ e)%Q -> n < 2 ^ 53 -> -1074 <= e ->
  (round_magnitude a == a)%Q.
Proof.
  intros Ha E Hn He.
  destruct (floor_log2_spec a Ha) as [Hlo _]. cbv zeta in Hlo.
  assert (Hu : ulp_exponent a <= e).
  { unfold ulp_exponent.
    set (f := floor_log2_frac (Qnum a) (Zpos (Qden a))) in *.
    assert (Hf : f < 53 + e).
    { apply Qpow2_lt_inv. apply Qle_lt_trans with (1 := Hlo). rewrite E.
      rewrite Qpow2_plus. pose proof (Qpow2_pos e) as Hp.
      apply Qmult_lt_compat_r; [exact Hp |].
      rewrite <- (Qpow2_inject 53) by lia. rewrite <- Zlt_Qlt. exact Hn. }
    lia. }
  apply (round_magnitude_multiple a (n * 2 ^ (e - ulp_exponent a)) Ha).
  rewrite E at 1. rewrite inject_Z_mult, (Qpow2_inject (e - ulp_exponent a)) by lia.
  rewrite (Qpow2_split e (ulp_exponent a)) at 1. ring.
Qed.

(** *** [binary64] *)

Lemma Qabs_positive (q : Q) : (0 < q)%Q -> Qabs q = q.
Proof.
  destruct q as [n d]. unfold Qlt. cbn. intros H. f_equal. lia.
Qed.

Lemma Qabs_negative (q : Q) : (q < 0)%Q -> Qabs q = (- q)%Q.
Proof.
  destruct q as [n d]. unfold Qlt. cbn. intros H. unfold Qopp. cbn. f_equal. lia.
Qed.

Lemma Qle_bool_false (a b : Q) : (b < a)%Q -> Qle_bool a b = false.
Proof.
  intros H. destruct (Qle_bool a b) eqn:E; [| reflexivity].
  apply Qle_bool_iff in E. lra.
Qed.

Lemma Qle_bool_true (a b : Q) : (a <= b)%Q -> Qle_bool a b = true.
Proof. intros H. apply Qle_bool_iff. exact H. Qed.

Lemma Qeq_bool_false (a b : Q) : ~ (a == b)%Q -> Qeq_bool a b = false.
Proof.
  intros H. destruct (Qeq_bool a b) eqn:E; [| reflexivity].
  apply Qeq_bool_iff in E. contradiction.
Qed.

Lemma binary64_zero (q : Q) : (q == 0)%Q -> binary64 q = Fin 0.
Proof. intros H. unfold binary64. apply Qeq_bool_iff in H. rewrite H. reflexivity. Qed.

Lemma binary64_positive (q : Q) :
  (0 < q)%Q ->
  binary64 q =
  if Qle_bool (2 ^ 1024) (round_magnitude q) then PInf else Fin (Qred (round_magnitude q)).
Proof.
  intros H. unfold binary64. rewrite Qeq_bool_false by lra.
  rewrite (Qabs_positive q H), (Qle_bool_true 0 q) by lra. reflexivity.
Qed.

Lemma binary64_negative (q : Q) :
  (q < 0)%Q ->
  binary64 q =
  if Qle_bool (2 ^ 1024) (round_magnitude (- q)) then NInf
  else Fin (Qred (- round_magnitude (- q))).
Proof.
  intros H. unfold binary64. rewrite Qeq_bool_false by lra.
  rewrite (Qabs_negative q H), (Qle_bool_false 0 q) by lra. reflexivity.
Qed.

(** The value of a finite result. *)
Lemma binary64_positive_value (q v : Q) :
  (0 < q)%Q -> binary64 q = Fin v ->
  (v == round_magnitude q)%Q /\ (round_magnitude q < 2 ^ 1024)%Q.
Proof.
  intros H. rewrite (binary64_positive q H).
  destruct (Qle_bool (2 ^ 1024) (round_magnitude q)) eqn:E; [discriminate |].
  intros Hv. injection Hv as <-. split; [apply Qred_correct |].
  apply Qnot_le_lt. intros C. apply Qle_bool_iff in C. rewrite C in E. discriminate.
Qed.

Lemma binary64_negative_value (q v : Q) :
  (q < 0)%Q -> binary64 q = Fin v ->
  (v == - round_magnitude (- q))%Q /\ (round_magnitude (- q) < 2 ^ 1024)%Q.
Proof.
  intros H. rewrite (binary64_negative q H).
  destruct (Qle_bool (2 ^ 1024) (round_magnitude (- q))) eqn:E; [discriminate |].
  intros Hv. injection Hv as <-. split; [apply Qred_correct |].
  apply Qnot_le_lt. intros C. apply Qle_bool_iff in C. rewrite C in E. discriminate.
Qed.

Lemma binary64_zero_value (q v : Q) : (q == 0)%Q -> binary64 q = Fin v -> v = 0%Q.
Proof. intros H. rewrite (binary64_zero q H). intros E. injection E as <-. reflexivity. Qed.

(** The sign is kept. *)
Lemma binary64_nonneg (q v : Q) : (0 <= q)%Q -> binary64 q = Fin v -> (0 <= v)%Q.
Proof.
  intros H Hv. destruct (Qlt_le_dec 0 q) as [Hp | Hz].
  - destruct (binary64_positive_value q v Hp Hv) as [E _]. rewrite E.
    apply round_magnitude_nonneg. lra.
  - rewrite (binary64_zero_value q v) by (assumption || lra). apply Qle_refl.
Qed.

Lemma binary64_nonpos (q v : Q) : (q <= 0)%Q -> binary64 q = Fin v -> (v <= 0)%Q.
Proof.
  intros H Hv. destruct (Qlt_le_dec q 0) as [Hn | Hz].
  - destruct (binary64_negative_value q v Hn Hv) as [E _]. rewrite E.
    pose proof (round_magnitude_nonneg (- q) ltac:(lra)). lra.
  - rewrite (binary64_zero_value q v) by (assumption || lra). apply Qle_refl.
Qed.

(** Rounding is monotone, and a number between two numbers with finite
    doubles has a finite double between theirs. *)
Lemma binary64_sandwich (lo q hi vlo vhi : Q) :
  (lo <= q)%Q -> (q <= hi)%Q -> binary64 lo = Fin vlo -> binary64 hi = Fin vhi ->
  exists v : Q, binary64 q = Fin v /\ (vlo <= v)%Q /\ (v <= vhi)%Q.
Proof.
  intros Hlo Hhi Elo Ehi.
  destruct (Q_dec q 0) as [[Hn | Hp] | Hz].
  - (* negative *)
    pose proof (binary64_nonneg hi vhi) as Hsign.
    destruct (binary64_negative_value lo vlo ltac:(lra) Elo) as [Evlo Hfin].
    pose proof (round_magnitude_mono (- q) (- lo) ltac:(lra) ltac:(lra)) as Hm.
    rewrite (binary64_negative q Hn), Qle_bool_false by lra.
    eexists. split; [reflexivity |]. rewrite Qred_correct. split; [lra |].
    destruct (Qlt_le_dec hi 0) as [Hhn | Hhp].
    + destruct (binary64_negative_value hi vhi Hhn Ehi) as [Evhi _].
      pose proof (round_magnitude_mono (- hi) (- q) ltac:(lra) ltac:(lra)). lra.
    + pose proof (Hsign Hhp Ehi). pose proof (round_magnitude_nonneg (- q) ltac:(lra)). lra.
  - (* positive *)
    pose proof (binary64_nonpos lo vlo) as Hsign.
    destruct (binary64_positive_value hi vhi ltac:(lra) Ehi) as [Evhi Hfin].
    pose proof (round_magnitude_mono q hi Hp Hhi) as Hm.
    rewrite (binary64_positive q Hp), Qle_bool_false by lra.
    eexists. split; [reflexivity |]. rewrite Qred_correct. split; [| lra].
    destruct (Qlt_le_dec 0 lo) as [Hlp | Hln].
    + destruct (binary64_positive_value lo vlo Hlp Elo) as [Evlo _].
      pose proof (round_magnitude_mono lo q Hlp Hlo). lra.
    + pose proof (Hsign Hln Elo). pose proof (round_magnitude_nonneg q ltac:(lra)). lra.
  - exists 0%Q. split; [apply binary64_zero, Hz |]. split.
    + apply (binary64_nonpos lo vlo); [lra | exact Elo].
    + apply (binary64_nonneg hi vhi); [lra | exact Ehi].
Qed.

(** A number [n * 2^e] with [|n| < 2^53], [e >= -1074] and magnitude
    below [2^1024] is a double. *)
Lemma binary64_exact (q : Q) (n e : Z) :
  (q == inject_Z n * 2 ^ e)%Q -> Z.abs n < 2 ^ 53 -> -1074 <= e ->
  (Qabs q < 2 ^ 1024)%Q ->
  binary64 q = Fin (Qred q).
Proof.
  intros E Hn He Hfin. pose proof (Qpow2_pos e) as Hp.
  destruct (Q_dec q 0) as [[Hneg | Hpos] | Hz].
  - rewrite (Qabs_negative q Hneg) in Hfin.
    assert (Ex : (round_magnitude (- q) == - q)%Q).
    { apply (round_magnitude_exact (- q) (- n) e); [lra | | lia | exact He].
      rewrite inject_Z_opp, E. ring. }
    rewrite (binary64_negative q Hneg), Qle_bool_false by lra.
    f_equal. apply Qred_complete. rewrite Ex. ring.
  - rewrite (Qabs_positive q Hpos) in Hfin.
    assert (Ex : (round_magnitude q == q)%Q).
    { apply (round_magnitude_exact q n e); [exact Hpos | exact E | lia | exact He]. }
    rewrite (binary64_positive q Hpos), Qle_bool_false by lra.
    f_equal. apply Qred_complete. exact Ex.
  - rewrite (binary64_zero q Hz). f_equal. symmetry.
    change 0%Q with (Qred 0). apply Qred_complete. exact Hz.
Qed.

Lemma Qred_inject_Z (z : Z) : Qred (inject_Z z) = inject_Z z.
Proof.
  unfold Qred, inject_Z.
  pose proof (Z.ggcd_gcd z 1) as Hg. pose proof (Z.ggcd_correct_divisors z 1) as Hd.
  destruct (Z.ggcd z 1) as [g [r1 r2]]. cbn [fst snd] in *.
  rewrite Z.gcd_1_r in Hg. subst g. destruct Hd as [H1 H2].
  rewrite Z.mul_1_l in H1, H2. subst. reflexivity.
Qed.

(** Integers below [2^53] in magnitude are doubles. *)
Lemma binary64_integer (q : Q) (z : Z) :
  (q == inject_Z z)%Q -> Z.abs z < 2 ^ 53 -> binary64 q = Fin (inject_Z z).
Proof.
  intros E Hz. rewrite (binary64_exact q z 0); [| rewrite E; ring | exact Hz | lia |].
  - f_equal. rewrite (Qred_complete q (inject_Z z) E). apply Qred_inject_Z.
  - rewrite E. change (Qabs (inject_Z z)) with (inject_Z (Z.abs z)).
    apply Qlt_trans with (inject_Z (2 ^ 53)).
    + rewrite <- Zlt_Qlt. exact Hz.
    + reflexivity.
Qed.


End DoubleFacts.

(** ** Facts: DoublePitchFacts *)

Module DoublePitchFacts.
Import PitchMapper Render DoublePitchMapper PitchMapperFacts DoubleFacts.





Section Engine.

Variable log2 : jsnum -> jsnum.





End Engine.


(** A frequency so small that [freq / 440] underflows to zero: the
    logarithm is [-Infinity], no table entry is selected and the octave
    is [-Infinity]. *)
Lemma freqToNoteName_underflow :
  (0 < 2 ^ (-1074))%Q /\
  ddiv (Fin (2 ^ (-1074))) (Fin 440) = Fin 0 /\
  freqToNoteName log2_floor (JNum (2 ^ (-1074))) = "undefined-Infinity"%string.
Proof. split; [reflexivity |]. split; vm_compute; reflexivity. Qed.

End DoublePitchFacts.

(** ** Facts: AnalyzerFacts *)

Module AnalyzerFacts.
Import Analyzer.

Lemma energy_loop_sum (fuel : nat) (arr : list Z) :
  forall (i end_ : nat) (sum : Z),
    (end_ - i <= fuel)%nat ->
    energy_loop fuel arr i end_ sum = sum + sum_bins arr i end_.
Proof.
  unfold sum_bins.
  induction fuel as [| fuel IH]; intros i end_ sum Hfuel; cbn [energy_loop].
  - replace (end_ - i)%nat with 0%nat by lia. rewrite take_0. cbn. lia.
  - destruct (Nat.ltb_spec i end_) as [Hie | Hie]; cbn [andb].
    + destruct (Nat.ltb_spec i (length arr)) as [Hil | Hil].
      * destruct (lookup_lt_is_Some_2 arr i Hil) as [x Hx].
        rewrite IH by lia. rewrite Hx. cbn [default].
        rewrite (drop_S arr x i Hx).
        replace (end_ - i)%nat with (S (end_ - S i)) by lia.
        rewrite firstn_cons. cbn [foldr]. unfold id. lia.
      * rewrite drop_ge by lia. rewrite take_nil. cbn. lia.
    + replace (end_ - i)%nat with 0%nat by lia. rewrite take_0. cbn. lia.
Qed.

Lemma energy_sum (arr : list Z) (start end_ : nat) :
  energy arr (start, end_) =
  (inject_Z (sum_bins arr start end_) / inject_Z (Z.of_nat end_ - Z.of_nat start))%Q.
Proof.
  unfold energy. rewrite energy_loop_sum by lia. reflexivity.
Qed.

Lemma bandEnergies_sums (arr : list Z) :
  bandEnergies arr =
  [ ("BASS"%string, (inject_Z (sum_bins arr 0 64) / 64)%Q);
    ("MID"%string, (inject_Z (sum_bins arr 65 256) / 191)%Q);
    ("HIGH"%string, (inject_Z (sum_bins arr 257 1024) / 767)%Q) ].
Proof.
  unfold bandEnergies, bands. cbn [map name range].
  rewrite !energy_sum. reflexivity.
Qed.

Lemma sum_bins_insert_below (arr : list Z) (start end_ k : nat) (v : Z) :
  (k < start)%nat -> sum_bins (<[k := v]> arr) start end_ = sum_bins arr start end_.
Proof. intros H. unfold sum_bins. rewrite drop_insert_lt by lia. reflexivity. Qed.

Lemma sum_bins_insert_above (arr : list Z) (start end_ k : nat) (v : Z) :
  (end_ <= k)%nat -> sum_bins (<[k := v]> arr) start end_ = sum_bins arr start end_.
Proof.
  intros H. unfold sum_bins.
  destruct (Nat.le_gt_cases start k) as [Hs | Hs].
  - rewrite drop_insert_ge by lia. rewrite take_insert_ge by lia. reflexivity.
  - rewrite drop_insert_lt by lia. reflexivity.
Qed.

(** Claim C10.  Each band's energy is the sum of the bins from its start
    up to, but excluding, its end, divided by (end - start): BASS sums
    bins 0..63 over 64, MID bins 65..255 over 191, HIGH bins 257..1023 over
    767.  Bins 64 and 256 contribute to no band: overwriting either one
    changes no band energy. *)
Theorem band_energy_skips_bins_64_256 (arr : list Z) (v : Z) :
  bandEnergies arr =
    [ ("BASS"%string, (inject_Z (sum_bins arr 0 64) / 64)%Q);
      ("MID"%string, (inject_Z (sum_bins arr 65 256) / 191)%Q);
      ("HIGH"%string, (inject_Z (sum_bins arr 257 1024) / 767)%Q) ] /\
  bandEnergies (<[64%nat := v]> arr) = bandEnergies arr /\
  bandEnergies (<[256%nat := v]> arr) = bandEnergies arr.
Proof.
  split; [apply bandEnergies_sums |].
  rewrite !bandEnergies_sums. split.
  - rewrite (sum_bins_insert_above arr 0 64 64) by lia.
    rewrite (sum_bins_insert_below arr 65 256 64) by lia.
    rewrite (sum_bins_insert_below arr 257 1024 64) by lia. reflexivity.
  - rewrite (sum_bins_insert_above arr 0 64 256) by lia.
    rewrite (sum_bins_insert_above arr 65 256 256) by lia.
    rewrite (sum_bins_insert_below arr 257 1024 256) by lia. reflexivity.
Qed.

Lemma sum_bins_zero (arr : list Z) (start end_ : nat) :
  Forall (fun x => x = 0) (drop start arr) -> sum_bins arr start end_ = 0.
Proof.
  intros H. unfold sum_bins.
  assert (Ht : Forall (fun x => x = 0) (take (end_ - start) (drop start arr)))
    by (apply Forall_take; exact H).
  induction Ht as [| x l -> _ IH]; cbn; [reflexivity | exact IH].
Qed.

Lemma take_add_app {A} (l : list A) (a b : nat) :
  take (a + b) l = take a l ++ take b (drop a l).
Proof.
  revert l. induction a as [| a IH]; intros l; [reflexivity |].
  destruct l as [| x l]; [rewrite drop_nil, !take_nil; reflexivity |].
  cbn [Nat.add]. rewrite !firstn_cons, skipn_cons, IH. reflexivity.
Qed.

Lemma foldr_add_app (l k : list Z) :
  foldr Z.add 0 (l ++ k) = foldr Z.add 0 l + foldr Z.add 0 k.
Proof. induction l as [| x l IH]; cbn; [reflexivity | rewrite IH; lia]. Qed.

Lemma sum_bins_split (arr : list Z) (start mid end_ : nat) :
  (start <= mid <= end_)%nat ->
  sum_bins arr start end_ = sum_bins arr start mid + sum_bins arr mid end_.
Proof.
  intros H. unfold sum_bins.
  replace (end_ - start)%nat with ((mid - start) + (end_ - mid))%nat by lia.
  rewrite take_add_app, foldr_add_app, drop_drop.
  replace (start + (mid - start))%nat with mid by lia. reflexivity.
Qed.

Lemma sum_bins_bound (arr : list Z) (peak : Z) (start end_ : nat) :
  0 <= peak ->
  Forall (fun x => 0 <= x <= peak) arr ->
  sum_bins arr start end_ <= Z.of_nat (end_ - start) * peak.
Proof.
  intros Hp H. unfold sum_bins.
  assert (Hd : Forall (fun x => 0 <= x <= peak) (drop start arr))
    by (apply Forall_drop; exact H).
  revert Hd. generalize (drop start arr) as l. generalize (end_ - start)%nat as n.
  induction n as [| n IH]; intros l Hl.
  - rewrite take_0. cbn. lia.
  - destruct Hl as [| x l Hx Hl]; [cbn; nia |].
    rewrite firstn_cons. cbn [foldr]. specialize (IH l Hl). lia.
Qed.

(** Claim C8, amended.  The analyzer computes, per band, the sum of the
    bins start..end-1 divided by (end - start).  For a spectrum whose
    magnitudes lie in [0, peak] and vanish above bin 10, the BASS energy
    is the sum of bins 0..10 divided by 64, hence at most 11/64 of the
    peak (not near it), and the MID and HIGH sums are exactly zero. *)
Theorem band_energy_concentrated (arr : list Z) (peak : Z) :
  0 <= peak ->
  Forall (fun x => 0 <= x <= peak) arr ->
  Forall (fun x => x = 0) (drop 11 arr) ->
  bandEnergies arr =
    [ ("BASS"%string, (inject_Z (sum_bins arr 0 64) / 64)%Q);
      ("MID"%string, (inject_Z (sum_bins arr 65 256) / 191)%Q);
      ("HIGH"%string, (inject_Z (sum_bins arr 257 1024) / 767)%Q) ] /\
  sum_bins arr 0 64 = sum_bins arr 0 11 /\
  sum_bins arr 65 256 = 0 /\
  sum_bins arr 257 1024 = 0 /\
  (inject_Z (sum_bins arr 0 64) / 64 <= (11 # 64) * inject_Z peak)%Q.
Proof.
  intros Hp Hall Hzero.
  assert (Hbass : sum_bins arr 0 64 = sum_bins arr 0 11).
  { rewrite (sum_bins_split arr 0 11 64) by lia.
    rewrite (sum_bins_zero arr 11 64 Hzero). lia. }
  split; [apply bandEnergies_sums |].
  split; [exact Hbass |].
  split.
  { apply sum_bins_zero. replace 65%nat with (11 + 54)%nat by reflexivity.
    rewrite <- drop_drop. apply Forall_drop. exact Hzero. }
  split.
  { apply sum_bins_zero. replace 257%nat with (11 + 246)%nat by reflexivity.
    rewrite <- drop_drop. apply Forall_drop. exact Hzero. }
  rewrite Hbass.
  pose proof (sum_bins_bound arr peak 0 11 Hp Hall) as Hb.
  change (Z.of_nat (11 - 0)) with 11 in Hb.
  set (S := sum_bins arr 0 11) in *.
  unfold Qle, Qdiv, Qmult, Qinv, inject_Z. simpl. lia.
Qed.

Lemma band_energy_concentrated_witness :
  bandEnergies concentrated =
    [ ("BASS"%string, (2805 / 64)%Q); ("MID"%string, (0 / 191)%Q);
      ("HIGH"%string, (0 / 767)%Q) ].
Proof.
  destruct (band_energy_concentrated concentrated 255) as (Hb & H1 & H2 & H3 & _).
  - lia.
  - apply (bool_decide_unpack _). vm_compute. exact I.
  - apply (bool_decide_unpack _). vm_compute. exact I.
  - rewrite Hb, H1, H2, H3. reflexivity.
Defined.

(** Claim C8 as stated fails for full-scale energy in bins 0..10: the
    BASS energy is 2805/64, less than a fifth of the peak 255. *)
Lemma band_energy_not_near_peak :
  Forall (fun x => 0 <= x <= 255) concentrated /\
  Forall (fun x => x = 0) (drop 11 concentrated) /\
  energy concentrated (0%nat, 64%nat) = (2805 / 64)%Q /\
  (2805 / 64 < 255 / 5)%Q /\
  ~ near_peak (energy concentrated (0%nat, 64%nat)) 255.
Proof.
  split; [apply (bool_decide_unpack _); vm_compute; exact I |].
  split; [apply (bool_decide_unpack _); vm_compute; exact I |].
  split; [vm_compute; reflexivity |].
  split; [reflexivity |].
  unfold near_peak. intros H. vm_compute in H. apply H. reflexivity.
Qed.

End AnalyzerFacts.

(** ** Facts: RenderFacts *)

Module RenderFacts.
Import Render.

Lemma Qltb_false (a b : Q) : (b <= a)%Q -> JS.Qltb a b = false.
Proof. intros H. unfold JS.Qltb. apply Qle_bool_iff in H. rewrite H. reflexivity. Qed.

Lemma Qltb_true (a b : Q) : (a < b)%Q -> JS.Qltb a b = true.
Proof.
  intros H. unfold JS.Qltb. destruct (Qle_bool b a) eqn:E; [| reflexivity].
  apply Qle_bool_iff in E. exfalso. apply (Qlt_irrefl a). eapply Qlt_le_trans; eassumption.
Qed.

Lemma Qeq_bool_nonzero (q : Q) : ~ (q == 0)%Q -> Qeq_bool q 0 = false.
Proof.
  intros H. destruct (Qeq_bool q 0) eqn:E; [| reflexivity].
  apply Qeq_bool_iff in E. contradiction.
Qed.

Lemma trunc_inject_Z (z : Z) : JS.trunc (inject_Z z) = z.
Proof. unfold JS.trunc. cbn. apply Z.quot_1_r. Qed.

(** When [bpm] is zero the row duration is infinite: the estimate is the
    limit itself when there are rows, and not a number when there are none. *)
Lemma bufferLength_of_zero (rows : nat) (secondsLimit : Q) :
  bufferLength_of rows 0 secondsLimit =
  if (rows =? 0)%nat then NaN else jceil (dmul (Fin 44100) (Fin secondsLimit)).
Proof.
  unfold bufferLength_of, estimatedSeconds_of, rowDur_of.
  change (ddiv (ddiv (Fin 60) (Fin 0)) (Fin 4)) with PInf.
  destruct rows as [| rows]; [reflexivity |].
  cbn [Nat.eqb]. unfold dmul at 2. cbn [jmul sign sign_mul].
  replace (inject_Z (Z.of_nat (S rows)) ?= 0)%Q with Gt; [reflexivity |].
  symmetry. apply Qgt_alt. change 0%Q with (inject_Z 0). rewrite <- Zlt_Qlt. lia.
Qed.

Lemma audio_time_nonneg (t : Q) : (0 <= t)%Q -> audio_time (Fin t) = Ok t.
Proof. intros H. unfold audio_time. rewrite (Qltb_false t 0 H). reflexivity. Qed.

Lemma audio_time_negative (t : Q) : (t < 0)%Q -> audio_time (Fin t) = Throw RangeError.
Proof. intros H. unfold audio_time. rewrite (Qltb_true t 0 H). reflexivity. Qed.

(** Silent cells schedule nothing, whatever the row duration. *)
Lemma schedule_rows_silent (ci : nat) (rowDur : jsnum) (chan : list (option cell)) :
  Forall (fun c => silent c = true) chan ->
  forall (ri : nat) (acc : list voice), schedule_rows ci rowDur chan ri acc = Ok acc.
Proof.
  induction 1 as [| c chan Hc _ IH]; intros ri acc; cbn [schedule_rows]; [reflexivity |].
  rewrite Hc. apply IH.
Qed.

Lemma schedule_channels_silent (rowDur : jsnum) (p : pattern) :
  Forall (Forall (fun c => silent c = true)) p ->
  forall (ci : nat) (acc : list voice), schedule_channels rowDur p ci acc = Ok acc.
Proof.
  induction 1 as [| chan p Hc _ IH]; intros ci acc; cbn [schedule_channels]; [reflexivity |].
  rewrite (schedule_rows_silent ci rowDur chan Hc). apply IH.
Qed.

(** The reference host accepts exactly the positive frame counts. *)
Lemma OfflineAudioContext_positive (channels : nat) (len : jsnum) (rate : Z) :
  0 < to_frames len ->
  OfflineAudioContext channels len rate =
  Ok {| ctx_channels := channels; ctx_length := Z.to_nat (to_frames len);
        ctx_sampleRate := rate |}.
Proof.
  intros H. cbn [OfflineAudioContext reference_host]. unfold reference_constructor.
  destruct (Z.ltb_spec 0 (to_frames len)); [reflexivity | lia].
Qed.

Lemma to_frames_range (len : jsnum) : 0 <= to_frames len < 2 ^ 32.
Proof.
  destruct len as [q | | |]; cbn [to_frames]; [| lia | lia | lia].
  apply Z.mod_pos_bound. reflexivity.
Qed.

(** The shape of a rendered buffer. *)
Lemma startRendering_wf (wave : Q -> Q) (ctx : context) (voices : list voice) :
  wf_buffer (startRendering wave ctx voices).
Proof.
  unfold wf_buffer, startRendering. cbn. split.
  - apply length_replicate.
  - apply Forall_replicate. rewrite length_map, length_seq. reflexivity.
Qed.

Lemma startRendering_lookup (wave : Q -> Q) (ctx : context) (voices : list voice)
    (c n : nat) :
  (c < ctx_channels ctx)%nat -> (n < ctx_length ctx)%nat ->
  exists ch,
    channelData (startRendering wave ctx voices) !! c = Some ch /\
    ch !! n = Some (sample wave ctx voices n).
Proof.
  intros Hc Hn. eexists. split.
  - cbn. apply lookup_replicate_2. exact Hc.
  - rewrite list_lookup_fmap, lookup_seq_lt by exact Hn. reflexivity.
Qed.

Lemma wf_buffer_no_sample_beyond (buf : AudioBuffer) (c n : nat) (ch : list Q) :
  wf_buffer buf -> channelData buf !! c = Some ch ->
  (buffer_length buf <= n)%nat -> ch !! n = None.
Proof.
  intros [_ Hall] Hch Hn. apply lookup_ge_None.
  rewrite Forall_forall in Hall. rewrite (Hall ch); [exact Hn |].
  apply list_elem_of_lookup. eauto.
Qed.

(** [renderToBuffer] step by step, on any host. *)
Lemma renderToBuffer_steps_on {host : Host} (wave : Q -> Q) (p : pattern)
    (chan0 : list (option cell)) (bpm secondsLimit : Q) (ctx : context)
    (voices : list voice) :
  p !! 0%nat = Some chan0 ->
  OfflineAudioContext 2 (bufferLength_of (length chan0) bpm secondsLimit) 44100 = Ok ctx ->
  schedule_channels (rowDur_of bpm) p 0 [] = Ok voices ->
  renderToBuffer wave p bpm secondsLimit = Ok (startRendering wave ctx voices).
Proof.
  intros Hp Hctx Hv. unfold renderToBuffer. rewrite Hp, Hctx. cbn [mbind result_bind].
  rewrite Hv. reflexivity.
Qed.

Lemma renderToBuffer_steps (wave : Q -> Q) (p : pattern) (chan0 : list (option cell))
    (bpm secondsLimit : Q) (voices : list voice) :
  p !! 0%nat = Some chan0 ->
  0 < to_frames (bufferLength_of (length chan0) bpm secondsLimit) ->
  schedule_channels (rowDur_of bpm) p 0 [] = Ok voices ->
  renderToBuffer wave p bpm secondsLimit =
  Ok (startRendering wave
        {| ctx_channels := 2;
           ctx_length := Z.to_nat (to_frames (bufferLength_of (length chan0) bpm secondsLimit));
           ctx_sampleRate := 44100 |}
        voices).
Proof.
  intros Hp HL Hv.
  apply (renderToBuffer_steps_on wave p chan0 bpm secondsLimit _ voices Hp); [| exact Hv].
  apply OfflineAudioContext_positive. exact HL.
Qed.

(** A buffer is returned only after every step has succeeded. *)
Lemma renderToBuffer_ok {host : Host} (wave : Q -> Q) (p : pattern)
    (bpm secondsLimit : Q) (buf : AudioBuffer) :
  renderToBuffer wave p bpm secondsLimit = Ok buf ->
  exists (chan0 : list (option cell)) (ctx : context) (voices : list voice),
    p !! 0%nat = Some chan0 /\
    OfflineAudioContext 2 (bufferLength_of (length chan0) bpm secondsLimit) 44100 = Ok ctx /\
    schedule_channels (rowDur_of bpm) p 0 [] = Ok voices /\
    buf = startRendering wave ctx voices.
Proof.
  unfold renderToBuffer. destruct (p !! 0%nat) as [chan0 |]; [| discriminate].
  destruct (OfflineAudioContext 2 (bufferLength_of (length chan0) bpm secondsLimit) 44100)
    as [ctx | e] eqn:Hctx; [| discriminate].
  cbn [mbind result_bind].
  destruct (schedule_channels (rowDur_of bpm) p 0 []) as [voices | e]; [| discriminate].
  cbn [mbind result_bind]. intros H. injection H as <-.
  exists chan0, ctx, voices. split; [reflexivity |]. split; [exact Hctx |].
  split; reflexivity.
Qed.

(** [Math.min] of a limit below the other argument is the limit. *)
Lemma jmin_limit (lim x : Q) : (lim < x)%Q -> jmin (Fin lim) (Fin x) = Fin lim.
Proof.
  intros H. cbn [jmin]. f_equal. unfold Qmin, GenericMinMax.gmin.
  rewrite (proj1 (Qlt_alt lim x) H). reflexivity.
Qed.

(** Claim C1, amended.  Whenever [renderToBuffer] returns a buffer, on any
    host, the pattern has a first channel of [rows] rows and the buffer
    has 2 channels at 44100 Hz of [frames] samples each, with no sample at
    index [frames] or beyond, where [frames] is
    [Math.ceil(sampleRate * estimatedSeconds)] converted to an unsigned
    long, [rowDur = (60 / bpm) / 4] and
    [estimatedSeconds = Math.min(secondsLimit, rows * rowDur + 1)], every
    operation rounded as a double.  For 64 rows at 125 BPM and a limit
    below the natural duration [64 * rowDur + 1] (the double
    1221601398924247 / 2^47, just under 8.68), [frames] is
    [Math.ceil(44100 * secondsLimit)] converted. *)
Theorem renderToBuffer_buffer_length {host : Host} (wave : Q -> Q) (p : pattern)
    (bpm secondsLimit : Q) (buf : AudioBuffer) :
  renderToBuffer wave p bpm secondsLimit = Ok buf ->
  exists (chan0 : list (option cell)) (frames : Z),
    p !! 0%nat = Some chan0 /\
    frames =
      to_frames
        (jceil (dmul (Fin 44100)
                  (jmin (Fin secondsLimit)
                     (dadd (dmul (Fin (inject_Z (Z.of_nat (length chan0))))
                              (ddiv (ddiv (Fin 60) (Fin bpm)) (Fin 4)))
                        (Fin 1))))) /\
    Z.of_nat (buffer_length buf) = frames /\
    numberOfChannels buf = 2%nat /\
    sampleRate buf = 44100 /\
    wf_buffer buf /\
    (forall (c n : nat) (ch : list Q),
       channelData buf !! c = Some ch ->
       (length ch = buffer_length buf) /\
       ((buffer_length buf <= n)%nat -> ch !! n = None)) /\
    (length chan0 = 64%nat -> bpm = 125%Q ->
     (secondsLimit < 1221601398924247 # 140737488355328)%Q ->
     frames = to_frames (jceil (dmul (Fin 44100) (Fin secondsLimit)))).
Proof.
  intros Hok.
  destruct (renderToBuffer_ok wave p bpm secondsLimit buf Hok)
    as (chan0 & ctx & voices & Hp & Hctx & Hv & ->).
  destruct (OfflineAudioContext_ok _ _ _ _ Hctx) as (Hch & Hlen & Hrate).
  exists chan0, (to_frames (bufferLength_of (length chan0) bpm secondsLimit)).
  split; [exact Hp |]. split; [reflexivity |].
  split; [exact Hlen |]. split; [exact Hch |]. split; [exact Hrate |].
  split; [apply startRendering_wf |].
  split.
  - intros c n ch Hc.
    pose proof (startRendering_wf wave ctx voices) as Hwf.
    split; [| apply (wf_buffer_no_sample_beyond _ c n ch Hwf Hc)].
    destruct Hwf as [_ Hall]. rewrite Forall_forall in Hall. apply Hall.
    apply list_elem_of_lookup. eauto.
  - intros H64 -> Hshort. unfold bufferLength_of, estimatedSeconds_of. rewrite H64.
    replace (dadd (dmul (Fin (inject_Z (Z.of_nat 64))) (rowDur_of 125)) (Fin 1))
      with (Fin (1221601398924247 # 140737488355328)) by (vm_compute; reflexivity).
    rewrite jmin_limit; [reflexivity | exact Hshort].
Qed.

Lemma renderToBuffer_buffer_length_witness :
  exists buf : AudioBuffer,
    renderToBuffer sawtooth makePattern 125 5 = Ok buf /\
    Z.of_nat (buffer_length buf) = 220500.
Proof.
  assert (Hok : exists buf, renderToBuffer sawtooth makePattern 125 5 = Ok buf).
  { eexists.
    apply (renderToBuffer_steps sawtooth makePattern (replicate ROWS (Some empty_cell))
             125 5 []); [reflexivity | vm_compute; reflexivity |].
    apply schedule_channels_silent. apply (bool_decide_unpack _). vm_compute. exact I. }
  destruct Hok as (buf & Hok). exists buf. split; [exact Hok |].
  destruct (renderToBuffer_buffer_length sawtooth makePattern 125 5 buf Hok)
    as (chan0 & frames & Hp & _ & Hlen & _ & _ & _ & _ & Hshort).
  injection Hp as <-.
  rewrite Hlen, (Hshort eq_refl eq_refl eq_refl). vm_compute. reflexivity.
Defined.

(** Claim C1 as stated fails for some patterns and positive tempos: a
    pattern without a first channel is a [TypeError], and so is a note
    scheduled at [bpm = 2^-1030], where [60 / bpm] overflows to
    [Infinity]. *)
Lemma renderToBuffer_positive_bpm_throws :
  (0 < 125)%Q /\
  renderToBuffer sawtooth [] 125 180 = Throw TypeError /\
  (0 < 2 ^ (-1030))%Q /\
  rowDur_of (2 ^ (-1030)) = PInf /\
  renderToBuffer sawtooth one_note_pattern (2 ^ (-1030)) 180 = Throw TypeError.
Proof.
  split; [reflexivity |]. split; [reflexivity |]. split; [reflexivity |].
  split; vm_compute; reflexivity.
Qed.

(** The rounding of doubles shows in the frame count: 64 rows at 288 BPM
    last [64 * (60 / 288 / 4) + 1] seconds, 191100 frames exactly, and
    the code allocates 191101; at 125 BPM with the limit [0.1] (the
    double nearest to it) the exact product [44100 * 0.1] is just above
    4410, and the code allocates 4410. *)
Lemma bufferLength_of_rounding :
  Qceiling (44100 * (64 * (60 / 288 / 4) + 1)) = 191100 /\
  bufferLength_of 64 288 180 = Fin 191101 /\
  lit 0.1 = Fin (3602879701896397 # 36028797018963968) /\
  Qceiling (44100 * (3602879701896397 # 36028797018963968)) = 4411 /\
  bufferLength_of 64 125 (3602879701896397 # 36028797018963968) = Fin 4410.
Proof. repeat split; vm_compute; reflexivity. Qed.

Lemma sample_silence (wave : Q -> Q) (ctx : context) (n : nat) :
  (sample wave ctx [] n == 0)%Q.
Proof. unfold sample, mix. cbn [foldr]. apply Qmult_0_r. Qed.

Lemma startRendering_silence (wave : Q -> Q) (ctx : context) :
  Forall (Forall (fun x => (x == 0)%Q)) (channelData (startRendering wave ctx [])).
Proof.
  cbn. apply Forall_replicate. apply Forall_fmap, Forall_forall.
  intros n _. apply sample_silence.
Qed.

(** Claim C5, amended.  [renderToBuffer] validates neither [bpm] nor the
    sample rate (the constant 44100).  For any [bpm] and [secondsLimit],
    zero and negative included, the outcome for an all-silent pattern is
    that of the host's [OfflineAudioContext] constructor, called with the
    frame count the code computes: a context it returns is rendered to a
    zero-filled buffer of that many frames, and an error it throws is the
    error of the render, which returns no buffer then.  For [bpm = 0] and
    a first channel with rows the frame count is
    [Math.ceil(44100 * secondsLimit)]. *)
Theorem renderToBuffer_no_validation {host : Host} (wave : Q -> Q) (p : pattern)
    (chan0 : list (option cell)) (bpm secondsLimit : Q) :
  p !! 0%nat = Some chan0 ->
  Forall (Forall (fun c => silent c = true)) p ->
  (forall ctx : context,
     OfflineAudioContext 2 (bufferLength_of (length chan0) bpm secondsLimit) 44100 = Ok ctx ->
     exists buf : AudioBuffer,
       renderToBuffer wave p bpm secondsLimit = Ok buf /\
       Z.of_nat (buffer_length buf) =
         to_frames (bufferLength_of (length chan0) bpm secondsLimit) /\
       wf_buffer buf /\
       Forall (Forall (fun x => (x == 0)%Q)) (channelData buf)) /\
  (forall e : error,
     OfflineAudioContext 2 (bufferLength_of (length chan0) bpm secondsLimit) 44100 = Throw e ->
     renderToBuffer wave p bpm secondsLimit = Throw e) /\
  (bpm = 0%Q -> chan0 <> [] ->
   bufferLength_of (length chan0) bpm secondsLimit =
   jceil (dmul (Fin 44100) (Fin secondsLimit))).
Proof.
  intros Hp Hsilent. split; [| split].
  - intros ctx Hctx. eexists. split.
    + apply (renderToBuffer_steps_on wave p chan0 bpm secondsLimit ctx [] Hp Hctx).
      apply schedule_channels_silent. exact Hsilent.
    + split; [apply (OfflineAudioContext_ok _ _ _ _ Hctx) |].
      split; [apply startRendering_wf | apply startRendering_silence].
  - intros e He. unfold renderToBuffer. rewrite Hp, He. reflexivity.
  - intros -> Hne. rewrite bufferLength_of_zero.
    destruct chan0 as [| c chan0]; [contradiction | reflexivity].
Qed.

Lemma renderToBuffer_no_validation_witness :
  exists buf : AudioBuffer,
    renderToBuffer sawtooth makePattern (-1000) 180 = Ok buf /\
    Z.of_nat (buffer_length buf) = 1765 /\
    Forall (Forall (fun x => (x == 0)%Q)) (channelData buf).
Proof.
  destruct (renderToBuffer_no_validation sawtooth makePattern
              (replicate ROWS (Some empty_cell)) (-1000) 180)
    as (Hok & _ & _).
  - reflexivity.
  - apply (bool_decide_unpack _). vm_compute. exact I.
  - destruct (Hok _ (OfflineAudioContext_positive 2
                       (bufferLength_of (length (replicate ROWS (Some empty_cell)))
                          (-1000) 180) 44100 eq_refl))
      as (buf & Hbuf & Hlen & _ & Hzero).
    exists buf. split; [exact Hbuf |]. split; [| exact Hzero].
    rewrite Hlen. vm_compute. reflexivity.
Defined.

(** Claim C5 as stated fails: with [bpm = -1000] the editor's silent
    pattern renders to a buffer of 1765 frames, and a pattern with one
    note at row 1 fails only while that note is scheduled, with the
    host's [RangeError] for a negative time. *)
Lemma renderToBuffer_negative_bpm :
  (-1000 <= 0)%Q /\
  (exists buf : AudioBuffer,
     renderToBuffer sawtooth makePattern (-1000) 180 = Ok buf /\
     numberOfChannels buf = 2%nat /\ buffer_length buf = 1765%nat) /\
  renderToBuffer sawtooth one_note_pattern (-1000) 180 = Throw RangeError.
Proof.
  split; [discriminate |]. split.
  - eexists. split.
    + apply (renderToBuffer_steps sawtooth makePattern (replicate ROWS (Some empty_cell))
               (-1000) 180 []); [reflexivity | vm_compute; reflexivity |].
      apply schedule_channels_silent. apply (bool_decide_unpack _). vm_compute. exact I.
    + split; [reflexivity | vm_compute; reflexivity].
  - vm_compute. reflexivity.
Qed.

(** Claim C6 as stated fails: with channel 0 filled with notes at
    [bpm = 600000], frame 200 of the rendered buffer exceeds 4. *)
Lemma renderToBuffer_unclamped :
  exists (buf : AudioBuffer) (ch : list Q) (x : Q),
    renderToBuffer sawtooth lead_pattern 600000 180 = Ok buf /\
    buffer_length buf = Z.to_nat 44171 /\
    channelData buf !! 0%nat = Some ch /\
    ch !! 200%nat = Some x /\
    (4 < x)%Q.
Proof.
  assert (Hv : exists voices,
             schedule_channels (rowDur_of 600000) lead_pattern 0 [] = Ok voices /\
             (4 < master_gain * mix sawtooth voices (inject_Z 200 / inject_Z 44100))%Q).
  { eexists. split; [vm_compute; reflexivity | vm_compute; reflexivity]. }
  destruct Hv as (voices & Hv & Hx).
  assert (HL : to_frames (bufferLength_of (length (replicate ROWS (Some note_cell)))
                            600000 180) = 44171) by (vm_compute; reflexivity).
  pose proof (renderToBuffer_steps sawtooth lead_pattern
                (replicate ROWS (Some note_cell)) 600000 180 voices
                eq_refl ltac:(rewrite HL; reflexivity) Hv) as Hok.
  rewrite HL in Hok.
  destruct (startRendering_lookup sawtooth
              {| ctx_channels := 2; ctx_length := Z.to_nat 44171; ctx_sampleRate := 44100 |}
              voices 0 200) as (ch & Hch & Hn); [cbn; lia | cbn; lia |].
  eexists _, ch, _. split; [exact Hok |]. split; [reflexivity |].
  split; [exact Hch |]. split; [exact Hn | exact Hx].
Qed.

End RenderFacts.

(** ** Facts: WavFacts *)

Module WavFacts.
Import DataView Wav.

Lemma length_le_bytes (n : nat) (v : Z) : length (le_bytes n v) = n.
Proof. revert v. induction n as [| n IH]; intros v; cbn; [reflexivity | rewrite IH; reflexivity]. Qed.

Lemma length_codes (s : string) : length (codes s) = String.length s.
Proof.
  unfold codes. rewrite length_map.
  induction s as [| c s IH]; cbn; [reflexivity | rewrite IH; reflexivity].
Qed.

(** Writing at the end of the part already filled of a zeroed buffer. *)
Lemma store_fill (filled bs : list Z) (offset k : nat) :
  offset = length filled -> (length bs <= k)%nat ->
  store (filled ++ replicate k 0) offset bs =
  Ok ((filled ++ bs) ++ replicate (k - length bs) 0).
Proof.
  intros -> Hk. unfold store.
  rewrite length_app, length_replicate.
  destruct (Nat.leb_spec (length filled + length bs) (length filled + k)); [| lia].
  rewrite take_app_length, drop_app_add, drop_replicate, <- app_assoc. reflexivity.
Qed.

Lemma writeString_fill (s : string) :
  forall (filled : list Z) (offset k : nat),
    offset = length filled -> (String.length s <= k)%nat ->
    writeString (filled ++ replicate k 0) offset s =
    Ok ((filled ++ codes s) ++ replicate (k - String.length s) 0).
Proof.
  induction s as [| c s IH]; intros filled offset k Hoff Hk; cbn [writeString].
  - cbn. rewrite Nat.sub_0_r, app_nil_r. reflexivity.
  - cbn [String.length] in Hk. unfold setUint8.
    rewrite (store_fill filled _ offset k Hoff) by (cbn; lia).
    cbn [mbind result_bind le_bytes length].
    rewrite IH by (rewrite ?length_app; cbn; lia).
    assert (Hc : Z.of_nat (nat_of_ascii c) mod 256 = Z.of_nat (nat_of_ascii c)).
    { apply Z.mod_small. pose proof (nat_ascii_bounded c). lia. }
    rewrite Hc. unfold codes. cbn [list_ascii_of_string map String.length].
    rewrite <- !app_assoc. cbn [app].
    replace (k - 1 - String.length s)%nat with (k - S (String.length s))%nat by lia.
    reflexivity.
Qed.

Lemma write_samples_fill (samples : list Q) :
  forall (filled : list Z) (offset k : nat),
    offset = length filled -> (2 * length samples <= k)%nat ->
    write_samples (filled ++ replicate k 0) offset samples =
    Ok ((filled ++ flat_map (fun x => le_bytes 2 (pcm16 x)) samples)
          ++ replicate (k - 2 * length samples) 0).
Proof.
  induction samples as [| x samples IH]; intros filled offset k Hoff Hk;
    cbn [write_samples flat_map].
  - cbn. rewrite Nat.sub_0_r, app_nil_r. reflexivity.
  - cbn [length] in Hk. unfold setInt16.
    rewrite (store_fill filled _ offset k Hoff) by (rewrite length_le_bytes; lia).
    cbn [mbind result_bind]. rewrite length_le_bytes.
    rewrite IH by (rewrite ?length_app, ?length_le_bytes; lia).
    rewrite <- !app_assoc. unfold pcm16.
    replace (k - 2 - 2 * length samples)%nat with (k - 2 * S (length samples))%nat by lia.
    reflexivity.
Qed.

(** [audioBufferToWav] always succeeds, with the header followed by the
    samples. *)
Lemma audioBufferToWav_bytes (buffer : AudioBuffer) :
  audioBufferToWav buffer =
  Ok (header (Z.of_nat (numberOfChannels buffer)) (sampleRate buffer)
             (Z.of_nat (length (interleaved buffer)) * 2)
      ++ flat_map (fun x => le_bytes 2 (pcm16 x)) (interleaved buffer)).
Proof.
  unfold audioBufferToWav. cbv zeta.
  change (16 / 8) with 2.
  set (n := length (interleaved buffer)).
  set (ch := Z.of_nat (numberOfChannels buffer)).
  set (sr := sampleRate buffer).
  replace (ArrayBuffer (Z.to_nat (44 + Z.of_nat n * 2)))
    with ([] ++ replicate (44 + 2 * n) 0)
    by (unfold ArrayBuffer; cbn [app]; f_equal; lia).
  rewrite writeString_fill by (cbn; lia). cbn [mbind result_bind].
  unfold setUint32, setUint16.
  repeat (first
    [ rewrite store_fill
        by (rewrite ?length_app, ?length_codes, ?length_le_bytes; cbn; lia)
    | rewrite writeString_fill
        by (rewrite ?length_app, ?length_codes, ?length_le_bytes; cbn; lia) ];
    cbn [mbind result_bind]).
  rewrite write_samples_fill
    by (rewrite ?length_app, ?length_codes, ?length_le_bytes; cbn; lia).
  rewrite ?length_le_bytes. cbn [String.length].
  fold n.
  replace (44 + 2 * n - 4 - 4 - 4 - 4 - 4 - 2 - 2 - 4 - 4 - 2 - 2 - 4 - 4 - 2 * n)%nat
    with 0%nat by lia.
  cbn [replicate]. rewrite app_nil_r. unfold header.
  rewrite <- !app_assoc. reflexivity.
Qed.

(** *** Reading the encoded stream back *)

Lemma from_le_bytes (n : nat) (v : Z) :
  from_le (le_bytes n v) = v mod 256 ^ Z.of_nat n.
Proof.
  revert v. induction n as [| n IH]; intros v.
  - cbn. rewrite Z.mod_1_r. reflexivity.
  - cbn [le_bytes from_le foldr]. fold (from_le (le_bytes n (v / 256))). rewrite IH.
    rewrite Nat2Z.inj_succ, Z.pow_succ_r by lia.
    rewrite (Z.rem_mul_r v 256 (256 ^ Z.of_nat n)) by lia. reflexivity.
Qed.

Lemma to_signed_16 (v : Z) :
  -32768 <= v <= 32767 -> to_signed 16 (v mod 65536) = v.
Proof.
  intros H. unfold to_signed. change (2 ^ (16 - 1)) with 32768. change (2 ^ 16) with 65536.
  destruct (Z.ltb_spec (v mod 65536) 32768) as [Hlt | Hge].
  - destruct (Z.le_gt_cases 0 v); [rewrite Z.mod_small; lia |].
    rewrite <- (Z.mod_add v 1 65536), Z.mod_small in Hlt by lia. lia.
  - destruct (Z.le_gt_cases 0 v); [rewrite Z.mod_small in Hge by lia; lia |].
    rewrite <- (Z.mod_add v 1 65536), Z.mod_small by lia. lia.
Qed.

Lemma load_app_r (hd tl : list Z) (offset m n : nat) :
  offset = (length hd + m)%nat -> (m + n <= length tl)%nat ->
  load (hd ++ tl) offset n = Ok (take n (drop m tl)).
Proof.
  intros -> H. unfold load. rewrite length_app.
  destruct (Nat.leb_spec (length hd + m + n) (length hd + length tl)); [| lia].
  rewrite drop_app_add. reflexivity.
Qed.

Lemma load_app_l (hd tl : list Z) (offset n : nat) :
  (offset + n <= length hd)%nat ->
  load (hd ++ tl) offset n = Ok (take n (drop offset hd)).
Proof.
  intros H. unfold load. rewrite length_app.
  destruct (Nat.leb_spec (offset + n) (length hd + length tl)); [| lia].
  rewrite drop_app_le by lia. rewrite take_app_le by (rewrite length_drop; lia).
  reflexivity.
Qed.

(** Pieces of constant length in a [flat_map]. *)
Lemma flat_map_drop {A B} (f : A -> list B) (m : nat) (l : list A) (k : nat) :
  (forall x, length (f x) = m) ->
  drop (m * k) (flat_map f l) = flat_map f (drop k l).
Proof.
  intros Hf. revert l. induction k as [| k IH]; intros l.
  - rewrite Nat.mul_0_r. reflexivity.
  - destruct l as [| x l]; [cbn [flat_map]; rewrite !drop_nil; reflexivity |].
    cbn [flat_map]. rewrite skipn_cons.
    replace (m * S k)%nat with (length (f x) + m * k)%nat by (rewrite Hf; lia).
    rewrite drop_app_add. apply IH.
Qed.

Lemma flat_map_piece {A B} (f : A -> list B) (m : nat) (l : list A) (k : nat) (x : A) :
  (forall x, length (f x) = m) -> l !! k = Some x ->
  take m (drop (m * k) (flat_map f l)) = f x.
Proof.
  intros Hf Hx. rewrite (flat_map_drop f m l k Hf).
  rewrite (drop_S l x k Hx). cbn [flat_map].
  rewrite <- (Hf x). apply take_app_length.
Qed.

Lemma flat_map_lookup {A B} (f : A -> list B) (m : nat) (l : list A) (k j : nat) (x : A) :
  (forall x, length (f x) = m) -> l !! k = Some x -> (j < m)%nat ->
  flat_map f l !! (m * k + j)%nat = f x !! j.
Proof.
  intros Hf Hx Hj. rewrite <- lookup_drop, (flat_map_drop f m l k Hf).
  rewrite (drop_S l x k Hx). cbn [flat_map].
  apply lookup_app_l. rewrite Hf. exact Hj.
Qed.

Lemma flat_map_length_const {A B} (f : A -> list B) (m : nat) (l : list A) :
  (forall x, length (f x) = m) -> length (flat_map f l) = (m * length l)%nat.
Proof.
  intros Hf. induction l as [| x l IH]; cbn [flat_map length]; [lia |].
  rewrite length_app, Hf, IH. lia.
Qed.

Lemma length_frame (buffer : AudioBuffer) (i : nat) :
  length (frame buffer i) = numberOfChannels buffer.
Proof. unfold frame. rewrite length_map, length_seq. reflexivity. Qed.

Lemma length_interleaved (buffer : AudioBuffer) :
  length (interleaved buffer) = (numberOfChannels buffer * buffer_length buffer)%nat.
Proof.
  unfold interleaved.
  rewrite (flat_map_length_const _ (numberOfChannels buffer)) by (apply length_frame).
  rewrite length_seq. reflexivity.
Qed.

Lemma interleaved_lookup (buffer : AudioBuffer) (i c : nat) :
  (i < buffer_length buffer)%nat -> (c < numberOfChannels buffer)%nat ->
  interleaved buffer !! (numberOfChannels buffer * i + c)%nat = Some (sample_at buffer c i).
Proof.
  intros Hi Hc. unfold interleaved.
  rewrite (flat_map_lookup (frame buffer) (numberOfChannels buffer) _ i c i
             (length_frame buffer)); [| apply lookup_seq_lt; exact Hi | exact Hc].
  unfold frame. rewrite list_lookup_fmap, lookup_seq_lt by exact Hc. reflexivity.
Qed.

Lemma clamp_range (x : Q) : (-1 <= clamp x)%Q /\ (clamp x <= 1)%Q.
Proof.
  unfold clamp. split.
  - apply Q.le_max_l.
  - apply Q.max_lub; [discriminate | apply Q.le_min_l].
Qed.

Lemma trunc_bounds (x : Q) (lo hi : Z) :
  (inject_Z lo <= x)%Q -> (x <= inject_Z hi)%Q -> lo <= JS.trunc x <= hi.
Proof.
  destruct x as [n d]. unfold Qle, JS.trunc. cbn [Qnum Qden inject_Z].
  rewrite !Z.mul_1_r. intros Hlo Hhi. split.
  - rewrite <- (Z.quot_mul lo (Z.pos d)) by lia. apply Z.quot_le_mono; lia.
  - rewrite <- (Z.quot_mul hi (Z.pos d)) by lia. apply Z.quot_le_mono; lia.
Qed.

Lemma scale_range (s : Q) :
  (-1 <= s)%Q -> (s <= 1)%Q -> (-32768 <= scale s)%Q /\ (scale s <= 32767)%Q.
Proof.
  intros Hlo Hhi. unfold scale, JS.Qltb.
  destruct (Qle_bool 0 s) eqn:E; cbn [negb].
  - apply Qle_bool_iff in E. split.
    + apply Qle_trans with 0%Q; [discriminate |].
      apply Qmult_le_0_compat; [exact E | discriminate].
    + apply Qle_trans with (1 * 32767)%Q; [| discriminate].
      apply Qmult_le_compat_r; [exact Hhi | discriminate].
  - assert (Hneg : (s <= 0)%Q).
    { apply Qnot_lt_le. intros C. apply Qlt_le_weak in C.
      apply Qle_bool_iff in C. congruence. }
    split.
    + apply Qle_trans with (-1 * 32768)%Q; [discriminate |].
      apply Qmult_le_compat_r; [exact Hlo | discriminate].
    + apply Qle_trans with 0%Q; [| discriminate].
      apply Qle_trans with (0 * 32768)%Q; [| discriminate].
      apply Qmult_le_compat_r; [exact Hneg | discriminate].
Qed.

Lemma pcm16_range (x : Q) : -32768 <= pcm16 x <= 32767.
Proof.
  unfold pcm16. destruct (clamp_range x) as [Hlo Hhi].
  destruct (scale_range (clamp x) Hlo Hhi) as [Hslo Hshi].
  apply trunc_bounds; assumption.
Qed.

Lemma length_header (ch sr d : Z) : length (header ch sr d) = 44%nat.
Proof. reflexivity. Qed.

Lemma wf_sample_at (b : AudioBuffer) (c i : nat) :
  wf_buffer b -> (c < numberOfChannels b)%nat -> (i < buffer_length b)%nat ->
  exists (chd : list Q) (x : Q),
    channelData b !! c = Some chd /\ chd !! i = Some x /\ sample_at b c i = x.
Proof.
  intros [Hlen Hall] Hc Hi.
  destruct (lookup_lt_is_Some_2 (channelData b) c) as [chd Hchd]; [lia |].
  assert (Hl : length chd = buffer_length b).
  { rewrite Forall_forall in Hall. apply Hall. apply list_elem_of_lookup. eauto. }
  destruct (lookup_lt_is_Some_2 chd i) as [x Hx]; [lia |].
  exists chd, x. split; [exact Hchd |]. split; [exact Hx |].
  unfold sample_at, getChannelData. rewrite Hchd. cbn. rewrite Hx. reflexivity.
Qed.

Lemma encoded_sample (b : AudioBuffer) (hd : list Z) (i c : nat) :
  length hd = 44%nat ->
  (i < buffer_length b)%nat -> (c < numberOfChannels b)%nat ->
  getInt16 (hd ++ flat_map (fun x => le_bytes 2 (pcm16 x)) (interleaved b))
           (44 + 2 * (numberOfChannels b * i + c))
  = Ok (pcm16 (sample_at b c i)).
Proof.
  intros Hhd Hi Hc. unfold getInt16.
  pose proof (interleaved_lookup b i c Hi Hc) as Hk.
  set (k := (numberOfChannels b * i + c)%nat) in *.
  assert (Hklt : (k < length (interleaved b))%nat) by (eapply lookup_lt_Some; eassumption).
  rewrite (load_app_r hd _ _ (2 * k) 2).
  - rewrite (flat_map_piece _ 2 (interleaved b) k (sample_at b c i));
      [| intros x; apply length_le_bytes | exact Hk].
    cbn [mbind result_bind]. rewrite from_le_bytes.
    change (256 ^ Z.of_nat 2) with 65536.
    rewrite to_signed_16 by apply pcm16_range. reflexivity.
  - rewrite Hhd. reflexivity.
  - rewrite (flat_map_length_const _ 2) by (intros x; apply length_le_bytes). lia.
Qed.

(** Claim C2.  For every valid buffer the encoder succeeds and yields
    44 + frames * channels * 2 bytes: "RIFF", the size 36 + data bytes,
    "WAVE", "fmt " with chunk size 16, format 1 (PCM), the buffer's channel
    count and sample rate, 16 bits per sample, "data" with the data byte
    count frames * channels * 2, then the interleaved samples as 16-bit
    little-endian integers: frame [i], channel [c] is at byte
    44 + 2 * (channels * i + c) and holds the sample clamped to [-1, 1],
    scaled by 32768 if negative and by 32767 otherwise, and truncated. *)
Theorem audioBufferToWav_format (buffer : AudioBuffer) :
  valid_buffer buffer ->
  exists bytes : list Z,
    audioBufferToWav buffer = Ok bytes /\
    Z.of_nat (length bytes) =
      44 + Z.of_nat (buffer_length buffer) * Z.of_nat (numberOfChannels buffer) * 2 /\
    take 4 bytes = codes "RIFF" /\
    getUint32 bytes 4 =
      Ok (36 + Z.of_nat (buffer_length buffer) * Z.of_nat (numberOfChannels buffer) * 2) /\
    take 4 (drop 8 bytes) = codes "WAVE" /\
    take 4 (drop 12 bytes) = codes "fmt " /\
    getUint32 bytes 16 = Ok 16 /\
    getUint16 bytes 20 = Ok 1 /\
    getUint16 bytes 22 = Ok (Z.of_nat (numberOfChannels buffer)) /\
    getUint32 bytes 24 = Ok (sampleRate buffer) /\
    getUint16 bytes 34 = Ok 16 /\
    take 4 (drop 36 bytes) = codes "data" /\
    getUint32 bytes 40 =
      Ok (Z.of_nat (buffer_length buffer) * Z.of_nat (numberOfChannels buffer) * 2) /\
    forall i c : nat,
      (i < buffer_length buffer)%nat -> (c < numberOfChannels buffer)%nat ->
      exists (chd : list Q) (x s : Q),
        channelData buffer !! c = Some chd /\ chd !! i = Some x /\
        s = Qmax (-1) (Qmin 1 x) /\ (-1 <= s)%Q /\ (s <= 1)%Q /\
        getInt16 bytes (44 + 2 * (numberOfChannels buffer * i + c)) =
          Ok (JS.trunc (if JS.Qltb s 0 then s * 32768 else s * 32767)%Q).
Proof.
  intros (Hwf & Hch & Hsr & Hsize).
  set (ch := Z.of_nat (numberOfChannels buffer)) in *.
  set (d := Z.of_nat (buffer_length buffer) * ch * 2) in *.
  assert (Hd : Z.of_nat (length (interleaved buffer)) * 2 = d).
  { rewrite length_interleaved. unfold d, ch. lia. }
  assert (Hd0 : 0 <= d) by (unfold d, ch; lia).
  eexists. split; [apply audioBufferToWav_bytes |].
  rewrite Hd. fold ch.
  set (hd := header ch (sampleRate buffer) d).
  set (pcm := flat_map (fun x => le_bytes 2 (pcm16 x)) (interleaved buffer)).
  assert (Hfield : forall off n bs,
             (off + n <= 44)%nat -> take n (drop off hd) = bs ->
             load (hd ++ pcm) off n = Ok bs).
  { intros off n bs Hfit <-. apply load_app_l. exact Hfit. }
  assert (Htake : forall off n, (off + n <= 44)%nat ->
             take n (drop off (hd ++ pcm)) = take n (drop off hd)).
  { intros off n Hfit. rewrite drop_app_le by (unfold hd; rewrite length_header; lia).
    apply take_app_le. rewrite length_drop. unfold hd. rewrite length_header. lia. }
  split.
  { rewrite length_app. unfold hd, pcm. rewrite length_header.
    rewrite (flat_map_length_const _ 2) by (intros x; apply length_le_bytes). lia. }
  split; [apply (Htake 0%nat 4%nat); lia |].
  split.
  { unfold getUint32. rewrite (Hfield 4 4 (le_bytes 4 (36 + d)))%nat by (lia || reflexivity).
    cbn [mbind result_bind]. rewrite from_le_bytes. rewrite Z.mod_small; [reflexivity |].
    change (256 ^ Z.of_nat 4) with (2 ^ 32). lia. }
  split; [apply (Htake 8%nat 4%nat); lia |].
  split; [apply (Htake 12%nat 4%nat); lia |].
  split.
  { unfold getUint32. rewrite (Hfield 16 4 (le_bytes 4 16))%nat by (lia || reflexivity).
    reflexivity. }
  split.
  { unfold getUint16. rewrite (Hfield 20 2 (le_bytes 2 1))%nat by (lia || reflexivity).
    reflexivity. }
  split.
  { unfold getUint16. rewrite (Hfield 22 2 (le_bytes 2 ch))%nat by (lia || reflexivity).
    cbn [mbind result_bind]. rewrite from_le_bytes. rewrite Z.mod_small; [reflexivity |].
    change (256 ^ Z.of_nat 2) with (2 ^ 16). unfold ch in *. lia. }
  split.
  { unfold getUint32.
    rewrite (Hfield 24 4 (le_bytes 4 (sampleRate buffer)))%nat by (lia || reflexivity).
    cbn [mbind result_bind]. rewrite from_le_bytes. rewrite Z.mod_small; [reflexivity |].
    change (256 ^ Z.of_nat 4) with (2 ^ 32). lia. }
  split.
  { unfold getUint16. rewrite (Hfield 34 2 (le_bytes 2 16))%nat by (lia || reflexivity).
    reflexivity. }
  split; [apply (Htake 36%nat 4%nat); lia |].
  split.
  { unfold getUint32. rewrite (Hfield 40 4 (le_bytes 4 d))%nat by (lia || reflexivity).
    cbn [mbind result_bind]. rewrite from_le_bytes. rewrite Z.mod_small; [reflexivity |].
    change (256 ^ Z.of_nat 4) with (2 ^ 32). lia. }
  intros i c Hi Hc.
    destruct (wf_sample_at buffer c i Hwf Hc Hi) as (chd & x & Hchd & Hx & Hs).
    exists chd, x, (clamp x).
    destruct (clamp_range x) as [Hlo Hhi].
    split; [exact Hchd |]. split; [exact Hx |]. split; [reflexivity |].
    split; [exact Hlo |]. split; [exact Hhi |].
    unfold hd, pcm. rewrite (encoded_sample buffer _ i c (length_header _ _ _) Hi Hc).
    rewrite Hs. reflexivity.
Qed.

End WavFacts.

(** ** Facts: PipelineFacts *)

Module PipelineFacts.
Import DataView Wav Render RenderFacts WavFacts.

Lemma audioBufferToWav_format_witness :
  exists bytes : list Z,
    audioBufferToWav example_buffer = Ok bytes /\
    Z.of_nat (length bytes) = 52 /\
    getUint32 bytes 4 = Ok 44 /\
    getUint32 bytes 40 = Ok 8 /\
    getInt16 bytes 44 = Ok 16383 /\
    getInt16 bytes 50 = Ok 32767.
Proof.
  destruct (audioBufferToWav_format example_buffer)
    as (bytes & Hok & Hlen & _ & Hriff & _ & _ & _ & _ & _ & _ & _ & _ & Hdata & Hpcm).
  - split; [split; [reflexivity | repeat constructor] |].
    split; [reflexivity |]. split; [split; [discriminate | reflexivity] | reflexivity].
  - exists bytes. split; [exact Hok |]. split; [exact Hlen |].
    split; [exact Hriff |]. split; [exact Hdata |]. split.
    + destruct (Hpcm 0%nat 0%nat) as (chd & x & s & Hchd & Hx & -> & _ & _ & Hget);
        [cbn; lia | cbn; lia |].
      injection Hchd as <-. injection Hx as <-. exact Hget.
    + destruct (Hpcm 1%nat 1%nat) as (chd & x & s & Hchd & Hx & -> & _ & _ & Hget);
        [cbn; lia | cbn; lia |].
      injection Hchd as <-. injection Hx as <-. exact Hget.
Defined.

Lemma renderToBuffer_inv {host : Host} (wave : Q -> Q) (p : pattern)
    (bpm secondsLimit : Q) (buf : AudioBuffer) :
  renderToBuffer wave p bpm secondsLimit = Ok buf ->
  exists (len : nat) (voices : list voice),
    schedule_channels (rowDur_of bpm) p 0 [] = Ok voices /\
    buf = startRendering wave
            {| ctx_channels := 2; ctx_length := len; ctx_sampleRate := 44100 |} voices.
Proof.
  intros Hok.
  destruct (renderToBuffer_ok wave p bpm secondsLimit buf Hok)
    as (chan0 & ctx & voices & _ & Hctx & Hv & ->).
  destruct (OfflineAudioContext_ok _ _ _ _ Hctx) as (Hch & _ & Hrate).
  exists (ctx_length ctx), voices. split; [exact Hv |].
  destruct ctx as [channels len rate]. cbn in Hch, Hrate. subst. reflexivity.
Qed.

(** Claim C6, amended.  The renderer applies no clamp: every sample of the
    buffer it returns is the master gain times the plain sum of the
    voices.  The clamp to [-1, 1] is applied by the WAV encoder: each
    16-bit sample encoded from a rendered buffer is the truncation of the
    scaled clamped sample, and lies in [-32768, 32767]. *)
Theorem renderToBuffer_mix_clamped_by_encoder {host : Host} (wave : Q -> Q)
    (p : pattern) (bpm secondsLimit : Q) (buf : AudioBuffer) :
  renderToBuffer wave p bpm secondsLimit = Ok buf ->
  exists (voices : list voice) (bytes : list Z),
    schedule_channels (rowDur_of bpm) p 0 [] = Ok voices /\
    audioBufferToWav buf = Ok bytes /\
    forall i c : nat,
      (i < buffer_length buf)%nat -> (c < 2)%nat ->
      exists (chd : list Q) (x s : Q),
        channelData buf !! c = Some chd /\ chd !! i = Some x /\
        x = (master_gain * mix wave voices (inject_Z (Z.of_nat i) / 44100))%Q /\
        s = Qmax (-1) (Qmin 1 x) /\ (-1 <= s)%Q /\ (s <= 1)%Q /\
        getInt16 bytes (44 + 2 * (2 * i + c)) = Ok (JS.trunc (scale s)) /\
        -32768 <= JS.trunc (scale s) <= 32767.
Proof.
  intros Hok. destruct (renderToBuffer_inv wave p bpm secondsLimit buf Hok)
    as (len & voices & Hv & ->).
  exists voices. eexists. split; [exact Hv |].
  split; [apply audioBufferToWav_bytes |].
  intros i c Hi Hc.
  set (ctx := {| ctx_channels := 2; ctx_length := len; ctx_sampleRate := 44100 |}) in *.
  destruct (startRendering_lookup wave ctx voices c i Hc Hi) as (chd & Hchd & Hx).
  exists chd, (sample wave ctx voices i), (clamp (sample wave ctx voices i)).
  destruct (clamp_range (sample wave ctx voices i)) as [Hlo Hhi].
  split; [exact Hchd |]. split; [exact Hx |]. split; [reflexivity |].
  split; [reflexivity |]. split; [exact Hlo |]. split; [exact Hhi |].
  assert (Hs : sample_at (startRendering wave ctx voices) c i = sample wave ctx voices i).
  { unfold sample_at, getChannelData. rewrite Hchd. cbn [default from_option id].
    rewrite Hx. reflexivity. }
  split.
  - rewrite (encoded_sample (startRendering wave ctx voices) _ i c (length_header _ _ _) Hi Hc).
    rewrite Hs. reflexivity.
  - apply (pcm16_range (sample wave ctx voices i)).
Qed.

Lemma renderToBuffer_mix_clamped_by_encoder_witness :
  exists (buf : AudioBuffer) (bytes : list Z),
    renderToBuffer sawtooth one_note_pattern 6000 (1 # 250) = Ok buf /\
    audioBufferToWav buf = Ok bytes /\
    getInt16 bytes (44 + 2 * (2 * 150 + 0)) = Ok 126.
Proof.
  assert (Hok : exists buf, renderToBuffer sawtooth one_note_pattern 6000 (1 # 250) = Ok buf)
    by (eexists; vm_compute; reflexivity).
  destruct Hok as (buf & Hok).
  destruct (renderToBuffer_mix_clamped_by_encoder sawtooth one_note_pattern 6000 (1 # 250)
              buf Hok) as (voices & bytes & Hv & Hwav & Hsamples).
  assert (Hlen : buffer_length buf = 177%nat).
  { vm_compute in Hok. injection Hok as <-. reflexivity. }
  destruct (Hsamples 150%nat 0%nat) as (chd & x & s & _ & _ & Hmix & Hs & _ & _ & Hget & _);
    [rewrite Hlen; lia | lia |].
  vm_compute in Hv. injection Hv as <-.
  exists buf, bytes. split; [exact Hok |]. split; [exact Hwav |].
  rewrite Hget. f_equal. rewrite Hs, Hmix. vm_compute. reflexivity.
Defined.

End PipelineFacts.

(** ** Facts: Mp3Facts *)

Module Mp3Facts.
Import DataView Mp3.

(** *** De-interleaving *)

Lemma half_lt (m n : nat) : (m < n / 2)%nat -> (2 * m + 1 < n)%nat.
Proof.
  intros H. pose proof (Nat.div_mod_eq n 2) as E.
  pose proof (Nat.mod_upper_bound n 2 ltac:(lia)). lia.
Qed.

Lemma split_loop_spec (samples : list Z) (k : nat) :
  k = (length samples / 2)%nat ->
  forall (fuel i j : nat) (left right : list Z),
    i = (2 * j)%nat -> length left = k -> length right = k ->
    (length samples <= i + fuel)%nat ->
    length (fst (split_loop fuel samples i j left right)) = k /\
    length (snd (split_loop fuel samples i j left right)) = k /\
    forall m : nat, (m < k)%nat ->
      fst (split_loop fuel samples i j left right) !! m =
        (if (m <? j)%nat then left !! m else Some (default 0 (samples !! (2 * m)%nat))) /\
      snd (split_loop fuel samples i j left right) !! m =
        (if (m <? j)%nat then right !! m else Some (default 0 (samples !! (2 * m + 1)%nat))).
Proof.
  intros Hk. induction fuel as [| fuel IH]; intros i j left right Hi Hl Hr Hfuel;
    cbn [split_loop].
  - cbn [fst snd]. split; [exact Hl |]. split; [exact Hr |].
    intros m Hm. destruct (Nat.ltb_spec m j); [split; reflexivity |].
    assert (2 * m + 1 < length samples)%nat by (subst k; apply half_lt; exact Hm). lia.
  - destruct (Nat.ltb_spec i (length samples)) as [Hlt | Hge].
    + specialize (IH (i + 2)%nat (j + 1)%nat
                     (<[j := default 0 (samples !! i)]> left)
                     (<[j := default 0 (samples !! (i + 1)%nat)]> right)).
      destruct IH as (IHl & IHr & IHm);
        [lia | rewrite length_insert; exact Hl | rewrite length_insert; exact Hr | lia |].
      split; [exact IHl |]. split; [exact IHr |].
      intros m Hm. destruct (IHm m Hm) as [El Er]. rewrite El, Er. clear El Er IHm.
      destruct (Nat.ltb_spec m (j + 1)), (Nat.ltb_spec m j); try lia.
      * rewrite !list_lookup_insert_ne by lia. split; reflexivity.
      * assert (m = j) by lia. subst m i.
        rewrite !list_lookup_insert_eq by lia. split; reflexivity.
      * split; reflexivity.
    + cbn [fst snd]. split; [exact Hl |]. split; [exact Hr |].
      intros m Hm. destruct (Nat.ltb_spec m j); [split; reflexivity |].
      assert (2 * m + 1 < length samples)%nat by (subst k; apply half_lt; exact Hm). lia.
Qed.

Lemma length_every_other (samples : list Z) (from n : nat) :
  length (every_other samples from n) = n.
Proof. unfold every_other. rewrite length_map, length_seq. reflexivity. Qed.

Lemma every_other_lookup (samples : list Z) (from n m : nat) :
  (m < n)%nat ->
  every_other samples from n !! m = Some (default 0 (samples !! (2 * m + from)%nat)).
Proof.
  intros H. unfold every_other. rewrite list_lookup_fmap, lookup_seq_lt by exact H.
  reflexivity.
Qed.

(** The stereo branch yields the even-indexed and the odd-indexed samples. *)
Lemma split_channels_stereo (samples : list Z) :
  split_channels 2 samples =
  (every_other samples 0 (length samples / 2),
   every_other samples 1 (length samples / 2)).
Proof.
  unfold split_channels. cbn [Z.eqb Pos.eqb].
  set (k := (length samples / 2)%nat).
  destruct (split_loop_spec samples k eq_refl (length samples) 0 0
              (replicate k 0) (replicate k 0))
    as (Hl & Hr & Hm); [reflexivity | apply length_replicate | apply length_replicate | lia |].
  rewrite (surjective_pairing (split_loop _ _ _ _ _ _)). f_equal.
  - apply list_eq. intros m. destruct (Nat.lt_ge_cases m k) as [Hlt | Hge].
    + destruct (Hm m Hlt) as [-> _]. rewrite every_other_lookup by exact Hlt.
      cbn [Nat.ltb Nat.leb]. rewrite Nat.add_0_r. reflexivity.
    + rewrite !(proj2 (lookup_ge_None _ _)); [reflexivity | |].
      * rewrite length_every_other. exact Hge.
      * rewrite Hl. exact Hge.
  - apply list_eq. intros m. destruct (Nat.lt_ge_cases m k) as [Hlt | Hge].
    + destruct (Hm m Hlt) as [_ ->]. rewrite every_other_lookup by exact Hlt.
      reflexivity.
    + rewrite !(proj2 (lookup_ge_None _ _)); [reflexivity | |].
      * rewrite length_every_other. exact Hge.
      * rewrite Hr. exact Hge.
Qed.

Lemma split_channels_other (numChannels : Z) (samples : list Z) :
  numChannels <> 2 -> split_channels numChannels samples = (samples, samples).
Proof.
  intros H. unfold split_channels.
  destruct (Z.eqb_spec numChannels 2); [contradiction | reflexivity].
Qed.

(** *** Chunks *)

Lemma num_chunks_lt (arr : list Z) (k : nat) :
  (k * chunkSize < length arr)%nat <-> (k < num_chunks arr)%nat.
Proof. unfold num_chunks, chunkSize. cbn [Nat.sub]. split; intros H.
  - apply Nat.div_le_lower_bound; lia.
  - assert ((length arr + 1151) / 1152 * 1152 <= length arr + 1151)%nat.
    { rewrite Nat.mul_comm. apply Nat.Div0.mul_div_le. }
    nia.
Qed.

Lemma chunk_at_length (arr : list Z) (k : nat) :
  (k < num_chunks arr)%nat ->
  length (chunk_at arr k) =
    (if (S k <? num_chunks arr)%nat then chunkSize
     else length arr - k * chunkSize)%nat /\
  (0 < length (chunk_at arr k) <= chunkSize)%nat.
Proof.
  intros Hk. apply num_chunks_lt in Hk. unfold chunk_at.
  rewrite length_take, length_drop.
  destruct (Nat.ltb_spec (S k) (num_chunks arr)) as [Hn | Hn].
  - apply num_chunks_lt in Hn. unfold chunkSize in *. lia.
  - assert (~ (S k * chunkSize < length arr)%nat) by (rewrite num_chunks_lt; lia).
    unfold chunkSize in *. lia.
Qed.

Lemma chunks_concat_from (arr : list Z) (n k : nat) :
  (num_chunks arr <= k + n)%nat ->
  concat (map (chunk_at arr) (seq k n)) = drop (k * chunkSize) arr.
Proof.
  revert k. induction n as [| n IH]; intros k Hk; cbn [seq map concat].
  - symmetry. apply drop_ge.
    destruct (Nat.lt_ge_cases (k * chunkSize) (length arr)) as [C | C]; [| exact C].
    apply num_chunks_lt in C. lia.
  - rewrite IH by lia. unfold chunk_at.
    replace (S k * chunkSize)%nat with (k * chunkSize + chunkSize)%nat by lia.
    rewrite <- drop_drop. apply take_drop.
Qed.

Lemma chunks_concat (arr : list Z) :
  concat (map (chunk_at arr) (seq 0 (num_chunks arr))) = arr.
Proof. rewrite chunks_concat_from by lia. reflexivity. Qed.

Section CodecFacts.

Variable encoder : Type.
Variable Mp3Encoder : Z -> Z -> Z -> encoder.
Variable encodeBuffer : encoder -> list Z -> option (list Z) -> encoder * list Z.
Variable flush : encoder -> encoder * list Z.

#[local] Abbreviation run := (Mp3.run encoder encodeBuffer flush).
#[local] Abbreviation encode_loop := (Mp3.encode_loop encoder encodeBuffer).

Lemma run_app (calls1 calls2 : list call) (enc : encoder) :
  run enc (calls1 ++ calls2) =
  (fst (run (fst (run enc calls1)) calls2),
   snd (run enc calls1) ++ snd (run (fst (run enc calls1)) calls2)).
Proof.
  revert enc. induction calls1 as [| c calls1 IH]; intros enc; cbn [app Mp3.run].
  - cbn. apply surjective_pairing.
  - destruct (perform encoder encodeBuffer flush enc c) as [enc1 frag].
    rewrite IH. destruct (run enc1 calls1) as [enc2 frags1]. cbn [fst snd].
    destruct (run enc2 calls2) as [enc3 frags2]. reflexivity.
Qed.

Lemma encode_loop_run (numChannels : Z) (left right : list Z) :
  forall (fuel k : nat) (enc : encoder) (mp3Data : list (list Z)),
    (length left <= k * chunkSize + fuel)%nat ->
    encode_loop fuel numChannels left right (k * chunkSize) enc mp3Data =
    (fst (run enc (map (fun k => EncodeBuffer (chunk_at left k)
                                  (if numChannels =? 2 then Some (chunk_at right k) else None))
                       (seq k (num_chunks left - k)))),
     mp3Data ++
     nonempty_fragments
       (snd (run enc (map (fun k => EncodeBuffer (chunk_at left k)
                                  (if numChannels =? 2 then Some (chunk_at right k) else None))
                          (seq k (num_chunks left - k)))))).
Proof.
  induction fuel as [| fuel IH]; intros k enc mp3Data Hfuel; cbn [Mp3.encode_loop].
  - assert (Hk : (num_chunks left - k = 0)%nat).
    { destruct (Nat.lt_ge_cases k (num_chunks left)) as [C | C]; [| lia].
      apply num_chunks_lt in C. lia. }
    rewrite Hk. cbn. rewrite app_nil_r. reflexivity.
  - destruct (Nat.ltb_spec (k * chunkSize) (length left)) as [Hlt | Hge].
    + pose proof (proj1 (num_chunks_lt left k) Hlt) as Hk.
      replace (num_chunks left - k)%nat with (S (num_chunks left - S k)) by lia.
      cbn [seq map Mp3.run perform].
      unfold subarray.
      replace (k * chunkSize + chunkSize - k * chunkSize)%nat with chunkSize by lia.
      fold (chunk_at left k). fold (chunk_at right k).
      replace (k * chunkSize + chunkSize)%nat with (S k * chunkSize)%nat by lia.
      assert (Hcall :
        (if numChannels =? 2
         then encodeBuffer enc (chunk_at left k) (Some (chunk_at right k))
         else encodeBuffer enc (chunk_at left k) None) =
        encodeBuffer enc (chunk_at left k)
          (if numChannels =? 2 then Some (chunk_at right k) else None))
        by (destruct (numChannels =? 2); reflexivity).
      rewrite Hcall.
      destruct (encodeBuffer enc (chunk_at left k)
                  (if numChannels =? 2 then Some (chunk_at right k) else None))
        as [enc1 mp3buf].
      rewrite IH by (unfold chunkSize in *; lia).
      destruct (run enc1 _) as [enc2 frags]. cbn [fst snd].
      unfold push_nonempty, nonempty_fragments. cbn [List.filter].
      destruct (0 <? length mp3buf)%nat; [rewrite <- app_assoc |]; reflexivity.
    + assert (Hk : (num_chunks left - k = 0)%nat).
      { destruct (Nat.lt_ge_cases k (num_chunks left)) as [C | C]; [| lia].
        apply num_chunks_lt in C. lia. }
      rewrite Hk. cbn. rewrite app_nil_r. reflexivity.
Qed.

Lemma wavBlobToMp3Blob_run (arrayBuffer : list Z) :
  readable_wav arrayBuffer ->
  wavBlobToMp3Blob encoder Mp3Encoder encodeBuffer flush arrayBuffer =
  Ok (fst (run (Mp3Encoder (from_le (take 2 (drop 22 arrayBuffer)))
                           (from_le (take 4 (drop 24 arrayBuffer))) 128)
               (expected_calls
                  (from_le (take 2 (drop 22 arrayBuffer)))
                  (fst (split_channels (from_le (take 2 (drop 22 arrayBuffer)))
                                       (int16s (drop 44 arrayBuffer))))
                  (snd (split_channels (from_le (take 2 (drop 22 arrayBuffer)))
                                       (int16s (drop 44 arrayBuffer)))))),
      concat (nonempty_fragments
        (snd (run (Mp3Encoder (from_le (take 2 (drop 22 arrayBuffer)))
                              (from_le (take 4 (drop 24 arrayBuffer))) 128)
               (expected_calls
                  (from_le (take 2 (drop 22 arrayBuffer)))
                  (fst (split_channels (from_le (take 2 (drop 22 arrayBuffer)))
                                       (int16s (drop 44 arrayBuffer))))
                  (snd (split_channels (from_le (take 2 (drop 22 arrayBuffer)))
                                       (int16s (drop 44 arrayBuffer))))))))).
Proof.
  intros [Hlen Heven]. unfold wavBlobToMp3Blob, getUint16, getUint32, load, Int16Array.
  destruct (Nat.leb_spec (22 + 2) (length arrayBuffer)); [| lia].
  destruct (Nat.leb_spec (24 + 4) (length arrayBuffer)); [| lia].
  destruct (Nat.leb_spec (34 + 2) (length arrayBuffer)); [| lia].
  destruct (Nat.leb_spec 44 (length arrayBuffer)); [| lia].
  rewrite Heven. cbn [mbind result_bind andb].
  set (nc := from_le (take 2 (drop 22 arrayBuffer))).
  set (sr := from_le (take 4 (drop 24 arrayBuffer))).
  set (channels := split_channels nc (int16s (drop 44 arrayBuffer))).
  pose proof (encode_loop_run nc (fst channels) (snd channels)
                (length (fst channels)) 0 (Mp3Encoder nc sr 128) []) as Hloop.
  cbn [Nat.mul] in Hloop. rewrite Hloop by lia. clear Hloop.
  rewrite Nat.sub_0_r. unfold expected_calls, chunk_calls. rewrite run_app.
  destruct (run (Mp3Encoder nc sr 128) _) as [enc frags]. cbn [fst snd app Mp3.run perform].
  destruct (flush enc) as [enc' end_]. cbn [fst snd].
  unfold push_nonempty, nonempty_fragments. rewrite List.filter_app. cbn [List.filter].
  destruct (0 <? length end_)%nat; [| rewrite app_nil_r]; reflexivity.
Qed.

End CodecFacts.

Lemma recorder_run (calls : list call) (log : recorder) :
  Mp3.run recorder recorder_encodeBuffer recorder_flush log calls =
  (log ++ calls, map (fun _ => []) calls).
Proof.
  revert log. induction calls as [| c calls IH]; intros log; cbn [Mp3.run map].
  - rewrite app_nil_r. reflexivity.
  - destruct c as [l r |]; cbn [perform]; unfold recorder_encodeBuffer, recorder_flush;
      rewrite IH, <- app_assoc; reflexivity.
Qed.

Lemma nonempty_fragments_empty {A} (l : list A) :
  nonempty_fragments (map (fun _ => []) l) = [].
Proof. induction l as [| x l IH]; cbn; [reflexivity | exact IH]. Qed.

Lemma length_run (encoder : Type)
    (encodeBuffer : encoder -> list Z -> option (list Z) -> encoder * list Z)
    (flush : encoder -> encoder * list Z) (calls : list call) (enc : encoder) :
  length (snd (Mp3.run encoder encodeBuffer flush enc calls)) = length calls.
Proof.
  revert enc. induction calls as [| c calls IH]; intros enc; cbn [Mp3.run]; [reflexivity |].
  destruct (perform encoder encodeBuffer flush enc c) as [enc1 frag].
  specialize (IH enc1). destruct (Mp3.run _ _ _ enc1 calls) as [enc2 frags].
  cbn [snd length] in *. rewrite IH. reflexivity.
Qed.

(** Claim C3.  For a readable WAV blob, whatever the codec: the samples
    are de-interleaved into left and right when the header says two
    channels (otherwise both are the sample array and the codec gets the
    single-channel call); the codec receives one [encodeBuffer] call per
    chunk of 1152 samples, in increasing order, the last chunk possibly
    shorter, then exactly one [flush]; the blob is the concatenation of
    the non-empty fragments in call order, the flush fragment last.  A
    codec that records its calls ends with exactly that call list. *)
Theorem wavBlobToMp3Blob_framing (encoder : Type)
    (Mp3Encoder : Z -> Z -> Z -> encoder)
    (encodeBuffer : encoder -> list Z -> option (list Z) -> encoder * list Z)
    (flush : encoder -> encoder * list Z)
    (arrayBuffer : list Z) :
  readable_wav arrayBuffer ->
  exists (numChannels sampleRate : Z) (samples left right : list Z)
         (enc_chunks enc_end : encoder) (chunk_frags : list (list Z)) (end_ : list Z),
    getUint16 arrayBuffer 22 = Ok numChannels /\
    getUint32 arrayBuffer 24 = Ok sampleRate /\
    Int16Array arrayBuffer 44 = Ok samples /\
    (numChannels = 2 ->
     left = every_other samples 0 (length samples / 2) /\
     right = every_other samples 1 (length samples / 2)) /\
    (numChannels <> 2 -> left = samples /\ right = samples) /\
    concat (map (chunk_at left) (seq 0 (num_chunks left))) = left /\
    (forall k : nat, (k < num_chunks left)%nat ->
       length (chunk_at left k) =
         (if (S k <? num_chunks left)%nat then 1152 else length left - k * 1152)%nat /\
       (0 < length (chunk_at left k) <= 1152)%nat) /\
    Mp3.run encoder encodeBuffer flush (Mp3Encoder numChannels sampleRate 128)
      (chunk_calls numChannels left right) = (enc_chunks, chunk_frags) /\
    length chunk_frags = num_chunks left /\
    flush enc_chunks = (enc_end, end_) /\
    wavBlobToMp3Blob encoder Mp3Encoder encodeBuffer flush arrayBuffer =
      Ok (enc_end, concat (nonempty_fragments (chunk_frags ++ [end_]))) /\
    wavBlobToMp3Blob recorder recorder_new recorder_encodeBuffer recorder_flush arrayBuffer =
      Ok (chunk_calls numChannels left right ++ [Flush], []).
Proof.
  intros Hwav.
  pose proof (wavBlobToMp3Blob_run encoder Mp3Encoder encodeBuffer flush arrayBuffer Hwav)
    as Hrun.
  pose proof (wavBlobToMp3Blob_run recorder recorder_new recorder_encodeBuffer
                recorder_flush arrayBuffer Hwav) as Hrec.
  destruct Hwav as [Hlen Heven].
  set (nc := from_le (take 2 (drop 22 arrayBuffer))) in *.
  set (sr := from_le (take 4 (drop 24 arrayBuffer))) in *.
  set (samples := int16s (drop 44 arrayBuffer)) in *.
  set (left := fst (split_channels nc samples)) in *.
  set (right := snd (split_channels nc samples)) in *.
  unfold expected_calls in Hrun, Hrec. rewrite run_app in Hrun.
  pose proof (length_run encoder encodeBuffer flush (chunk_calls nc left right)
                (Mp3Encoder nc sr 128)) as Hfrags.
  destruct (Mp3.run encoder encodeBuffer flush (Mp3Encoder nc sr 128)
              (chunk_calls nc left right)) as [enc_chunks chunk_frags] eqn:Hchunks.
  cbn [fst snd Mp3.run perform] in Hrun, Hfrags.
  destruct (flush enc_chunks) as [enc_end end_] eqn:Hflush. cbn [fst snd] in Hrun.
  exists nc, sr, samples, left, right, enc_chunks, enc_end, chunk_frags, end_.
  split. { unfold getUint16, load. destruct (Nat.leb_spec (22 + 2) (length arrayBuffer)); [reflexivity | lia]. }
  split. { unfold getUint32, load. destruct (Nat.leb_spec (24 + 4) (length arrayBuffer)); [reflexivity | lia]. }
  split. { unfold Int16Array. destruct (Nat.leb_spec 44 (length arrayBuffer)); [| lia].
           rewrite Heven. reflexivity. }
  split. { intros E. unfold left, right. rewrite E, split_channels_stereo. split; reflexivity. }
  split. { intros E. unfold left, right. rewrite (split_channels_other nc samples E).
           split; reflexivity. }
  split; [apply chunks_concat |].
  split; [intros k Hk; apply (chunk_at_length left k Hk) |].
  split; [exact Hchunks |].
  split. { rewrite Hfrags. unfold chunk_calls. rewrite length_map, length_seq. reflexivity. }
  split; [exact Hflush |].
  split; [exact Hrun |].
  rewrite Hrec, recorder_run. cbn [fst snd app recorder_new].
  rewrite nonempty_fragments_empty. reflexivity.
Qed.

Lemma wavBlobToMp3Blob_framing_witness :
  wavBlobToMp3Blob recorder recorder_new recorder_encodeBuffer recorder_flush example_wav =
  Ok ([EncodeBuffer [1; 3] (Some [2; -1]); Flush], []).
Proof.
  destruct (wavBlobToMp3Blob_framing recorder recorder_new recorder_encodeBuffer
              recorder_flush example_wav)
    as (nc & sr & samples & left & right & e1 & e2 & fr & end_ &
        Hnc & _ & Hs & Hst & _ & _ & _ & _ & _ & _ & _ & Hrec).
  - split; [cbn; lia | reflexivity].
  - rewrite Hrec. vm_compute in Hnc. injection Hnc as <-.
    vm_compute in Hs. injection Hs as <-.
    destruct (Hst eq_refl) as [-> ->]. reflexivity.
Defined.

End Mp3Facts.


(** * Further properties *)

(** ** Facts: PitchMapperMore *)

Module PitchMapperMore.
Import PitchMapper PitchMapperFacts.

Lemma template_first_char (o : option string) (t : string) :
  (forall n, o = Some n -> n ∈ NOTE_NAMES) ->
  exists c s, (JS.template o +:+ t)%string = String c s /\ c <> "-"%char.
Proof.
  intros H. destruct o as [n |].
  - specialize (H n eq_refl). unfold NOTE_NAMES in H. cbn [JS.template].
    repeat (apply elem_of_cons in H as [-> | H];
            [eexists _, _; split; [reflexivity | discriminate] |]).
    inversion H.
  - eexists _, _. split; [reflexivity | discriminate].
Qed.

Lemma index_elem_of {A} (arr : list A) (i : Z) (x : A) :
  JS.index arr i = Some x -> x ∈ arr.
Proof.
  unfold JS.index. destruct (i <? 0); [discriminate |].
  intros H. apply list_elem_of_lookup. eauto.
Qed.

Lemma note_elem_of (f : Q) (n : string) : note f = Some n -> n ∈ NOTE_NAMES.
Proof. apply index_elem_of. Qed.

Lemma freqToNoteName_positive_not_sentinel (q : Q) :
  (0 < q)%Q -> freqToNoteName (JNum q) <> "--"%string.
Proof.
  intros Hpos H.
  rewrite (freqToNoteName_unfold q (no_freq_positive q Hpos)) in H.
  destruct (template_first_char (note q) (JS.string_of_Z (octave q)) (note_elem_of q))
    as (c & s & E & Hc).
  rewrite E in H. injection H as H _. contradiction.
Qed.

(** Property X1.  The sentinel ["--"] is returned exactly for a missing,
    [NaN] or non-positive frequency: a positive frequency never maps to
    it. *)
Theorem freqToNoteName_sentinel_iff (freq : jsval) :
  freqToNoteName freq = "--"%string <->
  (freq = JUndefined \/ freq = JNaN \/ exists q, freq = JNum q /\ (q <= 0)%Q).
Proof.
  split.
  - destruct freq as [| | q]; [left; reflexivity | right; left; reflexivity |].
    intros H. right. right. exists q. split; [reflexivity |].
    destruct (Qlt_le_dec 0 q) as [Hpos | Hle]; [| exact Hle].
    exfalso. exact (freqToNoteName_positive_not_sentinel q Hpos H).
  - intros [-> | [-> | (q & -> & Hq)]]; try reflexivity.
    unfold freqToNoteName, no_freq. apply Qle_bool_iff in Hq. rewrite Hq. reflexivity.
Qed.

(** Property X3.  The semitone offset, hence the MIDI number, never
    decreases when the frequency increases. *)
Theorem midi_monotone (f g : Q) :
  (0 < f)%Q -> (f <= g)%Q -> midi f <= midi g.
Proof.
  intros Hf Hfg.
  assert (Hg : (0 < g)%Q) by (eapply Qlt_le_trans; eassumption).
  destruct (round_12log2_spec (f / A4) (A4_ratio_pos f Hf)) as [Hlo _].
  destruct (round_12log2_spec (g / A4) (A4_ratio_pos g Hg)) as [_ Hhi].
  assert (Hpow : ((f / A4) ^ 24 <= (g / A4) ^ 24)%Q).
  { assert (Hr : (f / A4 <= g / A4)%Q).
    { unfold Qdiv. apply Qmult_le_compat_r; [exact Hfg | discriminate]. }
    pose proof (A4_ratio_pos f Hf) as Hfp.
    generalize dependent (g / A4)%Q. generalize dependent (f / A4)%Q.
    intros a _ Ha b _ Hab.
    change 24 with (Z.of_nat 24). generalize 24%nat as n.
    induction n as [| n IH]; [apply Qle_refl |].
    rewrite Nat2Z.inj_succ. unfold Z.succ.
    rewrite !Qpower_plus' by lia. rewrite !Qpower_1_r.
    apply Qle_trans with (a ^ Z.of_nat n * b)%Q.
    - apply Qmult_le_l; [apply Qpower_0_lt; exact Ha | exact Hab].
    - apply Qmult_le_compat_r; [exact IH |].
      apply Qlt_le_weak. eapply Qlt_le_trans; eassumption. }
  assert (H : 2 * round_12log2 (f / A4) - 1 < 2 * round_12log2 (g / A4) + 1).
  { apply (Qpower_lt_compat_l_inv 2); [| reflexivity].
    eapply Qle_lt_trans; [exact Hlo |]. eapply Qle_lt_trans; [exact Hpow | exact Hhi]. }
  unfold midi, semitones.
  generalize dependent (round_12log2 (f / A4)). generalize dependent (round_12log2 (g / A4)).
  intros. lia.
Qed.

Lemma midi_monotone_witness : midi 440 <= midi 880.
Proof. apply (midi_monotone 440 880); discriminate || reflexivity. Defined.

End PitchMapperMore.

(** ** Facts: ExportFacts *)

Module ExportFacts.
Import DataView Wav Mp3 Examples RenderFacts WavFacts PipelineFacts Mp3Facts.

(** *** Quantisation *)

Lemma trunc_nonneg (x : Q) : (0 <= x)%Q -> JS.trunc x = Qfloor x.
Proof.
  destruct x as [a b]. unfold Qle, JS.trunc, Qfloor. cbn [Qnum Qden]. intros H.
  apply Z.quot_div_nonneg; lia.
Qed.

Lemma trunc_negative (x : Q) : (x <= 0)%Q -> JS.trunc x = Qceiling x.
Proof.
  destruct x as [a b]. unfold Qle, JS.trunc, Qceiling, Qfloor, Qopp. cbn [Qnum Qden].
  intros H. rewrite <- (Z.opp_involutive a) at 1.
  rewrite Z.quot_opp_l by lia. rewrite Z.quot_div_nonneg by lia. reflexivity.
Qed.

Lemma trunc_monotone (x y : Q) : (x <= y)%Q -> JS.trunc x <= JS.trunc y.
Proof.
  intros H.
  destruct (Qlt_le_dec x 0) as [Hx | Hx], (Qlt_le_dec y 0) as [Hy | Hy].
  - rewrite !trunc_negative by (apply Qlt_le_weak; assumption).
    apply Qceiling_resp_le. exact H.
  - rewrite (trunc_negative x) by (apply Qlt_le_weak; assumption).
    rewrite (trunc_nonneg y Hy).
    apply Z.le_trans with 0.
    + change 0 with (Qceiling 0). apply Qceiling_resp_le, Qlt_le_weak. exact Hx.
    + change 0 with (Qfloor 0). apply Qfloor_resp_le. exact Hy.
  - exfalso. apply (Qlt_irrefl 0).
    eapply Qle_lt_trans; [exact Hx |]. eapply Qle_lt_trans; eassumption.
  - rewrite !trunc_nonneg by assumption. apply Qfloor_resp_le. exact H.
Qed.

Lemma clamp_monotone (x y : Q) : (x <= y)%Q -> (clamp x <= clamp y)%Q.
Proof.
  intros H. unfold clamp. apply Q.max_le_compat_l, Q.min_le_compat_l. exact H.
Qed.

Lemma scale_negative (s : Q) : (s < 0)%Q -> scale s = (s * 32768)%Q.
Proof. intros H. unfold scale. rewrite (Qltb_true s 0 H). reflexivity. Qed.

Lemma scale_nonneg (s : Q) : (0 <= s)%Q -> scale s = (s * 32767)%Q.
Proof. intros H. unfold scale. rewrite (Qltb_false s 0 H). reflexivity. Qed.

Lemma scale_monotone (s t : Q) : (s <= t)%Q -> (scale s <= scale t)%Q.
Proof.
  intros H.
  destruct (Qlt_le_dec s 0) as [Hs | Hs], (Qlt_le_dec t 0) as [Ht | Ht].
  - rewrite !scale_negative by assumption.
    apply Qmult_le_compat_r; [exact H | discriminate].
  - rewrite (scale_negative s Hs), (scale_nonneg t Ht).
    apply Qle_trans with 0%Q.
    + apply Qle_trans with (0 * 32768)%Q; [| discriminate].
      apply Qmult_le_compat_r; [apply Qlt_le_weak; exact Hs | discriminate].
    + apply Qmult_le_0_compat; [exact Ht | discriminate].
  - exfalso. apply (Qlt_irrefl 0).
    eapply Qle_lt_trans; [exact Hs |]. eapply Qle_lt_trans; eassumption.
  - rewrite !scale_nonneg by assumption.
    apply Qmult_le_compat_r; [exact H | discriminate].
Qed.

Lemma trunc_error (x : Q) :
  (inject_Z (JS.trunc x) - 1 < x)%Q /\ (x < inject_Z (JS.trunc x) + 1)%Q.
Proof.
  destruct (Qlt_le_dec x 0) as [Hx | Hx].
  - rewrite (trunc_negative x (Qlt_le_weak _ _ Hx)). split.
    + pose proof (Qceiling_lt x) as H. unfold Z.sub in H.
      rewrite inject_Z_plus, inject_Z_opp in H. exact H.
    + apply Qle_lt_trans with (inject_Z (Qceiling x)); [apply Qle_ceiling |].
      rewrite <- (Qplus_0_r (inject_Z (Qceiling x))) at 1.
      apply Qplus_lt_r. reflexivity.
  - rewrite (trunc_nonneg x Hx). split.
    + apply Qlt_le_trans with (inject_Z (Qfloor x)); [| apply Qfloor_le].
      rewrite <- (Qplus_0_r (inject_Z (Qfloor x))) at 2.
      unfold Qminus. apply Qplus_lt_r. reflexivity.
    + pose proof (Qlt_floor x) as H. rewrite inject_Z_plus in H. exact H.
Qed.

(** Property X4.  The 16-bit sample of a float: within one unit of the
    scaled clamped sample, full scale at and beyond +1 and -1 (32767 and
    -32768), zero at zero, and never decreasing in the sample. *)
Theorem pcm16_quantisation (x y : Q) :
  (inject_Z (pcm16 x) - 1 < scale (clamp x))%Q /\
  (scale (clamp x) < inject_Z (pcm16 x) + 1)%Q /\
  ((1 <= x)%Q -> pcm16 x = 32767) /\
  ((x <= -1)%Q -> pcm16 x = -32768) /\
  ((x == 0)%Q -> pcm16 x = 0) /\
  ((x <= y)%Q -> pcm16 x <= pcm16 y).
Proof.
  unfold pcm16.
  split; [apply trunc_error |]. split; [apply trunc_error |].
  split; [| split; [| split]].
  - intros H. assert (E : (clamp x == 1)%Q).
    { unfold clamp. rewrite (Q.min_l 1 x H). apply Q.max_r. discriminate. }
    assert (Es : (scale (clamp x) == 32767)%Q).
    { rewrite scale_nonneg by (rewrite E; discriminate). rewrite E. reflexivity. }
    rewrite trunc_nonneg by (rewrite Es; discriminate).
    rewrite (Qfloor_comp _ _ Es). reflexivity.
  - intros H. assert (E : (clamp x == -1)%Q).
    { unfold clamp. rewrite (Q.min_r 1 x).
      - apply Q.max_l. exact H.
      - apply Qle_trans with (-1)%Q; [exact H | discriminate]. }
    assert (Es : (scale (clamp x) == -32768)%Q).
    { rewrite scale_negative by (rewrite E; reflexivity). rewrite E. reflexivity. }
    rewrite trunc_negative by (rewrite Es; discriminate).
    rewrite (Qceiling_comp _ _ Es). reflexivity.
  - intros H. assert (E : (clamp x == 0)%Q).
    { unfold clamp. rewrite (Q.min_r 1 x) by (rewrite H; discriminate).
      rewrite H. reflexivity. }
    assert (Es : (scale (clamp x) == 0)%Q).
    { rewrite scale_nonneg by (rewrite E; discriminate). rewrite E. reflexivity. }
    rewrite trunc_nonneg by (rewrite Es; discriminate).
    rewrite (Qfloor_comp _ _ Es). reflexivity.
  - intros H. apply trunc_monotone, scale_monotone, clamp_monotone. exact H.
Qed.

Lemma int16s_pcm16 (xs : list Q) :
  int16s (flat_map (fun x => le_bytes 2 (pcm16 x)) xs) = map pcm16 xs.
Proof.
  induction xs as [| x xs IH]; [reflexivity |].
  cbn [flat_map map].
  change (le_bytes 2 (pcm16 x) ++ flat_map (fun x => le_bytes 2 (pcm16 x)) xs)
    with (pcm16 x mod 256 :: pcm16 x / 256 mod 256
            :: flat_map (fun x => le_bytes 2 (pcm16 x)) xs).
  cbn [int16s]. rewrite IH. f_equal.
  change [pcm16 x mod 256; pcm16 x / 256 mod 256] with (le_bytes 2 (pcm16 x)).
  rewrite from_le_bytes. change (256 ^ Z.of_nat 2) with 65536.
  apply to_signed_16, pcm16_range.
Qed.

Lemma Int16Array_after_header (hd : list Z) (xs : list Q) :
  length hd = 44%nat ->
  Int16Array (hd ++ flat_map (fun x => le_bytes 2 (pcm16 x)) xs) 44 = Ok (map pcm16 xs).
Proof.
  intros Hhd. unfold Int16Array. rewrite length_app, Hhd.
  rewrite (flat_map_length_const _ 2) by (intros x; apply length_le_bytes).
  destruct (Nat.leb_spec 44 (44 + 2 * length xs)); [| lia].
  replace (44 + 2 * length xs - 44)%nat with (2 * length xs)%nat by lia.
  rewrite Nat.even_mul. cbn [Nat.even orb andb].
  rewrite <- Hhd, drop_app_length, int16s_pcm16. reflexivity.
Qed.

(** Property X5.  Decoding the encoder's output as 16-bit PCM gives back
    one sample per frame and channel, in interleaved order, each the
    quantised float. *)
Theorem audioBufferToWav_decode (buffer : AudioBuffer) :
  wf_buffer buffer ->
  exists (bytes samples : list Z),
    audioBufferToWav buffer = Ok bytes /\
    Int16Array bytes 44 = Ok samples /\
    length samples = (numberOfChannels buffer * buffer_length buffer)%nat /\
    forall (i c : nat) (chd : list Q) (x : Q),
      channelData buffer !! c = Some chd -> chd !! i = Some x ->
      samples !! (numberOfChannels buffer * i + c)%nat = Some (pcm16 x).
Proof.
  intros Hwf. eexists _, _. split; [apply audioBufferToWav_bytes |].
  split; [apply Int16Array_after_header, length_header |].
  split; [rewrite length_map; apply length_interleaved |].
  intros i c chd x Hchd Hx. destruct Hwf as [Hlen Hall].
  assert (Hc : (c < numberOfChannels buffer)%nat).
  { rewrite <- Hlen. eapply lookup_lt_Some. exact Hchd. }
  assert (Hi : (i < buffer_length buffer)%nat).
  { rewrite Forall_forall in Hall. rewrite <- (Hall chd).
    - eapply lookup_lt_Some. exact Hx.
    - apply list_elem_of_lookup. eauto. }
  rewrite list_lookup_fmap, (interleaved_lookup buffer i c Hi Hc). cbn.
  unfold sample_at, getChannelData. rewrite Hchd. cbn. rewrite Hx. reflexivity.
Qed.

Lemma audioBufferToWav_decode_witness :
  exists bytes : list Z,
    audioBufferToWav mono_example = Ok bytes /\
    Int16Array bytes 44 = Ok [32767; -32768; 16383].
Proof.
  destruct (audioBufferToWav_decode mono_example) as (bytes & samples & Hok & Hs & Hlen & Hall).
  - split; [reflexivity | repeat constructor].
  - exists bytes. split; [exact Hok |].
    vm_compute in Hok. injection Hok as <-. vm_compute. reflexivity.
Defined.

Lemma header_field (ch sr d : Z) (pcm : list Z) (off n : nat) :
  (off + n <= 44)%nat ->
  take n (drop off (header ch sr d ++ pcm)) = take n (drop off (header ch sr d)).
Proof.
  intros Hfit. rewrite drop_app_le by (rewrite length_header; lia).
  apply take_app_le. rewrite length_drop, length_header. lia.
Qed.

Lemma wav_channels (ch sr d : Z) (pcm : list Z) :
  0 <= ch < 2 ^ 16 ->
  from_le (take 2 (drop 22 (header ch sr d ++ pcm))) = ch.
Proof.
  intros H. rewrite header_field by lia.
  change (take 2 (drop 22 (header ch sr d))) with (le_bytes 2 ch).
  rewrite from_le_bytes. apply Z.mod_small. exact H.
Qed.

Lemma wav_sampleRate (ch sr d : Z) (pcm : list Z) :
  0 <= sr < 2 ^ 32 ->
  from_le (take 4 (drop 24 (header ch sr d ++ pcm))) = sr.
Proof.
  intros H. rewrite header_field by lia.
  change (take 4 (drop 24 (header ch sr d))) with (le_bytes 4 sr).
  rewrite from_le_bytes. apply Z.mod_small. exact H.
Qed.

Lemma readable_encoded (hd : list Z) (xs : list Q) :
  length hd = 44%nat ->
  readable_wav (hd ++ flat_map (fun x => le_bytes 2 (pcm16 x)) xs).
Proof.
  intros Hhd. unfold readable_wav. rewrite length_app, Hhd.
  rewrite (flat_map_length_const _ 2) by (intros x; apply length_le_bytes).
  split; [lia |].
  replace (44 + 2 * length xs - 44)%nat with (2 * length xs)%nat by lia.
  rewrite Nat.even_mul. reflexivity.
Qed.

Lemma int16s_encoded (hd : list Z) (xs : list Q) :
  length hd = 44%nat ->
  int16s (drop 44 (hd ++ flat_map (fun x => le_bytes 2 (pcm16 x)) xs)) = map pcm16 xs.
Proof. intros Hhd. rewrite <- Hhd, drop_app_length. apply int16s_pcm16. Qed.

(** The interleaved samples of a stereo and of a mono buffer. *)
Lemma interleaved_stereo (b : AudioBuffer) (c0 c1 : list Q) :
  wf_buffer b -> channelData b = [c0; c1] ->
  every_other (map pcm16 (interleaved b)) 0 (length (map pcm16 (interleaved b)) / 2)
    = map pcm16 c0 /\
  every_other (map pcm16 (interleaved b)) 1 (length (map pcm16 (interleaved b)) / 2)
    = map pcm16 c1.
Proof.
  intros [Hn Hall] Hcd. rewrite Hcd in Hn, Hall. cbn [length] in Hn.
  apply Forall_cons in Hall as [H0 Hall]. apply Forall_cons in Hall as [H1 _].
  rewrite length_map, length_interleaved, <- Hn.
  replace (2 * buffer_length b / 2)%nat with (buffer_length b)
    by (rewrite Nat.mul_comm, Nat.div_mul; lia).
  assert (Hlook : forall (c j : nat) (chd : list Q),
             [c0; c1] !! c = Some chd -> (j < buffer_length b)%nat ->
             map pcm16 (interleaved b) !! (2 * j + c)%nat = pcm16 <$> chd !! j).
  { intros c j chd Hc Hj. rewrite list_lookup_fmap.
    assert (Hcl : (c < numberOfChannels b)%nat).
    { rewrite <- Hn. apply lookup_lt_Some in Hc. exact Hc. }
    pose proof (interleaved_lookup b j c Hj Hcl) as Hi. rewrite <- Hn in Hi.
    rewrite Hi. unfold sample_at, getChannelData. rewrite Hcd, Hc. cbn.
    destruct (lookup_lt_is_Some_2 chd j) as [x Hx].
    { assert (length chd = buffer_length b).
      { destruct c as [| [| c]]; cbn in Hc; [| | discriminate];
          injection Hc as <-; assumption. }
      lia. }
    rewrite Hx. reflexivity. }
  split; apply list_eq; intros j;
    (destruct (Nat.lt_ge_cases j (buffer_length b)) as [Hj | Hj];
     [ rewrite every_other_lookup by exact Hj
     | rewrite !(proj2 (lookup_ge_None _ _));
       [reflexivity | rewrite length_map; lia | rewrite length_every_other; lia] ]).
  - rewrite (Hlook 0%nat j c0 eq_refl Hj).
    destruct (lookup_lt_is_Some_2 c0 j) as [x Hx]; [lia |].
    rewrite list_lookup_fmap, Hx. reflexivity.
  - rewrite (Hlook 1%nat j c1 eq_refl Hj).
    destruct (lookup_lt_is_Some_2 c1 j) as [x Hx]; [lia |].
    rewrite list_lookup_fmap, Hx. reflexivity.
Qed.

Lemma interleaved_mono (b : AudioBuffer) (c0 : list Q) :
  wf_buffer b -> channelData b = [c0] -> interleaved b = c0.
Proof.
  intros [Hn Hall] Hcd. rewrite Hcd in Hn, Hall. cbn [length] in Hn.
  apply Forall_cons in Hall as [H0 _].
  apply list_eq. intros j.
  destruct (Nat.lt_ge_cases j (buffer_length b)) as [Hj | Hj].
  - pose proof (interleaved_lookup b j 0 Hj ltac:(lia)) as Hi. rewrite <- Hn in Hi.
    replace (1 * j + 0)%nat with j in Hi by lia. rewrite Hi.
    unfold sample_at, getChannelData. rewrite Hcd. cbn.
    destruct (lookup_lt_is_Some_2 c0 j) as [x Hx]; [lia |]. rewrite Hx. reflexivity.
  - rewrite !(proj2 (lookup_ge_None _ _)); [reflexivity | lia |].
    rewrite length_interleaved, <- Hn. lia.
Qed.

Section Pipeline.

Variable encoder : Type.
Variable Mp3Encoder : Z -> Z -> Z -> encoder.
Variable encodeBuffer : encoder -> list Z -> option (list Z) -> encoder * list Z.
Variable flush : encoder -> encoder * list Z.

(** Property X6.  Exporting a stereo buffer to MP3: the codec is created
    for 2 channels at the buffer's sample rate and 128 kbps, and receives
    the quantised left channel and the quantised right channel, chunk by
    chunk, then one flush. *)
Theorem export_mp3_stereo (b : AudioBuffer) (c0 c1 : list Q) :
  valid_buffer b -> channelData b = [c0; c1] ->
  exists (bytes : list Z) (enc : encoder) (frags : list (list Z)),
    audioBufferToWav b = Ok bytes /\
    Mp3.run encoder encodeBuffer flush (Mp3Encoder 2 (sampleRate b) 128)
      (chunk_calls 2 (map pcm16 c0) (map pcm16 c1) ++ [Flush]) = (enc, frags) /\
    wavBlobToMp3Blob encoder Mp3Encoder encodeBuffer flush bytes =
      Ok (enc, concat (nonempty_fragments frags)).
Proof.
  intros (Hwf & Hch & Hsr & Hsize) Hcd.
  assert (Hn : numberOfChannels b = 2%nat).
  { destruct Hwf as [Hn _]. rewrite Hcd in Hn. symmetry. exact Hn. }
  eexists _, _, _. split; [apply audioBufferToWav_bytes |].
  rewrite (wavBlobToMp3Blob_run encoder Mp3Encoder encodeBuffer flush _
             (readable_encoded _ _ (length_header _ _ _))).
  rewrite wav_channels by (rewrite Hn; cbn; lia).
  rewrite wav_sampleRate by exact Hsr.
  rewrite int16s_encoded by apply length_header.
  rewrite Hn. change (Z.of_nat 2) with 2.
  rewrite split_channels_stereo. cbn [fst snd].
  destruct (interleaved_stereo b c0 c1 Hwf Hcd) as [-> ->].
  unfold expected_calls. split; [apply surjective_pairing | reflexivity].
Qed.

(** Property X7.  Exporting a mono buffer to MP3: the codec is created for
    1 channel and receives the quantised samples through the
    single-channel call. *)
Theorem export_mp3_mono (b : AudioBuffer) (c0 : list Q) :
  valid_buffer b -> channelData b = [c0] ->
  exists (bytes : list Z) (enc : encoder) (frags : list (list Z)),
    audioBufferToWav b = Ok bytes /\
    Mp3.run encoder encodeBuffer flush (Mp3Encoder 1 (sampleRate b) 128)
      (map (fun k => EncodeBuffer (chunk_at (map pcm16 c0) k) None)
           (seq 0 (num_chunks (map pcm16 c0))) ++ [Flush]) = (enc, frags) /\
    wavBlobToMp3Blob encoder Mp3Encoder encodeBuffer flush bytes =
      Ok (enc, concat (nonempty_fragments frags)).
Proof.
  intros (Hwf & Hch & Hsr & Hsize) Hcd.
  assert (Hn : numberOfChannels b = 1%nat).
  { destruct Hwf as [Hn _]. rewrite Hcd in Hn. symmetry. exact Hn. }
  eexists _, _, _. split; [apply audioBufferToWav_bytes |].
  rewrite (wavBlobToMp3Blob_run encoder Mp3Encoder encodeBuffer flush _
             (readable_encoded _ _ (length_header _ _ _))).
  rewrite wav_channels by (rewrite Hn; cbn; lia).
  rewrite wav_sampleRate by exact Hsr.
  rewrite int16s_encoded by apply length_header.
  rewrite Hn. change (Z.of_nat 1) with 1.
  rewrite split_channels_other by discriminate. cbn [fst snd].
  rewrite (interleaved_mono b c0 Hwf Hcd).
  unfold expected_calls, chunk_calls. cbn [Z.eqb Pos.eqb].
  split; [apply surjective_pairing | reflexivity].
Qed.

(** Property X8.  A blob that is too short for a header, or whose sample
    data has an odd number of bytes, makes [wavBlobToMp3Blob] fail with a
    [RangeError], whatever the codec functions: the error comes from the
    header reads or from the [Int16Array] view. *)
Theorem wavBlobToMp3Blob_unreadable (arrayBuffer : list Z) :
  ~ readable_wav arrayBuffer ->
  wavBlobToMp3Blob encoder Mp3Encoder encodeBuffer flush arrayBuffer = Throw RangeError.
Proof.
  intros Hbad. unfold wavBlobToMp3Blob, getUint16, getUint32, load, Int16Array.
  destruct (Nat.leb_spec (22 + 2) (length arrayBuffer)); [| reflexivity].
  destruct (Nat.leb_spec (24 + 4) (length arrayBuffer)); [| reflexivity].
  destruct (Nat.leb_spec (34 + 2) (length arrayBuffer)); [| reflexivity].
  cbn [mbind result_bind].
  destruct (Nat.leb_spec 44 (length arrayBuffer)); [| reflexivity].
  destruct (Nat.even (length arrayBuffer - 44)) eqn:E; [| reflexivity].
  exfalso. apply Hbad. split; assumption.
Qed.

End Pipeline.

Lemma export_mp3_stereo_witness :
  exists bytes : list Z,
    audioBufferToWav example_buffer = Ok bytes /\
    wavBlobToMp3Blob recorder recorder_new recorder_encodeBuffer recorder_flush bytes =
      Ok ([EncodeBuffer [16383; -32768] (Some [-8192; 32767]); Flush], []).
Proof.
  destruct (export_mp3_stereo recorder recorder_new recorder_encodeBuffer recorder_flush
              example_buffer [0.5%Q; (-2)%Q] [(-0.25)%Q; 1%Q])
    as (bytes & enc & frags & Hok & Hrun & Hmp3).
  - split; [split; [reflexivity | repeat constructor] |].
    split; [reflexivity |]. split; [split; [discriminate | reflexivity] | reflexivity].
  - reflexivity.
  - exists bytes. split; [exact Hok |]. rewrite Hmp3.
    vm_compute in Hrun. injection Hrun as <- <-. reflexivity.
Defined.

Lemma export_mp3_mono_witness :
  exists bytes : list Z,
    audioBufferToWav mono_example = Ok bytes /\
    wavBlobToMp3Blob recorder recorder_new recorder_encodeBuffer recorder_flush bytes =
      Ok ([EncodeBuffer [32767; -32768; 16383] None; Flush], []).
Proof.
  destruct (export_mp3_mono recorder recorder_new recorder_encodeBuffer recorder_flush
              mono_example [1%Q; (-1)%Q; 0.5%Q])
    as (bytes & enc & frags & Hok & Hrun & Hmp3).
  - split; [split; [reflexivity | repeat constructor] |].
    split; [reflexivity |]. split; [split; [discriminate | reflexivity] | reflexivity].
  - reflexivity.
  - exists bytes. split; [exact Hok |]. rewrite Hmp3.
    vm_compute in Hrun. injection Hrun as <- <-. reflexivity.
Defined.

Lemma wavBlobToMp3Blob_unreadable_witness :
  ~ readable_wav (replicate 45 0) /\
  wavBlobToMp3Blob recorder recorder_new recorder_encodeBuffer recorder_flush
    (replicate 45 0) = Throw RangeError.
Proof.
  assert (Hbad : ~ readable_wav (replicate 45 0)).
  { intros [_ Heven]. vm_compute in Heven. discriminate. }
  split; [exact Hbad |].
  apply (wavBlobToMp3Blob_unreadable recorder recorder_new recorder_encodeBuffer
           recorder_flush (replicate 45 0) Hbad).
Defined.

End ExportFacts.

(** ** Facts: RenderMore *)

Module RenderMore.
Import Render Editor RenderFacts PipelineFacts.

(** *** The renderer reads only whether a cell is silent *)

Lemma schedule_rows_same_silence (ci : nat) (rowDur : jsnum)
    (chan chan' : list (option cell)) :
  Forall2 (fun a b => silent a = silent b) chan chan' ->
  forall (ri : nat) (acc : list voice),
    schedule_rows ci rowDur chan ri acc = schedule_rows ci rowDur chan' ri acc.
Proof.
  induction 1 as [| a b chan chan' Hab _ IH]; intros ri acc; cbn [schedule_rows];
    [reflexivity |].
  rewrite Hab. destruct (silent b); [apply IH |].
  destruct (schedule_note ci _) as [v | e]; cbn [mbind result_bind]; [apply IH | reflexivity].
Qed.

Lemma schedule_channels_same_silence (rowDur : jsnum) (p p' : pattern) :
  Forall2 (Forall2 (fun a b => silent a = silent b)) p p' ->
  forall (ci : nat) (acc : list voice),
    schedule_channels rowDur p ci acc = schedule_channels rowDur p' ci acc.
Proof.
  induction 1 as [| chan chan' p p' Hc _ IH]; intros ci acc; cbn [schedule_channels];
    [reflexivity |].
  rewrite (schedule_rows_same_silence ci rowDur chan chan' Hc).
  destruct (schedule_rows ci rowDur chan' 0 acc) as [acc' | e]; cbn [mbind result_bind];
    [apply IH | reflexivity].
Qed.

(** [renderToBuffer] reads a pattern through the length of its first
    channel and through the voices it schedules. *)
Lemma renderToBuffer_ext {host : Host} (wave : Q -> Q) (p p' : pattern)
    (bpm secondsLimit : Q) :
  length <$> p !! 0%nat = length <$> p' !! 0%nat ->
  schedule_channels (rowDur_of bpm) p 0 [] = schedule_channels (rowDur_of bpm) p' 0 [] ->
  renderToBuffer wave p bpm secondsLimit = renderToBuffer wave p' bpm secondsLimit.
Proof.
  intros Hlen Hv. unfold renderToBuffer. rewrite Hv.
  destruct (p !! 0%nat) as [c |], (p' !! 0%nat) as [c' |]; try discriminate Hlen;
    [| reflexivity].
  injection Hlen as ->. reflexivity.
Qed.

Lemma same_silence_first_length (p p' : pattern) :
  Forall2 (Forall2 (fun a b => silent a = silent b)) p p' ->
  length <$> p !! 0%nat = length <$> p' !! 0%nat.
Proof.
  intros [| chan chan' q q' Hc _]; [reflexivity |].
  cbn. rewrite (Forall2_length _ _ _ Hc). reflexivity.
Qed.

(** Property X9.  The rendered audio depends on a pattern only through
    which cells are silent: the note written in a cell (and its instrument
    and volume) changes nothing, the pitch being that of the channel. *)
Theorem renderToBuffer_ignores_notes {host : Host} (wave : Q -> Q) (p p' : pattern)
    (bpm secondsLimit : Q) :
  Forall2 (Forall2 (fun a b => silent a = silent b)) p p' ->
  renderToBuffer wave p bpm secondsLimit = renderToBuffer wave p' bpm secondsLimit.
Proof.
  intros H. apply renderToBuffer_ext.
  - apply same_silence_first_length, H.
  - apply schedule_channels_same_silence, H.
Qed.

Lemma renderToBuffer_ignores_notes_witness :
  renderToBuffer sawtooth
    [[Some {| note := "C-4"; instr := "01"; vol := "64" |}; Some empty_cell]] 125 1 =
  renderToBuffer sawtooth
    [[Some {| note := "G-4"; instr := "--"; vol := "--" |}; None]] 125 1.
Proof.
  apply renderToBuffer_ignores_notes. repeat constructor.
Defined.

(** *** Voices and active notes *)







End RenderMore.

(** ** Facts: EditorFacts *)

Module EditorFacts.
Import Render Editor RenderFacts RenderMore.

(** *** [editCell] *)

Lemma map_insert {A B : Type} (f : A -> B) (l : list A) (i : nat) (x : A) :
  map f (<[i := x]> l) = <[i := f x]> (map f l).
Proof. apply (list_fmap_insert f l i x). Qed.

Lemma of_pattern_lookup (p : pattern) (chan : nat) :
  of_pattern p !! chan = map (option_map of_cell) <$> p !! chan.
Proof. unfold of_pattern. apply (list_lookup_fmap (map (option_map of_cell)) p chan). Qed.

Lemma of_row_lookup (c : list (option cell)) (row : nat) :
  map (option_map of_cell) c !! row = option_map of_cell <$> c !! row.
Proof. apply (list_lookup_fmap (option_map of_cell) c row). Qed.

Ltac in_options := unfold options; apply list_elem_of_In; cbn; tauto.

(** The next note for each note of the cycle, and for any other note. *)
Lemma next_note_cases (n : string) :
  ((n = "C-4" /\ next_note n = "D-4") \/
  (n = "D-4" /\ next_note n = "E-4") \/
  (n = "E-4" /\ next_note n = "F-4") \/
  (n = "F-4" /\ next_note n = "G-4") \/
  (n = "G-4" /\ next_note n = "--") \/
  (n = "--" /\ next_note n = "C-4") \/
  ((n ∉ options) /\ next_note n = "C-4"))%string.
Proof.
  unfold next_note, idx, indexOf, options. cbn [indexOf_from].
  destruct (String.eqb_spec "C-4" n) as [<- | H1]; [left; split; reflexivity |].
  destruct (String.eqb_spec "D-4" n) as [<- | H2];
    [right; left; split; reflexivity |].
  destruct (String.eqb_spec "E-4" n) as [<- | H3];
    [right; right; left; split; reflexivity |].
  destruct (String.eqb_spec "F-4" n) as [<- | H4];
    [right; right; right; left; split; reflexivity |].
  destruct (String.eqb_spec "G-4" n) as [<- | H5];
    [right; right; right; right; left; split; reflexivity |].
  destruct (String.eqb_spec "--" n) as [<- | H6];
    [right; right; right; right; right; left; split; reflexivity |].
  right; right; right; right; right; right. split; [| reflexivity].
  intros Hin. repeat (apply elem_of_cons in Hin as [-> | Hin]; [congruence |]).
  apply elem_of_nil in Hin. exact Hin.
Qed.

Lemma options_index (n : string) :
  JS.index options (idx (Some n)) = Some (next_note n).
Proof.
  destruct (next_note_cases n) as [[-> _] | [[-> _] | [[-> _] | [[-> _] | [[-> _] |
    [[-> _] | [Hn _]]]]]]]; try reflexivity.
  unfold next_note. destruct (JS.index options (idx (Some n))) as [s |] eqn:E;
    [reflexivity |].
  exfalso. revert E. unfold idx, indexOf, options. cbn [indexOf_from].
  repeat match goal with
         | |- context [String.eqb ?a n] =>
             destruct (String.eqb_spec a n) as [<- | ?];
             [exfalso; apply Hn; in_options |]
         end.
  discriminate.
Qed.

(** One edit of a complete cell inside the grid. *)
Lemma editCell_complete (p : pattern) (chan row : nat)
    (c : list (option cell)) (x : cell) :
  p !! chan = Some c -> c !! row = Some (Some x) ->
  editCell (of_pattern p) chan row =
  Ok (of_pattern (<[chan := <[row := Some (with_note (next_note (note x)) x)]> c]> p)).
Proof.
  intros Hc Hx. unfold editCell.
  rewrite of_pattern_lookup, Hc. cbn [fmap option_fmap option_map].
  rewrite of_row_lookup, Hx. cbn [fmap option_fmap option_map of_cell jnote jinstr jvol].
  rewrite options_index. unfold array_set.
  rewrite length_map.
  destruct (Nat.ltb_spec row (length c)) as [_ | Hge];
    [| apply lookup_lt_Some in Hx; lia].
  f_equal. unfold of_pattern. symmetry.
  etrans; [apply (map_insert (map (option_map of_cell)) p chan) |].
  f_equal. apply (map_insert (option_map of_cell) c row).
Qed.

Lemma editCell_iter (p : pattern) (chan row : nat)
    (c : list (option cell)) (x : cell) (k : nat) :
  p !! chan = Some c -> c !! row = Some (Some x) ->
  Nat.iter k (fun r => q ← r; editCell q chan row) (Ok (of_pattern p)) =
  Ok (of_pattern
        (<[chan := <[row := Some (with_note (Nat.iter k next_note (note x)) x)]> c]> p)).
Proof.
  intros Hc Hx. induction k as [| k IH].
  - assert (E : with_note (note x) x = x) by (destruct x; reflexivity).
    cbn [Nat.iter nat_rect]. rewrite E. unfold Render.pattern in *.
    rewrite (list_insert_id c row _ Hx), (list_insert_id p chan _ Hc). reflexivity.
  - change (Nat.iter (S k) ?f ?a) with (f (Nat.iter k f a)). rewrite IH.
    cbn [mbind result_bind].
    pose proof (lookup_lt_Some _ _ _ Hc) as Hlc.
    pose proof (lookup_lt_Some _ _ _ Hx) as Hlx.
    rewrite (editCell_complete _ chan row
               (<[row := Some (with_note (Nat.iter k next_note (note x)) x)]> c)
               (with_note (Nat.iter k next_note (note x)) x)).
    + unfold Render.pattern in *. rewrite !list_insert_insert_eq. reflexivity.
    + apply list_lookup_insert_eq. exact Hlc.
    + apply list_lookup_insert_eq. exact Hlx.
Qed.

(** Property X12.  An edit inside the grid changes one cell only, replaces
    its note by the next note of the cycle and keeps its instrument and
    volume; the note after any note outside the cycle is ["C-4"]. *)
Theorem editCell_in_grid (p : pattern) (chan row : nat)
    (c : list (option cell)) (x : cell) :
  p !! chan = Some c -> c !! row = Some (Some x) ->
  exists (p' : pattern) (n' : string),
    editCell (of_pattern p) chan row = Ok (of_pattern p') /\
    length p' = length p /\
    (forall ch r, (ch, r) <> (chan, row) ->
       (p' !! ch) ≫= (fun c' => c' !! r) = (p !! ch) ≫= (fun c' => c' !! r)) /\
    (p' !! chan) ≫= (fun c' => c' !! row) =
      Some (Some {| note := n'; instr := instr x; vol := vol x |}) /\
    n' ∈ options /\
    (forall i : nat, options !! i = Some (note x) ->
       options !! ((i + 1) mod 6)%nat = Some n') /\
    (note x ∉ options -> n' = "C-4"%string).
Proof.
  intros Hc Hx.
  pose proof (lookup_lt_Some _ _ _ Hc) as Hlc.
  pose proof (lookup_lt_Some _ _ _ Hx) as Hlx.
  eexists _, (next_note (note x)).
  split; [apply (editCell_complete p chan row c x Hc Hx) |].
  unfold Render.pattern in *.
  split; [apply length_insert |].
  split; [| split; [| split; [| split]]].
  - intros ch r Hne. destruct (decide (ch = chan)) as [-> | Hch].
    + rewrite list_lookup_insert_eq by exact Hlc. rewrite Hc. cbn.
      apply list_lookup_insert_ne. congruence.
    + rewrite list_lookup_insert_ne by congruence. reflexivity.
  - rewrite list_lookup_insert_eq by exact Hlc. cbn.
    rewrite list_lookup_insert_eq by exact Hlx. reflexivity.
  - destruct (next_note_cases (note x)) as [[_ ->] | [[_ ->] | [[_ ->] | [[_ ->] |
      [[_ ->] | [[_ ->] | [_ ->]]]]]]]; in_options.
  - intros i Hi.
    destruct (next_note_cases (note x)) as [[E ->] | [[E ->] | [[E ->] | [[E ->] |
      [[E ->] | [[E ->] | [Hn _]]]]]]]; rewrite ?E in Hi;
      try (do 6 (destruct i as [| i]; [try discriminate Hi; reflexivity |]);
           discriminate Hi).
    exfalso. apply Hn. apply list_elem_of_lookup. exists i. exact Hi.
  - intros Hn.
    destruct (next_note_cases (note x)) as [[E _] | [[E _] | [[E _] | [[E _] |
      [[E _] | [[E _] | [_ ->]]]]]]]; [.. | reflexivity];
      exfalso; apply Hn; rewrite E; in_options.
Qed.

Lemma editCell_in_grid_witness :
  editCell (of_pattern makePattern) 2 5 =
  Ok (of_pattern
        (<[2%nat := <[5%nat := Some {| note := "C-4"; instr := "--"; vol := "--" |}]>
                      (replicate ROWS (Some empty_cell))]> makePattern)).
Proof.
  destruct (editCell_in_grid makePattern 2 5 (replicate ROWS (Some empty_cell)) empty_cell)
    as (p' & n' & Hok & _ & _ & _ & _ & Hnext & _); [reflexivity | reflexivity |].
  specialize (Hnext 5%nat eq_refl). cbn in Hnext. injection Hnext as <-.
  reflexivity.
Defined.

(** Property X13.  On a cell whose note is one of the six of the cycle,
    six edits in a row give back the pattern the first edit started from. *)
Theorem editCell_six_times (p : pattern) (chan row : nat)
    (c : list (option cell)) (x : cell) :
  p !! chan = Some c -> c !! row = Some (Some x) -> note x ∈ options ->
  Nat.iter 6 (fun r => q ← r; editCell q chan row) (Ok (of_pattern p)) =
  Ok (of_pattern p).
Proof.
  intros Hc Hx Hn. rewrite (editCell_iter p chan row c x 6 Hc Hx).
  assert (E : Nat.iter 6 next_note (note x) = note x).
  { destruct (next_note_cases (note x)) as [[-> _] | [[-> _] | [[-> _] | [[-> _] |
      [[-> _] | [[-> _] | [Hout _]]]]]]]; try reflexivity.
    contradiction. }
  rewrite E.
  assert (E' : with_note (note x) x = x) by (destruct x; reflexivity).
  rewrite E'. unfold Render.pattern in *.
  rewrite (list_insert_id c row _ Hx), (list_insert_id p chan _ Hc). reflexivity.
Qed.

Lemma editCell_six_times_witness :
  Nat.iter 6 (fun r => q ← r; editCell q 0 0) (Ok (of_pattern makePattern)) =
  Ok (of_pattern makePattern).
Proof.
  apply (editCell_six_times makePattern 0 0 (replicate ROWS (Some empty_cell)) empty_cell);
    [reflexivity | reflexivity | in_options].
Defined.

Lemma Forall2_same_silence_refl (c : list (option cell)) :
  Forall2 (fun a b => silent a = silent b) c c.
Proof. induction c; constructor; [reflexivity | assumption]. Qed.

Lemma Forall2_pattern_refl (p : pattern) :
  Forall2 (Forall2 (fun a b => silent a = silent b)) p p.
Proof. induction p; constructor; [apply Forall2_same_silence_refl | assumption]. Qed.

(** Property X14.  An edit that moves a cell from one pitched note to
    another (any note but ["--"] and ["G-4"]) leaves the rendered audio
    exactly as it was; only the edits from and to ["--"] can be heard. *)
Theorem editCell_keeps_audio {host : Host} (wave : Q -> Q) (p : pattern)
    (chan row : nat) (c : list (option cell)) (x : cell) (bpm secondsLimit : Q) :
  p !! chan = Some c -> c !! row = Some (Some x) ->
  note x <> "--"%string -> note x <> "G-4"%string ->
  exists p' : pattern,
    editCell (of_pattern p) chan row = Ok (of_pattern p') /\
    renderToBuffer wave p' bpm secondsLimit = renderToBuffer wave p bpm secondsLimit.
Proof.
  intros Hc Hx Hsil Hg. eexists. split; [apply (editCell_complete p chan row c x Hc Hx) |].
  assert (H : Forall2 (Forall2 (fun a b => silent a = silent b)) p
                (<[chan := <[row := Some (with_note (next_note (note x)) x)]> c]> p));
    [| symmetry; apply renderToBuffer_ext;
       [apply same_silence_first_length, H | apply schedule_channels_same_silence, H]].
  unfold Render.pattern in *.
  rewrite <- (list_insert_id p chan c Hc) at 1.
  apply Forall2_insert; [apply Forall2_pattern_refl |].
  rewrite <- (list_insert_id c row (Some x) Hx) at 1.
  apply Forall2_insert; [apply Forall2_same_silence_refl |].
  cbn [silent with_note note].
  destruct (String.eqb_spec (note x) "--") as [E | _]; [contradiction |].
  destruct (next_note_cases (note x)) as [[_ ->] | [[_ ->] | [[_ ->] | [[_ ->] |
      [[E _] | [[E _] | [_ ->]]]]]]]; try reflexivity; contradiction.
Qed.

Lemma editCell_keeps_audio_witness :
  exists p' : pattern,
    editCell (of_pattern one_note_pattern) 0 1 = Ok (of_pattern p') /\
    renderToBuffer sawtooth p' 125 180 = renderToBuffer sawtooth one_note_pattern 125 180.
Proof.
  assert (Hrow : exists c x, one_note_pattern !! 0%nat = Some c /\
                             c !! 1%nat = Some (Some x) /\ note x = "C-4"%string)
    by (eexists _, _; repeat split; reflexivity).
  destruct Hrow as (c & x & Hc & Hx & Hn).
  apply (editCell_keeps_audio sawtooth one_note_pattern 0 1 c x 125 180 Hc Hx);
    rewrite Hn; discriminate.
Defined.

(** *** Cursor *)

Lemma handle_in_grid (s : cursor) (e : event) :
  0 <= cursorRow s < 64 /\ 0 <= selectedChan s < 8 ->
  0 <= cursorRow (handle s e) < 64 /\ 0 <= selectedChan (handle s e) < 8.
Proof.
  intros [Hr Hc]. destruct e as [k | | | i].
  - destruct k; cbn [handle onKey cursorRow selectedChan];
      change (Z.of_nat ROWS) with 64; change (Z.of_nat CHANNELS) with 8; lia.
  - cbn [handle]. unfold tick. destruct (playing s); [| split; assumption].
    cbn [cursorRow selectedChan]. unfold JS.rem. change (Z.of_nat ROWS) with 64.
    split; [| exact Hc].
    pose proof (Z.rem_bound_pos (cursorRow s + 1) 64 ltac:(lia) ltac:(lia)). lia.
  - cbn [handle onKey cursorRow selectedChan]. lia.
  - cbn [handle]. destruct (Nat.ltb_spec i 4) as [Hi |]; [| split; assumption].
    cbn [cursorRow selectedChan]. lia.
Qed.

Lemma fold_handle_in_grid (events : list event) :
  forall s : cursor,
    0 <= cursorRow s < 64 /\ 0 <= selectedChan s < 8 ->
    0 <= cursorRow (fold_left handle events s) < 64 /\
    0 <= selectedChan (fold_left handle events s) < 8.
Proof.
  induction events as [| e events IH]; intros s H; [exact H |].
  cbn [fold_left]. apply IH, handle_in_grid, H.
Qed.

(** Property X15.  Whatever keys are pressed, whatever is clicked and
    however long playback runs, the cursor row stays within 0..63 and the
    selected channel within 0..7, so the cursor always addresses a cell of
    the pattern. *)
Theorem cursor_stays_in_grid (events : list event) :
  0 <= cursorRow (after events) < 64 /\
  0 <= selectedChan (after events) < 8 /\
  exists (c : list (option cell)) (x : cell),
    makePattern !! Z.to_nat (selectedChan (after events)) = Some c /\
    c !! Z.to_nat (cursorRow (after events)) = Some (Some x).
Proof.
  destruct (fold_handle_in_grid events initial) as [Hr Hc];
    [cbn; lia |].
  fold (after events) in Hr, Hc.
  split; [exact Hr |]. split; [exact Hc |].
  exists (replicate ROWS (Some empty_cell)), empty_cell. split.
  - apply lookup_replicate_2. unfold CHANNELS. lia.
  - apply lookup_replicate_2. unfold ROWS. lia.
Qed.

End EditorFacts.

(** ** Facts: AsciiCircleFacts *)

Module AsciiCircleFacts.
Import Render AsciiCircleVisualizer RenderFacts.

(** *** The face shown by [AsciiCircleVisualizer] *)

Lemma fold_add_bounds (data : list Z) :
  Forall (fun v => 0 <= v <= 255) data ->
  forall acc : Z,
    acc <= fold_left Z.add data acc <= acc + 255 * Z.of_nat (length data).
Proof.
  induction 1 as [| v data Hv _ IH]; intros acc; cbn [fold_left length].
  - lia.
  - specialize (IH (acc + v)). lia.
Qed.

(** The average of a non-empty byte spectrum is a number from 0 to 255. *)
Lemma avg_bytes (data : list Z) :
  data <> [] -> Forall (fun v => 0 <= v <= 255) data ->
  exists a : Q, avg data = Fin a /\ (0 <= a)%Q /\ (a <= 255)%Q.
Proof.
  intros Hne Hb. unfold avg, sum.
  pose proof (fold_add_bounds data Hb 0) as Hs.
  set (s := fold_left Z.add data 0) in *.
  assert (Hlen : 0 < Z.of_nat (length data)) by (destruct data; [contradiction | cbn; lia]).
  set (n := Z.of_nat (length data)) in *.
  assert (Hn : (0 < inject_Z n)%Q) by (change 0%Q with (inject_Z 0); rewrite <- Zlt_Qlt; exact Hlen).
  exists (inject_Z s / inject_Z n)%Q. split.
  - cbn [jdiv]. rewrite Qeq_bool_nonzero; [reflexivity |].
    intros C. rewrite C in Hn. apply (Qlt_irrefl 0), Hn.
  - split.
    + apply Qle_shift_div_l; [exact Hn |]. rewrite Qmult_0_l.
      change 0%Q with (inject_Z 0). rewrite <- Zle_Qle. lia.
    + apply Qle_shift_div_r; [exact Hn |].
      change 255%Q with (inject_Z 255). rewrite <- inject_Z_mult, <- Zle_Qle. lia.
Qed.

Lemma asciiFaces_length : length asciiFaces = 60%nat.
Proof. reflexivity. Qed.

(** For a running average from 0 to 255 the level is an index of the table. *)
Lemma face_of_level (s : Q) :
  (0 <= s)%Q -> (s <= 255)%Q ->
  exists f : string, face (level (Fin s)) = Some f /\ f ∈ asciiFaces.
Proof.
  intros H0 H255. unfold level. rewrite asciiFaces_length.
  change (inject_Z (Z.of_nat 60)) with 60%Q.
  cbn [jdiv]. change (Qeq_bool 255 0) with false. cbn [jmul jfloor jmin].
  set (k := Qfloor (s / 255 * 60)).
  assert (Hk : 0 <= k).
  { unfold k. change 0 with (Qfloor 0). apply Qfloor_resp_le.
    apply Qmult_le_0_compat; [| discriminate].
    apply Qle_shift_div_l; [reflexivity |]. lra. }
  assert (Hidx : forall m : Z, 0 <= m <= 59 ->
            exists f, face (Fin (inject_Z m)) = Some f /\ f ∈ asciiFaces).
  { intros m Hm. unfold face. rewrite Qfloor_Z.
    rewrite (proj2 (Qeq_bool_iff _ _) (Qeq_refl _)).
    unfold JS.index. destruct (Z.ltb_spec m 0) as [|_]; [lia |].
    destruct (lookup_lt_is_Some_2 asciiFaces (Z.to_nat m)) as [f Hf];
      [rewrite asciiFaces_length; lia |].
    exists f. split; [exact Hf |]. apply list_elem_of_lookup. eexists. exact Hf. }
  unfold Qmin, GenericMinMax.gmin.
  destruct (Qcompare_spec (60 - 1) (inject_Z k)) as [E | L | G].
  - apply (Hidx 59). lia.
  - apply (Hidx 59). lia.
  - apply (Hidx k). split; [exact Hk |].
    assert (G' : (inject_Z k < inject_Z 59)%Q) by (change (inject_Z 59) with 59%Q; lra).
    rewrite <- Zlt_Qlt in G'. lia.
Qed.

Lemma faces_loop_defined (frames : list (list Z)) :
  Forall (fun data => data <> [] /\ Forall (fun v => 0 <= v <= 255) data) frames ->
  forall s : Q, (0 <= s)%Q -> (s <= 255)%Q ->
    Forall (fun f => exists name : string, f = Some name /\ name ∈ asciiFaces)
           (loop (Fin s) frames).
Proof.
  induction 1 as [| data frames [Hne Hb] _ IH]; intros s H0 H255; cbn [loop];
    [constructor |].
  destruct (avg_bytes data Hne Hb) as (a & Ha & Ha0 & Ha255).
  unfold smooth_next. rewrite Ha. cbn [jmul jadd].
  assert (B0 : (0 <= s * 0.8 + a * 0.2)%Q) by lra.
  assert (B1 : (s * 0.8 + a * 0.2 <= 255)%Q) by lra.
  constructor; [| apply IH; assumption].
  destruct (face_of_level _ B0 B1) as (f & Hf & Hin). exists f. split; assumption.
Qed.

(** Property X17.  While the analyser delivers non-empty byte spectra,
    every frame shows a face of the table: the level computed from the
    smoothed average never leaves the table's indices. *)
Theorem faces_loop_shows_a_face (frames : list (list Z)) :
  Forall (fun data => data <> [] /\ Forall (fun v => 0 <= v <= 255) data) frames ->
  length (loop (Fin 0) frames) = length frames /\
  Forall (fun f => exists name : string, f = Some name /\ name ∈ asciiFaces)
         (loop (Fin 0) frames).
Proof.
  intros H. split.
  - generalize (Fin 0). clear H. induction frames as [| d frames IH]; intros s;
      cbn [loop length]; [reflexivity | rewrite IH; reflexivity].
  - apply faces_loop_defined; [exact H | |]; lra.
Qed.

Lemma faces_loop_shows_a_face_witness :
  Forall (fun f => exists name : string, f = Some name /\ name ∈ asciiFaces)
         (loop (Fin 0) [[255; 255]; [0; 128]]).
Proof.
  apply faces_loop_shows_a_face.
  repeat constructor; try discriminate; lia.
Defined.

End AsciiCircleFacts.

(** ** Facts: PatternGridFacts *)

Module PatternGridFacts.
Import PitchMapper PatternGridVisualizer PitchMapperFacts PitchMapperMore.

(** *** Peak detection in [PatternGridVisualizer] *)

Lemma forEach_peak_spec (s : list Z) :
  forall (i : nat) (pk : nat * Z),
    let r := forEach_peak s i pk in
    snd pk <= snd r /\
    (forall v, v ∈ s -> v <= snd r) /\
    ((r = pk /\ forall v, v ∈ s -> v <= snd pk) \/
     (exists j : nat,
        fst r = (i + j)%nat /\ s !! j = Some (snd r) /\ snd pk < snd r /\
        forall (j' : nat) (v : Z), (j' < j)%nat -> s !! j' = Some v -> v < snd r)).
Proof.
  induction s as [| v s IH]; intros i pk; cbn [forEach_peak]; cbv zeta.
  - split; [lia |]. split; [intros v Hv; apply elem_of_nil in Hv; contradiction |].
    left. split; [reflexivity |]. intros v Hv. apply elem_of_nil in Hv. contradiction.
  - destruct (Z.ltb_spec (snd pk) v) as [Hlt | Hge].
    + specialize (IH (S i) (i, v)). cbv zeta in IH. cbn [snd] in IH.
      destruct IH as (Hmono & Hall & Hcase).
      split; [lia |]. split.
      { intros w Hw. apply elem_of_cons in Hw as [-> | Hw]; [exact Hmono | apply Hall, Hw]. }
      right. destruct Hcase as [[E Hle] | (j & Hi & Hj & Hlt' & Hfirst)].
      * exists 0%nat. rewrite E. cbn [fst snd]. split; [lia |]. split; [reflexivity |].
        split; [exact Hlt |]. intros j' w Hj'. lia.
      * exists (S j). split; [lia |]. split; [exact Hj |]. split; [lia |].
        intros j' w Hj' Hw. destruct j' as [| j'].
        -- cbn in Hw. injection Hw as <-. exact Hlt'.
        -- apply (Hfirst j' w); [lia | exact Hw].
    + specialize (IH (S i) pk). cbv zeta in IH.
      destruct IH as (Hmono & Hall & Hcase).
      split; [exact Hmono |]. split.
      { intros w Hw. apply elem_of_cons in Hw as [-> | Hw]; [lia | apply Hall, Hw]. }
      destruct Hcase as [[E Hle] | (j & Hi & Hj & Hlt' & Hfirst)].
      * left. split; [exact E |].
        intros w Hw. apply elem_of_cons in Hw as [-> | Hw]; [exact Hge | apply Hle, Hw].
      * right. exists (S j). split; [lia |]. split; [exact Hj |]. split; [exact Hlt' |].
        intros j' w Hj' Hw. destruct j' as [| j'].
        -- cbn in Hw. injection Hw as <-. lia.
        -- apply (Hfirst j' w); [lia | exact Hw].
Qed.

(** Property X18.  The peak of a slice is its largest value, at the first
    position where it occurs; a slice with no positive value gives peak
    value 0 at index 0. *)
Theorem peak_first_maximum (s : list Z) :
  0 <= snd (peak s) /\
  (forall v, v ∈ s -> v <= snd (peak s)) /\
  ((snd (peak s) = 0 /\ fst (peak s) = 0%nat) \/
   (0 < snd (peak s) /\
    s !! fst (peak s) = Some (snd (peak s)) /\
    forall (j : nat) (v : Z), (j < fst (peak s))%nat -> s !! j = Some v -> v < snd (peak s))).
Proof.
  unfold peak. destruct (forEach_peak_spec s 0 (0%nat, 0)) as (Hmono & Hall & Hcase).
  cbn [snd] in Hmono. split; [exact Hmono |]. split; [exact Hall |].
  destruct Hcase as [[E _] | (j & Hi & Hj & Hlt & Hfirst)].
  - left. rewrite E. split; reflexivity.
  - right. cbn [snd] in Hlt. split; [exact Hlt |]. rewrite Hi. cbn [Nat.add].
    split; [exact Hj | exact Hfirst].
Qed.

Lemma slice_lookup (data : list Z) (start len i : nat) (v : Z) :
  slice data start (start + len) !! i = Some v ->
  (i < len)%nat /\ data !! (start + i)%nat = Some v.
Proof.
  unfold slice. replace (start + len - start)%nat with len by lia.
  intros H. apply lookup_take_Some in H as [H Hi]. rewrite lookup_drop in H.
  split; assumption.
Qed.

(** Property X19.  The frequency a channel's note is computed from is the
    peak's position inside the channel's slice times the bin width, not
    its position in the spectrum: for every channel it is below
    [bandsPerChan] bins. The cell shows ["--"] exactly when the peak is
    below 10 or sits in the first bin of the slice. *)
Theorem note_uses_slice_index (data : list Z) (sampleRate fftSize : Q) (c : nat) :
  (0 < sampleRate)%Q -> (0 < fftSize)%Q ->
  exists (peakIdx : nat) (peakVal : Z),
    peak (slice data (c * bandsPerChan data) ((c + 1) * bandsPerChan data)) =
      (peakIdx, peakVal) /\
    (note data sampleRate fftSize c = "--"%string <-> peakVal < 10 \/ peakIdx = 0%nat) /\
    (10 <= peakVal ->
       (peakIdx < bandsPerChan data)%nat /\
       data !! (c * bandsPerChan data + peakIdx)%nat = Some peakVal /\
       note data sampleRate fftSize c =
         freqToNoteName (JNum (inject_Z (Z.of_nat peakIdx) * (sampleRate / fftSize)))).
Proof.
  intros Hsr Hfft.
  assert (Hw : (0 < sampleRate / fftSize)%Q).
  { apply Qlt_shift_div_l; [exact Hfft |]. lra. }
  unfold note, binFreq.
  replace ((c + 1) * bandsPerChan data)%nat
    with (c * bandsPerChan data + bandsPerChan data)%nat by lia.
  set (s := slice data (c * bandsPerChan data) (c * bandsPerChan data + bandsPerChan data)).
  pose proof (forEach_peak_spec s 0 (0%nat, 0)) as Hspec. cbv zeta in Hspec.
  fold (peak s) in Hspec. destruct Hspec as (_ & _ & Hcase).
  exists (fst (peak s)), (snd (peak s)).
  split; [apply surjective_pairing |].
  destruct (Z.ltb_spec (snd (peak s)) 10) as [Hlow | Hhigh].
  - split; [| lia]. split; [intros _; left; exact Hlow | reflexivity].
  - split.
    + split.
      * intros Hn. right.
        destruct (fst (peak s)) as [| k] eqn:Ek; [reflexivity |].
        exfalso. revert Hn. apply freqToNoteName_positive_not_sentinel.
        apply Qmult_lt_0_compat; [| exact Hw].
        change 0%Q with (inject_Z 0). rewrite <- Zlt_Qlt. lia.
      * intros [Hlt | Hz]; [lia |]. rewrite Hz.
        change (inject_Z (Z.of_nat 0)) with 0%Q.
        unfold freqToNoteName, no_freq.
        assert (E : Qle_bool (0 * (sampleRate / fftSize)) 0 = true)
          by (apply Qle_bool_iff; lra).
        rewrite E. reflexivity.
    + intros _. destruct Hcase as [[Hz _] | (j & Hj & Hat & _)];
        [rewrite Hz in Hhigh; cbn [snd] in Hhigh; lia |].
      rewrite Hj. cbn [Nat.add].
      apply slice_lookup in Hat as [Hi Hd].
      split; [exact Hi |]. split; [exact Hd | reflexivity].
Qed.

Lemma note_uses_slice_index_witness :
  note [0; 0; 200; 0; 0; 50; 0; 0; 9; 9; 9; 9; 0; 0; 0; 10;
        0; 0; 0; 0; 0; 0; 0; 0; 0; 0; 0; 0; 0; 0; 0; 255] 44100 64 1 = "F5"%string.
Proof.
  destruct (note_uses_slice_index
              [0; 0; 200; 0; 0; 50; 0; 0; 9; 9; 9; 9; 0; 0; 0; 10;
        0; 0; 0; 0; 0; 0; 0; 0; 0; 0; 0; 0; 0; 0; 0; 255] 44100 64 1)
    as (peakIdx & peakVal & Hpk & _ & Hhigh); [reflexivity | reflexivity |].
  vm_compute in Hpk. injection Hpk as <- <-.
  destruct Hhigh as (_ & _ & ->); [lia |].
  vm_compute. reflexivity.
Defined.

(** *** The scrolling grid *)

Lemma grid_loop_length {row : Type} (st : list row * nat) (r : row) :
  length (fst (loop st r)) = length (fst st).
Proof. unfold loop. cbn [fst]. apply length_insert. Qed.

Lemma frames_snoc {row : Type} (ph : row) (rows : list row) (r : row) :
  frames ph (rows ++ [r]) = loop (frames ph rows) r.
Proof. unfold frames. rewrite fold_left_app. reflexivity. Qed.

(** Property X20.  The grid is a ring of 64 rows: after any number of
    frames it still has 64 rows, the cursor is the frame count modulo 64,
    each of the last 64 frames is found at its number modulo 64, and rows
    not yet reached keep the placeholder. *)
Theorem frames_ring {row : Type} (ph : row) (rows : list row) :
  length (fst (frames ph rows)) = 64%nat /\
  snd (frames ph rows) = (length rows mod 64)%nat /\
  (forall k : nat, (k < length rows)%nat -> (length rows <= k + 64)%nat ->
     fst (frames ph rows) !! (k mod 64)%nat = rows !! k) /\
  (forall i : nat, (length rows <= i)%nat -> (i < 64)%nat ->
     fst (frames ph rows) !! i = Some ph).
Proof.
  induction rows as [| r rows IH] using rev_ind.
  - unfold frames. cbn [fold_left fst snd length].
    split; [apply length_replicate |]. split; [reflexivity |].
    split; [intros k Hk; lia |].
    intros i _ Hi. apply lookup_replicate_2. exact Hi.
  - destruct IH as (Hlen & Hcur & Hlast & Hph).
    rewrite frames_snoc, length_app. cbn [length].
    split; [rewrite grid_loop_length; exact Hlen |].
    unfold loop. cbn [fst snd]. rewrite Hcur. change ROWS with 64%nat.
    split.
    { rewrite Nat.Div0.add_mod_idemp_l. reflexivity. }
    assert (Hm : (length rows mod 64 < 64)%nat) by (apply Nat.mod_upper_bound; lia).
    split.
    + intros k Hk Hwin.
      destruct (decide (k = length rows)) as [-> | Hne].
      * rewrite list_lookup_insert_eq by (rewrite Hlen; exact Hm).
        rewrite lookup_app_r by lia. rewrite Nat.sub_diag. reflexivity.
      * rewrite lookup_app_l by lia.
        rewrite list_lookup_insert_ne.
        -- apply Hlast; lia.
        -- intros E.
           assert (Hk' : (k < length rows)%nat) by lia.
           pose proof (Nat.div_mod k 64 ltac:(lia)) as Dk.
           pose proof (Nat.div_mod (length rows) 64 ltac:(lia)) as Dn.
           rewrite <- E in Dk.
           assert (Hq : (k / 64 < length rows / 64)%nat) by nia.
           nia.
    + intros i Hi Hi64.
      rewrite list_lookup_insert_ne.
      * apply Hph; lia.
      * rewrite Nat.mod_small by lia. lia.
Qed.

End PatternGridFacts.

(** ** Facts: HexConsoleFacts *)

Module HexConsoleFacts.
Import Render Analyzer HexConsoleVisualizer AnalyzerFacts RenderFacts AsciiCircleFacts.

(** *** The lines of [HexConsoleVisualizer] *)

Lemma concat_replicate_singleton {A : Type} (n : nat) (x : A) :
  concat (replicate n [x]) = replicate n x.
Proof. induction n as [| n IH]; [reflexivity |]. cbn. rewrite IH. reflexivity. Qed.

Lemma repeat_nonneg (c n : Z) :
  0 <= n -> repeat_ [c] (Fin (inject_Z n)) = Ok (replicate (Z.to_nat n) c).
Proof.
  intros Hn. unfold repeat_. rewrite trunc_inject_Z.
  destruct (Z.ltb_spec n 0) as [| _]; [lia |].
  f_equal. apply concat_replicate_singleton.
Qed.

Lemma repeat_negative (c n : Z) :
  n < 0 -> repeat_ [c] (Fin (inject_Z n)) = Throw RangeError.
Proof.
  intros Hn. unfold repeat_. rewrite trunc_inject_Z.
  destruct (Z.ltb_spec n 0) as [_ |]; [reflexivity | lia].
Qed.

(** The bar is drawn for levels 0 to 17 and is five characters wide;
    any other level makes [repeat] throw. *)
Lemma bar_range (level : Z) :
  (0 <= level <= 17 ->
   bar level = Ok (replicate (Z.to_nat (level / 3)) 9608 ++
                   replicate (Z.to_nat (5 - level / 3)) 32)) /\
  (level < 0 \/ 17 < level -> bar level = Throw RangeError).
Proof.
  unfold bar. split.
  - intros H. assert (0 <= level / 3 <= 5).
    { split; [apply Z.div_pos; lia |].
      apply Z.lt_succ_r, Z.div_lt_upper_bound; lia. }
    rewrite (repeat_nonneg 9608 (level / 3)), (repeat_nonneg 32 (5 - level / 3)) by lia.
    reflexivity.
  - intros [H | H].
    + rewrite (repeat_negative 9608 (level / 3)); [reflexivity |].
      apply Z.div_lt_upper_bound; lia.
    + assert (6 <= level / 3) by (apply Z.div_le_lower_bound; lia).
      rewrite (repeat_nonneg 9608 (level / 3)) by lia.
      rewrite (repeat_negative 32 (5 - level / 3)) by lia. reflexivity.
Qed.

Lemma hex_two_digits (level : Z) :
  0 <= level <= 15 -> String.length (hex level) = 2%nat.
Proof.
  intros H.
  assert (E : level = 0 \/ level = 1 \/ level = 2 \/ level = 3 \/ level = 4 \/
              level = 5 \/ level = 6 \/ level = 7 \/ level = 8 \/ level = 9 \/
              level = 10 \/ level = 11 \/ level = 12 \/ level = 13 \/ level = 14 \/
              level = 15) by lia.
  repeat (destruct E as [-> | E]; [reflexivity |]). subst. reflexivity.
Qed.

Lemma sum_bins_nonneg (arr : list Z) (start end_ : nat) :
  Forall (fun x => 0 <= x <= 255) arr -> 0 <= sum_bins arr start end_.
Proof.
  intros H. unfold sum_bins.
  assert (Hd : Forall (fun x => 0 <= x <= 255) (take (end_ - start) (drop start arr)))
    by (apply Forall_take, Forall_drop; exact H).
  induction Hd as [| x l Hx _ IH]; cbn [foldr]; lia.
Qed.

(** The level of a band of a byte spectrum is between 0 and 15. *)
Lemma level_range (arr : list Z) (start end_ : nat) :
  (start < end_)%nat ->
  Forall (fun x => 0 <= x <= 255) arr ->
  0 <= level (energy arr (start, end_)) <= 15.
Proof.
  intros Hlt Hb. rewrite energy_sum. unfold level.
  pose proof (sum_bins_nonneg arr start end_ Hb) as H0.
  pose proof (sum_bins_bound arr 255 start end_ ltac:(lia) Hb) as H1.
  set (s := sum_bins arr start end_) in *.
  replace (Z.of_nat end_ - Z.of_nat start) with (Z.of_nat (end_ - start)) by lia.
  set (n := Z.of_nat (end_ - start)) in *.
  assert (Hn : (0 < inject_Z n)%Q)
    by (change 0%Q with (inject_Z 0); rewrite <- Zlt_Qlt; lia).
  assert (Hv0 : (0 <= inject_Z s / inject_Z n)%Q).
  { apply Qle_shift_div_l; [exact Hn |]. rewrite Qmult_0_l.
    change 0%Q with (inject_Z 0). rewrite <- Zle_Qle. exact H0. }
  assert (Hv1 : (inject_Z s / inject_Z n <= 255)%Q).
  { apply Qle_shift_div_r; [exact Hn |].
    change 255%Q with (inject_Z 255). rewrite <- inject_Z_mult, <- Zle_Qle. lia. }
  set (v := (inject_Z s / inject_Z n)%Q) in *.
  split.
  - change 0 with (Qfloor 0). apply Qfloor_resp_le.
    assert (E : (v / 255 * 15 == v * (15 # 255))%Q) by field. rewrite E. lra.
  - change 15 with (Qfloor 15). apply Qfloor_resp_le.
    assert (E : (v / 255 * 15 == v * (15 # 255))%Q) by field. rewrite E. lra.
Qed.

Lemma bandLine_ok (dataArray : list Z) (b : band) :
  (fst (range b) < snd (range b))%nat ->
  Forall (fun x => 0 <= x <= 255) dataArray ->
  let lvl := level (energy dataArray (range b)) in
  0 <= lvl <= 15 /\
  bandLine dataArray b =
    Ok (units ("[" ++ name b ++ "] " ++ hex lvl ++ " ")%string ++
        replicate (Z.to_nat (lvl / 3)) 9608 ++ replicate (Z.to_nat (5 - lvl / 3)) 32).
Proof.
  intros Hlt Hb lvl. destruct b as [nm [start end_]]. cbn [range fst snd] in *.
  pose proof (level_range dataArray start end_ Hlt Hb) as Hl. fold lvl in Hl.
  split; [exact Hl |]. unfold bandLine. cbn [range name]. fold lvl.
  rewrite (proj1 (bar_range lvl)) by lia. reflexivity.
Qed.

(** Property X21.  For a byte spectrum no band line ever throws: each
    level is between 0 and 15, is written as two hexadecimal digits, and
    is followed by a bar of exactly five characters, one block per three
    levels. *)
Theorem bandData_well_formed (dataArray : list Z) :
  Forall (fun x => 0 <= x <= 255) dataArray ->
  exists lines : list ustring,
    bandData dataArray = Ok lines /\
    Forall2 (fun b line =>
               exists lvl : Z,
                 lvl = level (energy dataArray (range b)) /\
                 0 <= lvl <= 15 /\
                 String.length (hex lvl) = 2%nat /\
                 line = units ("[" ++ name b ++ "] " ++ hex lvl ++ " ")%string ++
                        replicate (Z.to_nat (lvl / 3)) 9608 ++
                        replicate (Z.to_nat (5 - lvl / 3)) 32 /\
                 length (replicate (Z.to_nat (lvl / 3)) 9608 ++
                         replicate (Z.to_nat (5 - lvl / 3)) 32) = 5%nat)
            bands lines.
Proof.
  intros Hb. unfold bandData, bands. cbn [mapM].
  pose proof (bandLine_ok dataArray {| name := "BASS"; range := (0, 64)%nat |}
                ltac:(cbn; lia) Hb) as [R1 E1].
  pose proof (bandLine_ok dataArray {| name := "MID"; range := (65, 256)%nat |}
                ltac:(cbn; lia) Hb) as [R2 E2].
  pose proof (bandLine_ok dataArray {| name := "HIGH"; range := (257, 1024)%nat |}
                ltac:(cbn; lia) Hb) as [R3 E3].
  rewrite E1, E2, E3. cbn [mbind result_bind mret result_ret].
  eexists. split; [reflexivity |].
  assert (Hw : forall lvl : Z, 0 <= lvl <= 15 ->
            length (replicate (Z.to_nat (lvl / 3)) 9608 ++
                    replicate (Z.to_nat (5 - lvl / 3)) 32) = 5%nat).
  { intros lvl Hl. rewrite length_app, !length_replicate.
    assert (0 <= lvl / 3 <= 5).
    { split; [apply Z.div_pos; lia |].
      apply Z.lt_succ_r, Z.div_lt_upper_bound; lia. }
    lia. }
  repeat constructor;
    (eexists; split; [reflexivity |]; split; [assumption |];
     split; [apply hex_two_digits; assumption |]; split; [reflexivity |];
     apply Hw; assumption).
Qed.

Lemma bandData_well_formed_witness :
  exists lines : list ustring, bandData (replicate 1024 255) = Ok lines /\ length lines = 3%nat.
Proof.
  destruct (bandData_well_formed (replicate 1024 255)) as (lines & Hok & Hall).
  - apply Forall_replicate. lia.
  - exists lines. split; [exact Hok |].
    apply Forall2_length in Hall. symmetry. exact Hall.
Defined.

(** Property X22.  The volume meter of a byte spectrum never throws and is
    always eight characters wide: some squares, then dots; an empty
    spectrum gives eight dots. *)
Theorem volumeMeter_width (dataArray : list Z) :
  Forall (fun x => 0 <= x <= 255) dataArray ->
  exists k : nat,
    (k <= 8)%nat /\
    volumeMeter dataArray = Ok (replicate k 9632 ++ replicate (8 - k) 183) /\
    length (replicate k 9632 ++ replicate (8 - k) 183) = 8%nat /\
    (dataArray = [] -> k = 0%nat).
Proof.
  intros Hb. unfold volumeMeter, avgVolume.
  destruct dataArray as [| x rest].
  - exists 0%nat. split; [lia |]. split; [reflexivity |]. split; reflexivity.
  - destruct (avg_bytes (x :: rest) ltac:(discriminate) Hb)
      as (a & Ha & Ha0 & Ha255).
    rewrite Ha. cbn [Editor.jround jdiv]. change (Qeq_bool 255 0) with false.
    cbn [jmul AsciiCircleVisualizer.jfloor].
    set (r := Qfloor (a + (1 # 2))).
    assert (Hr0 : 0 <= r).
    { unfold r. change 0 with (Qfloor 0). apply Qfloor_resp_le. lra. }
    assert (Hr1 : r <= 255).
    { unfold r. change 255 with (Qfloor (255 + (1 # 2))). apply Qfloor_resp_le. lra. }
    set (m := Qfloor (inject_Z r / 255 * 8)).
    assert (Hq0 : (0 <= inject_Z r)%Q)
      by (change 0%Q with (inject_Z 0); rewrite <- Zle_Qle; exact Hr0).
    assert (Hq1 : (inject_Z r <= 255)%Q)
      by (change 255%Q with (inject_Z 255); rewrite <- Zle_Qle; exact Hr1).
    assert (E : (inject_Z r / 255 * 8 == inject_Z r * (8 # 255))%Q) by field.
    assert (Hm0 : 0 <= m).
    { unfold m. change 0 with (Qfloor 0). apply Qfloor_resp_le. rewrite E. lra. }
    assert (Hm1 : m <= 8).
    { unfold m. change 8 with (Qfloor 8). apply Qfloor_resp_le. rewrite E. lra. }
    rewrite (repeat_nonneg 9632 m Hm0). cbn [mbind result_bind].
    exists (Z.to_nat m). split; [lia |].
    unfold padEnd8. rewrite length_replicate.
    split; [reflexivity |]. split; [| discriminate].
    rewrite length_app, !length_replicate. lia.
Qed.

Lemma volumeMeter_width_witness :
  volumeMeter [128; 128] = Ok [9632; 9632; 9632; 9632; 183; 183; 183; 183].
Proof.
  destruct (volumeMeter_width [128; 128]) as (k & Hk & Hok & _).
  - repeat constructor; lia.
  - rewrite Hok.
    assert (E : k = 4%nat).
    { do 9 (destruct k as [| k];
            [first [reflexivity | exfalso; vm_compute in Hok; discriminate Hok] |]).
      lia. }
    rewrite E. reflexivity.
Defined.

(** Property X23.  The console keeps the most recent lines: after any
    number of frames it holds the last 80 of all lines written, in order. *)
Theorem setLines_keeps_last_80 {line : Type} (lines : list line) :
  fold_left setLines lines [] = drop (length lines - 80) lines /\
  (length (fold_left setLines lines []) <= 80)%nat.
Proof.
  assert (H : fold_left setLines lines [] = drop (length lines - 80) lines).
  { induction lines as [| x lines IH] using rev_ind; [reflexivity |].
    rewrite fold_left_app. cbn [fold_left]. rewrite IH. unfold setLines.
    rewrite !length_app, length_drop. cbn [length].
    destruct (Nat.le_gt_cases (length lines) 79) as [Hs | Hl].
    - replace (length lines - 80)%nat with 0%nat by lia.
      replace (length lines - 0 + 1 - 80)%nat with 0%nat by lia.
      replace (length lines + 1 - 80)%nat with 0%nat by lia.
      reflexivity.
    - replace (length lines - (length lines - 80) + 1 - 80)%nat with 1%nat by lia.
      rewrite drop_app_le by (rewrite length_drop; lia).
      rewrite drop_drop.
      rewrite drop_app_le by lia.
      do 2 f_equal. lia. }
  split; [exact H |]. rewrite H, length_drop. lia.
Qed.

End HexConsoleFacts.

(** ** Facts: SpectrumFacts *)

Module SpectrumFacts.
Import Render Spectrum PitchMapperFacts DoubleFacts.

(** *** The columns drawn by [startVisualizer] *)

Lemma barHeight_range (rows v : Z) :
  0 <= rows < 2 ^ 53 -> 0 <= v <= 255 ->
  exists h : Z, barHeight (Some v) rows = Some h /\ 0 <= h <= rows.
Proof.
  intros Hrows Hv. unfold barHeight. cbn [mbind option_bind].
  assert (Hv0 : (0 <= inject_Z v)%Q) by (change 0%Q with (inject_Z 0); rewrite <- Zle_Qle; lia).
  assert (Hv1 : (inject_Z v <= 255)%Q)
    by (change 255%Q with (inject_Z 255); rewrite <- Zle_Qle; lia).
  assert (Hr : (0 <= inject_Z rows)%Q)
    by (change 0%Q with (inject_Z 0); rewrite <- Zle_Qle; lia).
  assert (H0 : binary64 0 = Fin 0) by reflexivity.
  assert (H1 : binary64 1 = Fin 1) by (vm_compute; reflexivity).
  assert (Hrows' : binary64 (inject_Z rows) = Fin (inject_Z rows))
    by (apply binary64_integer; [reflexivity | lia]).
  destruct (binary64_sandwich 0 (inject_Z v / 255) 1 0 1) as (x & Hx & Hx0 & Hx1);
    [apply Qle_shift_div_l; [reflexivity | lra]
    | apply Qle_shift_div_r; [reflexivity | lra] | exact H0 | exact H1 |].
  unfold ddiv. change (Qeq_bool 255 0) with false. cbv iota. rewrite Hx. cbn [dmul].
  destruct (binary64_sandwich 0 (x * inject_Z rows) (inject_Z rows) 0 (inject_Z rows))
    as (h & Hh & Hh0 & Hh1); [nra | nra | exact H0 | exact Hrows' |].
  rewrite Hh. eexists. split; [reflexivity |]. split.
  - change 0 with (Qfloor 0). apply Qfloor_resp_le. exact Hh0.
  - rewrite <- (Qfloor_Z rows) at 1. apply Qfloor_resp_le. exact Hh1.
Qed.

(** The rounding of the two operations shows in the height: at value 155
    with 51 rows the exact product is 31, and the code computes 30. *)
Lemma barHeight_rounding :
  Qfloor (155 / 255 * 51) = 31 /\ barHeight (Some 155) 51 = Some 30.
Proof. split; vm_compute; reflexivity. Qed.

Lemma column_lookup (rows : Z) (value : option Z) (y : nat) :
  (y < Z.to_nat rows)%nat ->
  column rows value !! y = Some (char rows (barHeight value rows) (Z.of_nat y)).
Proof.
  intros Hy. unfold column.
  rewrite (list_lookup_fmap (fun y => char rows (barHeight value rows) (Z.of_nat y))).
  rewrite lookup_seq_lt by exact Hy. reflexivity.
Qed.

Lemma length_column (rows : Z) (value : option Z) :
  length (column rows value) = Z.to_nat rows.
Proof. unfold column. rewrite length_map, length_seq. reflexivity. Qed.

(** Property X24.  A column for a byte value is blank down to and
    including row [rows - barHeight], then one ["@"], then ["#"] to the
    bottom: a bar of height [h] draws [h - 1] characters, a bar of height
    1 nothing, and the top row stays blank even at full scale. The height
    is the one the code computes in double arithmetic, for a row count
    below [2^53]. *)
Theorem column_shape (rows v : Z) :
  0 <= rows < 2 ^ 53 -> 0 <= v <= 255 ->
  exists h : Z,
    barHeight (Some v) rows = Some h /\ 0 <= h <= rows /\
    column rows (Some v) =
      if h <=? 1 then replicate (Z.to_nat rows) " "%char
      else replicate (Z.to_nat (rows - h + 1)) " "%char ++
           "@"%char :: replicate (Z.to_nat (h - 2)) "#"%char.
Proof.
  intros Hrows Hv. destruct (barHeight_range rows v Hrows Hv) as (h & Hh & Hr).
  exists h. split; [exact Hh |]. split; [exact Hr |].
  destruct Hrows as [Hrows _].
  apply list_eq. intros y.
  destruct (Nat.lt_ge_cases y (Z.to_nat rows)) as [Hy | Hy].
  - rewrite column_lookup by exact Hy. rewrite Hh. cbn [char].
    destruct (Z.leb_spec h 1) as [Hsmall | Hbig].
    + rewrite lookup_replicate_2 by exact Hy.
      destruct (Z.ltb_spec (rows - h) (Z.of_nat y)) as [C |]; [lia | reflexivity].
    + destruct (Z.ltb_spec (rows - h) (Z.of_nat y)) as [Hin | Hout].
      * rewrite lookup_app_r by (rewrite length_replicate; lia).
        rewrite length_replicate.
        destruct (Z.eqb_spec (Z.of_nat y) (rows - h + 1)) as [Etop | Hlow].
        -- replace (y - Z.to_nat (rows - h + 1))%nat with 0%nat by lia. reflexivity.
        -- destruct (y - Z.to_nat (rows - h + 1))%nat as [| d] eqn:Ed; [lia |].
           cbn [lookup list_lookup]. symmetry. apply lookup_replicate_2. lia.
      * rewrite lookup_app_l by (rewrite length_replicate; lia).
        symmetry. apply lookup_replicate_2. lia.
  - rewrite (proj2 (lookup_ge_None _ _)) by (rewrite length_column; exact Hy).
    symmetry. apply lookup_ge_None.
    destruct (Z.leb_spec h 1).
    + rewrite length_replicate. exact Hy.
    + rewrite length_app. cbn [length]. rewrite !length_replicate. lia.
Qed.

Lemma column_shape_witness :
  column 6 (Some 255) = [" "; "@"; "#"; "#"; "#"; "#"]%char.
Proof.
  destruct (column_shape 6 255) as (h & Hh & _ & Hc); [lia | lia |].
  rewrite Hc. vm_compute in Hh. injection Hh as <-. reflexivity.
Defined.

(** Property X25.  Every column reads an existing bin, the bin [x * step];
    when the canvas has more columns than the spectrum has bins, [step] is
    0 and every column shows bin 0. *)
Theorem value_in_range (dataArray : list Z) (cols : Z) (x : nat) :
  dataArray <> [] -> Z.of_nat x < cols ->
  (exists v : Z,
     value dataArray cols x = Some v /\
     dataArray !! (x * Z.to_nat (Z.of_nat (length dataArray) / cols))%nat = Some v) /\
  (Z.of_nat (length dataArray) < cols -> value dataArray cols x = dataArray !! 0%nat).
Proof.
  intros Hne Hx.
  assert (Hlen : 0 < Z.of_nat (length dataArray))
    by (destruct dataArray; [contradiction | cbn; lia]).
  assert (Hcols : 0 < cols) by lia.
  unfold value, step, JS.index.
  set (n := Z.of_nat (length dataArray)) in *.
  assert (Hs0 : 0 <= n / cols) by (apply Z.div_pos; lia).
  pose proof (Z.mul_div_le n cols Hcols) as Hle.
  assert (Hidx : 0 <= Z.of_nat x * (n / cols) < n) by nia.
  destruct (Z.ltb_spec (Z.of_nat x * (n / cols)) 0) as [| _]; [lia |].
  replace (Z.to_nat (Z.of_nat x * (n / cols))) with (x * Z.to_nat (n / cols))%nat by nia.
  split.
  - destruct (lookup_lt_is_Some_2 dataArray (x * Z.to_nat (n / cols))) as [v Hv];
      [nia |].
    exists v. split; exact Hv.
  - intros Hmore. rewrite (Z.div_small n cols) by lia.
    rewrite Nat.mul_0_r. reflexivity.
Qed.

Lemma value_in_range_witness :
  value [255; 128; 0; 30] 8 5 = Some 255.
Proof.
  destruct (value_in_range [255; 128; 0; 30] 8 5) as [_ H]; [discriminate | lia |].
  rewrite H by (cbn; lia). reflexivity.
Defined.

End SpectrumFacts.

(** ** Facts: AudioLengthFacts *)

Module AudioLengthFacts.
Import Render AudioLengthVisualizer PitchMapperFacts DoubleFacts ExportFacts.

(** *** [formatTime] *)

Lemma Qfloor_unique (x : Q) (k : Z) :
  (inject_Z k <= x)%Q -> (x < inject_Z k + 1)%Q -> Qfloor x = k.
Proof.
  intros Hlo Hhi.
  pose proof (Qfloor_le x) as Flo. pose proof (Qlt_floor x) as Fhi.
  rewrite inject_Z_plus in Fhi. change (inject_Z 1) with 1%Q in Fhi.
  assert (A : (inject_Z (Qfloor x) < inject_Z (k + 1))%Q)
    by (rewrite inject_Z_plus; change (inject_Z 1) with 1%Q; lra).
  assert (B : (inject_Z k < inject_Z (Qfloor x + 1))%Q)
    by (rewrite inject_Z_plus; change (inject_Z 1) with 1%Q; lra).
  rewrite <- Zlt_Qlt in A, B. lia.
Qed.

Lemma two_digits (sec : Z) :
  0 <= sec <= 59 ->
  HexConsoleVisualizer.padStart2 (JS.string_of_Z sec) =
  String (ascii_of_nat (48 + Z.to_nat (sec / 10)))
         (String (ascii_of_nat (48 + Z.to_nat (sec mod 10))) "").
Proof.
  intros H.
  assert (E : exists n : nat, sec = Z.of_nat n /\ (n < 60)%nat)
    by (exists (Z.to_nat sec); lia).
  destruct E as (n & -> & Hn).
  do 60 (destruct n as [| n]; [reflexivity |]). lia.
Qed.

(** [Math.floor(s / 60)] with the quotient rounded as a double: the
    floor of the exact quotient or, when the quotient rounds up to the
    next integer, one more; at a whole number of seconds it is the exact
    floor. *)
Lemma minutes_rounded (s : Q) :
  (0 <= s)%Q -> (s <= inject_Z (2 ^ 52))%Q ->
  exists m : Z,
    AsciiCircleVisualizer.jfloor (ddiv (Fin s) (Fin 60)) = Fin (inject_Z m) /\
    Qfloor (s / 60) <= m <= Qfloor (s / 60) + 1 /\
    ((s == inject_Z (Qfloor s))%Q -> m = Qfloor (s / 60)).
Proof.
  intros Hs Hmax. unfold ddiv. change (Qeq_bool 60 0) with false. cbv iota.
  set (k := Qfloor (s / 60)).
  pose proof (Qfloor_le (s / 60)) as Mlo. pose proof (Qlt_floor (s / 60)) as Mhi.
  rewrite inject_Z_plus in Mhi. change (inject_Z 1) with 1%Q in Mhi. fold k in Mlo, Mhi.
  assert (Es : (s == s / 60 * 60)%Q) by field.
  assert (Hk0 : 0 <= k).
  { unfold k. change 0 with (Qfloor 0). apply Qfloor_resp_le.
    apply Qle_shift_div_l; [reflexivity | lra]. }
  assert (Hk1 : k <= 2 ^ 47 - 1).
  { unfold k. change (2 ^ 47 - 1) with (Qfloor (inject_Z (2 ^ 47 - 1))). apply Qfloor_resp_le.
    apply Qle_shift_div_r; [reflexivity |].
    eapply Qle_trans; [exact Hmax | discriminate]. }
  assert (Hlo : binary64 (inject_Z k) = Fin (inject_Z k))
    by (apply binary64_integer; [reflexivity | lia]).
  assert (Hhi : binary64 (inject_Z (k + 1)) = Fin (inject_Z (k + 1)))
    by (apply binary64_integer; [reflexivity | lia]).
  assert (Mhi' : (s / 60 <= inject_Z (k + 1))%Q)
    by (rewrite inject_Z_plus; change (inject_Z 1) with 1%Q; lra).
  destruct (binary64_sandwich _ _ _ _ _ Mlo Mhi' Hlo Hhi) as (v & Hv & Hv0 & Hv1).
  exists (Qfloor v). rewrite Hv. split; [reflexivity |]. split.
  - split.
    + rewrite <- (Qfloor_Z k). apply Qfloor_resp_le. exact Hv0.
    + rewrite <- (Qfloor_Z (k + 1)). apply Qfloor_resp_le. exact Hv1.
  - intros Hwhole.
    assert (Hpow : (2 ^ (-6) == 1 # 64)%Q) by reflexivity.
    assert (Hhi' : binary64 (inject_Z (64 * k + 63) * 2 ^ (-6))
                   = Fin (Qred (inject_Z (64 * k + 63) * 2 ^ (-6)))).
    { apply (binary64_exact _ (64 * k + 63) (-6)); [reflexivity | lia | lia |].
      rewrite Qabs_pos.
      - rewrite Hpow, inject_Z_plus, inject_Z_mult.
        assert (Hk1' : (inject_Z k <= inject_Z (2 ^ 47))%Q) by (rewrite <- Zle_Qle; lia).
        change (inject_Z 64) with 64%Q. change (inject_Z 63) with 63%Q.
        apply Qle_lt_trans with (inject_Z (2 ^ 47) + 1)%Q; [| reflexivity].
        generalize dependent (inject_Z (2 ^ 47)). generalize (inject_Z k).
        intros x y Hxy. lra.
      - rewrite Hpow, inject_Z_plus, inject_Z_mult.
        assert (Hk0' : (0 <= inject_Z k)%Q)
          by (change 0%Q with (inject_Z 0); rewrite <- Zle_Qle; exact Hk0).
        change (inject_Z 64) with 64%Q. change (inject_Z 63) with 63%Q. lra. }
    (* at a whole second the quotient is at most k + 59/60 *)
    assert (Hq : (s / 60 <= inject_Z (64 * k + 63) * 2 ^ (-6))%Q).
    { rewrite Hpow, inject_Z_plus, inject_Z_mult.
      change (inject_Z 64) with 64%Q. change (inject_Z 63) with 63%Q.
      assert (Hn : Qfloor s <= 60 * k + 59).
      { assert (B : (inject_Z (Qfloor s) < inject_Z (60 * k + 60))%Q).
        { rewrite <- Hwhole, inject_Z_plus, inject_Z_mult.
          change (inject_Z 60) with 60%Q. lra. }
        rewrite <- Zlt_Qlt in B. lia. }
      rewrite Zle_Qle, <- Hwhole, inject_Z_plus, inject_Z_mult in Hn.
      change (inject_Z 60) with 60%Q in Hn. change (inject_Z 59) with 59%Q in Hn.
      apply Qle_shift_div_r; [reflexivity | lra]. }
    destruct (binary64_sandwich _ _ _ _ _ Mlo Hq Hlo Hhi') as (v' & Hv' & Hv0' & Hv1').
    rewrite Hv in Hv'. injection Hv' as <-.
    apply Qfloor_eq. rewrite Qred_correct, Hpow, inject_Z_plus, inject_Z_mult in Hv1'.
    change (inject_Z 64) with 64%Q in Hv1'. change (inject_Z 63) with 63%Q in Hv1'.
    rewrite inject_Z_plus. change (inject_Z 1) with 1%Q. split; lra.
Qed.

(** Property X26.  For a time from 0 to [2^52] seconds, [formatTime] shows
    whole minutes, a colon and exactly two digits of seconds from 00 to
    59. The seconds are those of the time rounded down; the minutes are
    the whole minutes of the time or, when the quotient [s / 60] rounds up
    to the next integer as a double, one more; at a whole number of
    seconds they are the whole minutes. *)
Theorem formatTime_minutes_seconds (s : Q) :
  (0 <= s)%Q -> (s <= inject_Z (2 ^ 52))%Q ->
  exists m sec : Z,
    0 <= sec <= 59 /\ 60 * Qfloor (s / 60) + sec = Qfloor s /\
    Qfloor (s / 60) <= m <= Qfloor (s / 60) + 1 /\
    ((s == inject_Z (Qfloor s))%Q -> m = Qfloor (s / 60)) /\
    formatTime s =
      (JS.string_of_Z m ++ ":" ++
       String (ascii_of_nat (48 + Z.to_nat (sec / 10)))
              (String (ascii_of_nat (48 + Z.to_nat (sec mod 10))) ""))%string.
Proof.
  intros Hs Hmax.
  destruct (minutes_rounded s Hs Hmax) as (m & Hm & Hrange & Hwhole).
  assert (H60 : (0 <= s / 60)%Q).
  { apply Qle_shift_div_l; [reflexivity |]. lra. }
  set (k := Qfloor (s / 60)) in *.
  pose proof (Qfloor_le (s / 60)) as Mlo. pose proof (Qlt_floor (s / 60)) as Mhi.
  rewrite inject_Z_plus in Mhi. change (inject_Z 1) with 1%Q in Mhi. fold k in Mlo, Mhi.
  assert (Es : (s == s / 60 * 60)%Q) by field.
  assert (Slo : (60 * inject_Z k <= s)%Q) by (rewrite Es; lra).
  assert (Shi : (s < 60 * inject_Z k + 60)%Q) by (rewrite Es; lra).
  pose proof (Qfloor_le s) as Flo. pose proof (Qlt_floor s) as Fhi.
  rewrite inject_Z_plus in Fhi. change (inject_Z 1) with 1%Q in Fhi.
  assert (Hsec : 60 * k <= Qfloor s <= 60 * k + 59).
  { assert (A : (inject_Z (60 * k) < inject_Z (Qfloor s + 1))%Q).
    { rewrite inject_Z_plus, inject_Z_mult.
      change (inject_Z 60) with 60%Q. change (inject_Z 1) with 1%Q. lra. }
    assert (B : (inject_Z (Qfloor s) < inject_Z (60 * k + 60))%Q).
    { rewrite inject_Z_plus, inject_Z_mult.
      change (inject_Z 60) with 60%Q. lra. }
    rewrite <- Zlt_Qlt in A, B. lia. }
  assert (Hfloor : Qfloor (fmod s 60) = Qfloor s - 60 * k).
  { unfold fmod. rewrite (trunc_nonneg (s / 60) H60). fold k.
    apply Qfloor_unique.
    - unfold Z.sub. rewrite inject_Z_plus, inject_Z_opp, inject_Z_mult.
      change (inject_Z 60) with 60%Q. lra.
    - unfold Z.sub. rewrite inject_Z_plus, inject_Z_opp, inject_Z_mult.
      change (inject_Z 60) with 60%Q. lra. }
  exists m, (Qfloor s - 60 * k).
  split; [lia |]. split; [lia |]. split; [exact Hrange |]. split; [exact Hwhole |].
  unfold formatTime. rewrite Hm, Hfloor.
  cbn [DoublePitchMapper.number_to_string]. rewrite Qfloor_Z.
  rewrite two_digits by lia. reflexivity.
Qed.

Lemma formatTime_minutes_seconds_witness :
  formatTime 75 = "1:15"%string.
Proof.
  destruct (formatTime_minutes_seconds 75) as (m & sec & Hsec & Hsum & _ & Hm & ->);
    [discriminate | discriminate |].
  rewrite (Hm eq_refl). change (Qfloor (75 / 60)) with 1 in *.
  change (Qfloor 75) with 75 in Hsum.
  assert (sec = 15) by lia. subst. reflexivity.
Defined.

End AudioLengthFacts.

